(** * Source terms of the CDO schemes: cell mask, dispatch, cellwise assembly

    A shallow embedding of the source-term code of
    [src/rayt/cs_rad_transfer_wall_flux.c] (the part that implements
    [cs_source_term.h]: registry of source terms, per-cell mask, resolution
    of the cellwise evaluators, the evaluators themselves and the cellwise
    driver), with the properties its specification states about them.

    The development also covers the functions that define a source term
    and set it up (default name, definition by value, by analytic
    function and by array, quadrature, default flag, reduction,
    destruction), the wall-temperature loop of
    [cs_rad_transfer_wall_flux] in the same file, and the comparison
    macros of [src/fvm/fvm_defs.h].

    C [double] is IEEE binary64: it is modelled by the primitive [float],
    each operation rounded on its own.  C arrays are lists; an access
    outside an array is undefined behaviour and is an outcome of its
    own. *)

From Stdlib Require Import ZArith Lia Bool Floats Ascii DecimalString DecimalZ DecimalPos.
From stdpp Require Import base option list gmap strings.

Local Open Scope Z_scope.

Set Warnings "-inexact-float,-clear-no-such-hyp".

(* ================================================================== *)
(** ** Outcomes of a C function *)

(** The messages this file passes to [bft_error]. *)
Inductive bft_message : Type :=
  | err_empty_st            (* " Stop setting an empty cs_source_term_t structure." *)
  | err_limit_source_terms  (* " Limitation to %d source terms has been reached!" *)
  | err_invalid_quadrature  (* " Invalid type of quadrature for computing a source term with CDOVB schemes" *)
  | err_invalid_definition  (* " Invalid type of definition for a source term in CDOVB" *)
  | err_invalid_scheme.     (* "Invalid space scheme for setting the source term." *)

(** What a call does: it returns, or [bft_error] stops the run, or an
    [assert] fails (builds without NDEBUG), or the behaviour is undefined
    (access outside an array, NULL pointer or NULL handle used, union
    member read that was not the one stored). *)
Inductive outcome (A : Type) : Type :=
  | Done (a : A)
  | Fatal (m : bft_message)
  | Aborted
  | Undefined.

Arguments Done {A} a.
Arguments Fatal {A} m.
Arguments Aborted {A}.
Arguments Undefined {A}.

#[global] Instance outcome_ret : MRet outcome := fun A a => Done a.

#[global] Instance outcome_bind : MBind outcome := fun A B f o =>
  match o with
  | Done a => f a
  | Fatal m => Fatal m
  | Aborted => Aborted
  | Undefined => Undefined
  end.

Definition bft_error {A : Type} (m : bft_message) : outcome A := Fatal m.

(** The error classes of the specification (its section 7). *)
Inductive error_kind : Type :=
  | InvalidConfiguration
  | UnsupportedConfiguration
  | NumericalDegeneracy.

(** Class of each message: a malformed set-up (no structure, too many
    terms) is an invalid configuration; a combination for which no
    evaluator exists is an unsupported one.  No message of this file
    reports a numerical degeneracy. *)
Definition kind_of (m : bft_message) : error_kind :=
  match m with
  | err_empty_st => InvalidConfiguration
  | err_limit_source_terms => InvalidConfiguration
  | err_invalid_quadrature => UnsupportedConfiguration
  | err_invalid_definition => UnsupportedConfiguration
  | err_invalid_scheme => UnsupportedConfiguration
  end.

(* ================================================================== *)
(** ** Arrays and loops *)

(** [a[i]] read. *)
Definition rd {A : Type} (a : list A) (i : Z) : outcome A :=
  if i <? 0 then Undefined
  else match a !! Z.to_nat i with
       | Some x => Done x
       | None => Undefined
       end.

(** [a[i] = x]. *)
Definition wr {A : Type} (a : list A) (i : Z) (x : A) : outcome (list A) :=
  if i <? 0 then Undefined
  else if i <? Z.of_nat (length a) then Done (<[Z.to_nat i := x]> a)
  else Undefined.

(** [a[i] = f(a[i])], as in [a[i] += x] and [a[i] |= m]. *)
Definition upd {A : Type} (a : list A) (i : Z) (f : A -> A) : outcome (list A) :=
  x ← rd a i; wr a i (f x).

(** A pointer that may be NULL, dereferenced. *)
Definition deref {A : Type} (p : option A) : outcome A :=
  match p with
  | Some x => Done x
  | None => Undefined
  end.

(** [for (i = i0; ...; i++) body], [count] iterations. *)
Fixpoint for_loop {St : Type} (count : nat) (i0 : Z)
    (body : Z -> St -> outcome St) (s : St) : outcome St :=
  match count with
  | O => Done s
  | S k => s' ← body i0 s; for_loop k (i0 + 1) body s'
  end.

(** [for (i = lo; i < hi; i++) body]. *)
Definition for_range {St : Type} (lo hi : Z)
    (body : Z -> St -> outcome St) (s : St) : outcome St :=
  for_loop (Z.to_nat (hi - lo)) lo body s.

(** [for (short int i = 0; i < n; i++) body] where [n] is an [int]: past
    SHRT_MAX the counter cannot reach [n]. *)
Definition for_short {St : Type} (n : Z)
    (body : Z -> St -> outcome St) (s : St) : outcome St :=
  if 32767 <? n then Undefined else for_range 0 n body s.

(* ================================================================== *)
(** ** Data model *)

(** [cs_real_3_t]. *)
Definition cs_real_3_t : Type := (float * float * float)%type.

(** [x[k]] for [k] in 0..2. *)
Definition v3 (x : cs_real_3_t) (k : Z) : float :=
  let '(a, b, c) := x in
  if k =? 0 then a else if k =? 1 then b else c.

(** [for (k = 0; k < 3; k++) x[k] = f(k)]. *)
Definition v3_of (f : Z -> float) : cs_real_3_t := (f 0, f 1, f 2).

(** [cs_analytic_func_t]: called as [(time, n_pts, xyz, retval)], it stores
    one value per point; it is given by the value at a point. *)
Definition cs_analytic_func_t : Type := float -> cs_real_3_t -> float.

Inductive cs_space_scheme_t : Type :=
  | CS_SPACE_SCHEME_CDOVB
  | CS_SPACE_SCHEME_CDOVCB
  | CS_SPACE_SCHEME_CDOFB
  | CS_SPACE_SCHEME_HHO.

(** The definition types this file names, and the other members of the
    enumeration. *)
Inductive cs_param_def_type_t : Type :=
  | CS_PARAM_DEF_BY_VALUE
  | CS_PARAM_DEF_BY_ANALYTIC_FUNCTION
  | CS_PARAM_DEF_BY_ARRAY
  | CS_PARAM_DEF_OTHER (code : Z).

Inductive cs_quadra_type_t : Type :=
  | CS_QUADRATURE_BARY
  | CS_QUADRATURE_BARY_SUBDIV
  | CS_QUADRATURE_HIGHER
  | CS_QUADRATURE_HIGHEST
  | CS_QUADRATURE_OTHER (code : Z).

(** The union [def] of a source term: [def.get.val] or [def.analytic]. *)
Inductive cs_def_t : Type :=
  | def_get (val : float)
  | def_analytic (func : cs_analytic_func_t).

(** A block of the heap, as [BFT_MALLOC] returns it. *)
Definition block : Type := positive.

Record cs_desc_t : Type := {
  location : Z;
  state : Z
}.

Record cs_source_term_t : Type := {
  name : option block;
  ml_id : Z;
  flag : Z;
  def_type : cs_param_def_type_t;
  def : cs_def_t;
  quad_type : cs_quadra_type_t;
  array_desc : cs_desc_t;
  array : option block
}.

(** [source->def.get.val]. *)
Definition get_val (st : cs_source_term_t) : outcome float :=
  match def st with
  | def_get v => Done v
  | def_analytic _ => Undefined
  end.

(** [source->def.analytic]. *)
Definition get_analytic (st : cs_source_term_t) : outcome cs_analytic_func_t :=
  match def st with
  | def_analytic f => Done f
  | def_get _ => Undefined
  end.

(** [cs_quant_t], the field read here. *)
Record cs_quant_t : Type := {
  center : cs_real_3_t
}.

(** [cs_cell_mesh_t], the fields read here. *)
Record cs_cell_mesh_t : Type := {
  c_id : Z;
  xc : cs_real_3_t;
  vol_c : float;
  n_vc : Z;
  xv : list float;
  wvc : list float;
  n_ec : Z;
  edge : list cs_quant_t;
  e2v_ids : list Z;
  n_fc : Z;
  face : list cs_quant_t;
  f2e_idx : list Z;
  f2e_ids : list Z
}.

(** [cs_locmat_t], a dense local matrix of [n_ent] rows. *)
Record cs_locmat_t : Type := {
  n_ent : Z;
  val : list float
}.

(** [cs_cell_builder_t]: the scratch arrays and the local Hodge operator. *)
Record cs_cell_builder_t : Type := {
  cb_values : list float;             (* cb->values *)
  cb_vectors : list cs_real_3_t;      (* cb->vectors *)
  cb_hdg : option cs_locmat_t         (* cb->hdg *)
}.

(** [cs_cell_sys_t], the fields used here. *)
Record cs_cell_sys_t : Type := {
  n_dofs : Z;
  source : list float
}.

Record cs_cdo_quantities_t : Type := {
  n_cells : Z
}.

Record cs_time_step_t : Type := {
  t_cur : float
}.

(** What the file takes from elsewhere, as parameters: the build mode,
    constants and types of headers that are not at hand, the shared
    pointers set by [cs_source_term_set_shared_pointers], the mesh
    locations, and three numerical helpers. *)
Class Env : Type := {
  (* assertions are compiled out *)
  NDEBUG : bool;
  (* maximal number of source terms of an equation *)
  CS_N_MAX_SOURCE_TERMS : Z;
  (* number of bits of the unsigned type cs_mask_t *)
  cs_mask_bits : Z;
  (* flags of cs_flag_t *)
  CS_FLAG_FULL_LOC : Z;
  CS_FLAG_PRIMAL : Z;
  CS_FLAG_DUAL : Z;
  CS_FLAG_SYS_HLOC_CONF : Z;
  CS_FLAG_SYS_SOURCES_HLOC : Z;
  CS_FLAG_SYS_SOURCETERM : Z;
  CS_FLAG_STATE_OWNER : Z;
  (* static pointers of the file *)
  cs_cdo_quant : cs_cdo_quantities_t;
  cs_time_step : cs_time_step_t;
  (* n_elts[0] of a mesh location, and its list of elements, NULL when the
     location is the whole mesh *)
  cs_mesh_location_get_n_elts : Z -> Z;
  cs_mesh_location_get_elt_list : Z -> option (list Z);
  (* (xv, xe, xf, xc): volume of the tetrahedron of four points *)
  cs_math_voltet : cs_real_3_t -> cs_real_3_t -> cs_real_3_t -> cs_real_3_t -> float;
  (* (xv, xe, xf, xc, vol): the Gauss points and the weights that the
     helper stores in gauss_pts[5] and weights[5] *)
  cs_quadrature_tet_5pts :
    cs_real_3_t -> cs_real_3_t -> cs_real_3_t -> cs_real_3_t -> float ->
    list cs_real_3_t * list float;
  (* (loc, vec): the entries of the product that the helper stores in
     matvec *)
  cs_locmat_matvec : cs_locmat_t -> list float -> list float
}.

(** [cs_source_term_cellwise_t]: [(source, cm, cb, values)], where [source]
    may be NULL; [cb] and [values] are updated in place. *)
Definition cs_source_term_cellwise_t : Type :=
  option cs_source_term_t -> cs_cell_mesh_t -> cs_cell_builder_t ->
  list float -> outcome (cs_cell_builder_t * list float).

(* ================================================================== *)
(** ** Helpers of the embedding *)

(** [f & m] as a condition. *)
Definition flag_on (f m : Z) : bool := negb (Z.land f m =? 0).

(** [assert(c)]. *)
Definition assert_ `{Env} (c : bool) : outcome unit :=
  if NDEBUG || c then Done tt else Aborted.

(** Conversion of an [int] to the unsigned type [cs_mask_t]. *)
Definition to_mask `{Env} (z : Z) : Z := z mod 2 ^ cs_mask_bits.

(** [(cs_mask_t)(1 << st_id)]: the shift of the [int] 1 is defined for
    the ids 0 to 30. *)
Definition mask_of_id `{Env} (st_id : Z) : outcome Z :=
  if (0 <=? st_id) && (st_id <? 31) then Done (to_mask (Z.shiftl 1 st_id))
  else Undefined.

(** The three coordinates at [xyz + off]. *)
Definition rd3 (xyz : list float) (off : Z) : outcome cs_real_3_t :=
  a ← rd xyz off; b ← rd xyz (off + 1); c ← rd xyz (off + 2); Done (a, b, c).

(** A call [def.analytic(tcur, 1, x, &r)]. *)
Definition ana1 (d : cs_def_t) (tcur : float) (x : cs_real_3_t) : outcome float :=
  match d with
  | def_analytic f => Done (f tcur x)
  | def_get _ => Undefined
  end.

(** A call [def.analytic(tcur, n_pts, xyz, dst + off)]: [xyz p] reads the
    point of rank [p]. *)
Definition ana_n (d : cs_def_t) (tcur : float) (n_pts : Z)
    (xyz : Z -> outcome cs_real_3_t) (dst : list float) (off : Z)
    : outcome (list float) :=
  match d with
  | def_analytic f =>
      for_range 0 n_pts (fun p dst => x ← xyz p; wr dst (off + p) (f tcur x)) dst
  | def_get _ => Undefined
  end.

(** [cs_locmat_matvec(hdg, buf + vec_off, buf + out_off)]: the helper reads
    [n_ent] entries of its second argument and stores the [n_ent] entries of
    the product in its third one; the two areas must not overlap. *)
Definition locmat_matvec `{Env} (h : option cs_locmat_t) (buf : list float)
    (vec_off out_off : Z) : outcome (list float) :=
  m ← deref h;
  let n := n_ent m in
  if (0 <? n) && negb ((vec_off + n <=? out_off) || (out_off + n <=? vec_off))
  then Undefined
  else
    vec ← for_range 0 n (fun i acc => x ← rd buf (vec_off + i); Done (acc ++ [x])) [];
    let prod := cs_locmat_matvec m vec in
    for_range 0 n (fun i buf => x ← rd prod i; wr buf (out_off + i) x) buf.

Definition is_some {A : Type} (p : option A) : bool :=
  match p with Some _ => true | None => false end.

Local Open Scope float_scope.

(* ================================================================== *)
(** ** Cellwise evaluators *)

(** In the embedding [cm], [cb] and [values] are never NULL, so that the
    assertions on them hold; [cb->hdg] may be NULL. *)

(** Scalar potential at primal vertices, by value. *)
Definition cs_source_term_pvsp_by_value `{Env} : cs_source_term_cellwise_t :=
  fun source cm cb values =>
  match source with
  | None => Done (cb, values)
  | Some source =>
    _ ← assert_ (is_some (cb_hdg cb));
    pot_value ← get_val source;
    (* eval = cb->values *)
    sv ← for_range 0 (n_vc cm) (fun v sv => wr sv v pot_value) (cb_values cb);
    (* hdg_eval = cb->values + cm->n_vc *)
    sv ← locmat_matvec (cb_hdg cb) sv 0 (n_vc cm);
    values ← for_range 0 (n_vc cm) (fun v values =>
               h ← rd sv (n_vc cm + v); upd values v (fun x => x + h)) values;
    Done ({| cb_values := sv; cb_vectors := cb_vectors cb; cb_hdg := cb_hdg cb |},
          values)
  end.

(** Scalar potential at primal vertices, by analytic function. *)
Definition cs_source_term_pvsp_by_analytic `{Env} : cs_source_term_cellwise_t :=
  fun source cm cb values =>
  match source with
  | None => Done (cb, values)
  | Some source =>
    _ ← assert_ (is_some (cb_hdg cb));
    let tcur := t_cur cs_time_step in
    sv ← ana_n (def source) tcur (n_vc cm) (fun p => rd3 (xv cm) (3 * p))
               (cb_values cb) 0;
    sv ← locmat_matvec (cb_hdg cb) sv 0 (n_vc cm);
    values ← for_range 0 (n_vc cm) (fun v values =>
               h ← rd sv (n_vc cm + v); upd values v (fun x => x + h)) values;
    Done ({| cb_values := sv; cb_vectors := cb_vectors cb; cb_hdg := cb_hdg cb |},
          values)
  end.

(** Scalar density at dual cells, by value. *)
Definition cs_source_term_dcsd_by_value `{Env} : cs_source_term_cellwise_t :=
  fun source cm cb values =>
  match source with
  | None => Done (cb, values)
  | Some source =>
    density_value ← get_val source;
    values ← for_range 0 (n_vc cm) (fun v values =>
               w ← rd (wvc cm) v;
               upd values v (fun x => x + density_value * w)) values;
    Done (cb, values)
  end.

(** What the loops on the edges of a face read for the edge of rank [i]:
    [e], [v1], [v2], [xv1 = cm->xv + 3*v1] and [xv2 = cm->xv + 3*v2]. *)
Definition edge_of_face (cm : cs_cell_mesh_t) (i : Z)
    : outcome (Z * Z * Z * cs_real_3_t * cs_real_3_t) :=
  e ← rd (f2e_ids cm) i;
  v1 ← rd (e2v_ids cm) (2 * e);
  v2 ← rd (e2v_ids cm) (2 * e + 1);
  xv1 ← rd3 (xv cm) (3 * v1);
  xv2 ← rd3 (xv cm) (3 * v2);
  Done (e, v1, v2, xv1, xv2).

(** The loop of the barycentric evaluator that divides each accumulated
    barycenter by the volume of the portion of dual cell. *)
Definition dcsd_bary_scale (cm : cs_cell_mesh_t) (xgv : list cs_real_3_t)
    : outcome (list cs_real_3_t) :=
  for_range 0 (n_vc cm) (fun v xgv =>
    w ← rd (wvc cm) v;
    let vol_vc := vol_c cm * w in
    let invvol := 1 / vol_vc in
    upd xgv v (fun g => v3_of (fun k => v3 g k * invvol))) xgv.

(** Scalar density at dual cells, by analytic function, barycentric
    quadrature. *)
Definition cs_source_term_dcsd_bary_by_analytic `{Env} : cs_source_term_cellwise_t :=
  fun source cm cb values =>
  match source with
  | None => Done (cb, values)
  | Some source =>
    (* xgv = cb->vectors *)
    xgv ← for_range 0 (n_vc cm) (fun v xgv => wr xgv v (0, 0, 0)) (cb_vectors cb);
    xgv ← for_range 0 (n_fc cm) (fun f xgv =>
      fq ← rd (face cm) f;
      let xf := center fq in
      let xfc := v3_of (fun k => 0.25 * (v3 xf k + v3 (xc cm) k)) in
      lo ← rd (f2e_idx cm) f;
      hi ← rd (f2e_idx cm) (f + 1);
      for_range lo hi (fun i xgv =>
        '(e, v1, v2, xv1, xv2) ← edge_of_face cm i;
        let tet_vol := 0.5 * cs_math_voltet xv1 xv2 xf (xc cm) in
        xgv ← upd xgv v1 (fun g => v3_of (fun k =>
                v3 g k + tet_vol * (v3 xfc k + 0.375 * v3 xv1 k + 0.125 * v3 xv2 k)));
        upd xgv v2 (fun g => v3_of (fun k =>
                v3 g k + tet_vol * (v3 xfc k + 0.375 * v3 xv2 k + 0.125 * v3 xv1 k))))
        xgv) xgv;
    let tcur := t_cur cs_time_step in
    (* result = cb->values *)
    xgv ← dcsd_bary_scale cm xgv;
    result ← ana_n (def source) tcur (n_vc cm) (fun p => rd xgv p) (cb_values cb) 0;
    values ← for_range 0 (n_vc cm) (fun v values =>
               w ← rd (wvc cm) v;
               r ← rd result v;
               wr values v (vol_c cm * w * r)) values;
    Done ({| cb_values := result; cb_vectors := xgv; cb_hdg := cb_hdg cb |}, values)
  end.

(** Scalar density at dual cells, by analytic function, barycentric
    quadrature on each sub-tetrahedron. *)
Definition cs_source_term_dcsd_q1o1_by_analytic `{Env} : cs_source_term_cellwise_t :=
  fun source cm cb values =>
  match source with
  | None => Done (cb, values)
  | Some source =>
    let tcur := t_cur cs_time_step in
    let ana := def source in
    values ← for_range 0 (n_fc cm) (fun f values =>
      fq ← rd (face cm) f;
      let xf := center fq in
      let xfc := v3_of (fun k => 0.25 * (v3 xf k + v3 (xc cm) k)) in
      lo ← rd (f2e_idx cm) f;
      hi ← rd (f2e_idx cm) (f + 1);
      for_range lo hi (fun i values =>
        '(e, v1, v2, xv1, xv2) ← edge_of_face cm i;
        let tet_vol := 0.5 * cs_math_voltet xv1 xv2 xf (xc cm) in
        let xg0 := v3_of (fun k => v3 xfc k + 0.375 * v3 xv1 k + 0.125 * v3 xv2 k) in
        let xg1 := v3_of (fun k => v3 xfc k + 0.375 * v3 xv2 k + 0.125 * v3 xv1 k) in
        result ← ana_n ana tcur 2 (fun p => rd [xg0; xg1] p) [0; 0] 0;
        r0 ← rd result 0%Z;
        r1 ← rd result 1%Z;
        values ← upd values v1 (fun x => x + tet_vol * r0);
        upd values v2 (fun x => x + tet_vol * r1)) values) values;
    Done (cb, values)
  end.

(** Scalar density at dual cells, by analytic function, ten-point
    quadrature.  [contrib], [result_v]/[pec_vol] and
    [result_vc]/[pfv_vol]/[val_ev]/[val_ec] are the areas of [cb->values]
    that start at 0, [n_vc] and [2*n_vc]; [xvc]/[xev]/[xe] start
    [cb->vectors] and [xec] is [cb->vectors + n_ec]. *)
Definition cs_source_term_dcsd_q10o2_by_analytic `{Env} : cs_source_term_cellwise_t :=
  fun source cm cb values =>
  match source with
  | None => Done (cb, values)
  | Some source =>
    let tcur := t_cur cs_time_step in
    let ana := def source in
    let nv := n_vc cm in
    let sv := cb_values cb in
    let vec := cb_vectors cb in
    (* Cell evaluation *)
    val_c ← ana1 ana tcur (xc cm);
    (* Contributions related to vertices *)
    sv ← ana_n ana tcur nv (fun p => rd3 (xv cm) (3 * p)) sv nv;
    vec ← for_range 0 nv (fun v vec =>
            x ← rd3 (xv cm) (3 * v);
            wr vec v (v3_of (fun k => 0.5 * (v3 (xc cm) k + v3 x k)))) vec;
    sv ← ana_n ana tcur nv (fun p => rd vec p) sv (2 * nv);
    sv ← for_range 0 nv (fun v sv =>
           result_v ← rd sv (nv + v);
           result_vc ← rd sv (2 * nv + v);
           let val_v := (- 0.05) * (val_c + result_v) + 0.2 * result_vc in
           w ← rd (wvc cm) v;
           wr sv v (w * vol_c cm * val_v)) sv;
    sv ← for_range 0 (n_ec cm) (fun e sv => wr sv (nv + e) 0) sv;
    (* Main loop on faces *)
    sv ← for_range 0 (n_fc cm) (fun f sv =>
      fq ← rd (face cm) f;
      let xf := center fq in
      sv ← for_range 0 nv (fun v sv => wr sv (2 * nv + v) 0) sv;
      lo ← rd (f2e_idx cm) f;
      hi ← rd (f2e_idx cm) (f + 1);
      sv ← for_range lo hi (fun i sv =>
        '(e, v1, v2, xv1, xv2) ← edge_of_face cm i;
        let pef_vol := cs_math_voltet xv1 xv2 xf (xc cm) in
        sv ← upd sv (nv + e) (fun x => x + pef_vol);
        sv ← upd sv (2 * nv + v1) (fun x => x + 0.5 * pef_vol);
        sv ← upd sv (2 * nv + v2) (fun x => x + 0.5 * pef_vol);
        ed ← rd (edge cm) e;
        let xef := v3_of (fun k => 0.5 * (v3 (center ed) k + v3 xf k)) in
        result_ef ← ana1 ana tcur xef;
        let ef_contrib := 0.1 * pef_vol * result_ef in
        sv ← upd sv v1 (fun x => x + ef_contrib);
        upd sv v2 (fun x => x + ef_contrib)) sv;
      (* Contributions related to this face *)
      val_f ← ana1 ana tcur xf;
      let val_f := val_f * (- 0.05) in
      let xfc := v3_of (fun k => 0.5 * (v3 xf k + v3 (xc cm) k)) in
      val_fc ← ana1 ana tcur xfc;
      let val_f := val_f + 0.2 * val_fc in
      for_range 0 nv (fun v sv =>
        pfv_vol ← rd sv (2 * nv + v);
        if 0 <? pfv_vol then
          x ← rd3 (xv cm) (3 * v);
          let xfv := v3_of (fun k => 0.5 * (v3 xf k + v3 x k)) in
          val_fv ← ana1 ana tcur xfv;
          upd sv v (fun c => c + pfv_vol * (val_f + 0.2 * val_fv))
        else Done sv) sv) sv;
    (* Contributions related to edges *)
    vec ← for_range 0 (n_ec cm) (fun e vec =>
      ed ← rd (edge cm) e;
      let xe := center ed in
      v1 ← rd (e2v_ids cm) (2 * e);
      xv1 ← rd3 (xv cm) (3 * v1);
      v2 ← rd (e2v_ids cm) (2 * e + 1);
      xv2 ← rd3 (xv cm) (3 * v2);
      vec ← wr vec (2 * e) (v3_of (fun k => 0.5 * (v3 xv1 k + v3 xe k)));
      wr vec (2 * e + 1) (v3_of (fun k => 0.5 * (v3 xv2 k + v3 xe k)))) vec;
    sv ← ana_n ana tcur (2 * n_ec cm) (fun p => rd vec p) sv (2 * nv);
    '(sv, vec) ← for_range 0 (n_ec cm) (fun e '(sv, vec) =>
      pec_vol ← rd sv (nv + e);
      let vol_e := 0.1 * pec_vol in
      v1 ← rd (e2v_ids cm) (2 * e);
      v2 ← rd (e2v_ids cm) (2 * e + 1);
      val_ev1 ← rd sv (2 * nv + 2 * e);
      sv ← upd sv v1 (fun c => c + vol_e * val_ev1);
      val_ev2 ← rd sv (2 * nv + (2 * e + 1));
      sv ← upd sv v2 (fun c => c + vol_e * val_ev2);
      (* Prepare the second call related to edges *)
      ed ← rd (edge cm) e;
      vec ← wr vec e (center ed);
      vec ← wr vec (n_ec cm + e)
               (v3_of (fun k => 0.5 * (v3 (xc cm) k + v3 (center ed) k)));
      Done (sv, vec)) (sv, vec);
    sv ← ana_n ana tcur (2 * n_ec cm) (fun p => rd vec p) sv (2 * nv);
    (* Last update of contrib related to edges *)
    sv ← for_range 0 (n_ec cm) (fun e sv =>
      val_ec0 ← rd sv (2 * nv + 2 * e);
      val_ec1 ← rd sv (2 * nv + (2 * e + 1));
      let val_e := (- 0.05) * val_ec0 + 0.2 * val_ec1 in
      pec_vol ← rd sv (nv + e);
      let e_contrib := 0.5 * pec_vol * val_e in
      v1 ← rd (e2v_ids cm) (2 * e);
      v2 ← rd (e2v_ids cm) (2 * e + 1);
      sv ← upd sv v1 (fun c => c + e_contrib);
      upd sv v2 (fun c => c + e_contrib)) sv;
    (* Add the computed contributions to the return values *)
    values ← for_range 0 nv (fun v values =>
               c ← rd sv v; upd values v (fun x => x + c)) values;
    Done ({| cb_values := sv; cb_vectors := vec; cb_hdg := cb_hdg cb |}, values)
  end.

(** One sub-tetrahedron of the five-point rule: Gauss points and weights,
    five evaluations, and their weighted sum. *)
Definition q5o3_sum `{Env} (ana : cs_def_t) (tcur : float)
    (xv_ xe xf xc_ : cs_real_3_t) (tet_vol : float) : outcome float :=
  let '(gauss_pts, weights) := cs_quadrature_tet_5pts xv_ xe xf xc_ tet_vol in
  results ← ana_n ana tcur 5 (fun p => rd gauss_pts p) [0; 0; 0; 0; 0] 0;
  for_range 0 5 (fun p sum =>
    r ← rd results p; w ← rd weights p; Done (sum + r * w)) 0.

(** Scalar density at dual cells, by analytic function, five-point
    quadrature. *)
Definition cs_source_term_dcsd_q5o3_by_analytic `{Env} : cs_source_term_cellwise_t :=
  fun source cm cb values =>
  match source with
  | None => Done (cb, values)
  | Some source =>
    let tcur := t_cur cs_time_step in
    let ana := def source in
    (* contrib = cb->values *)
    sv ← for_range 0 (n_vc cm) (fun v sv => wr sv v 0) (cb_values cb);
    (* Main loop on faces *)
    sv ← for_range 0 (n_fc cm) (fun f sv =>
      fq ← rd (face cm) f;
      let xf := center fq in
      lo ← rd (f2e_idx cm) f;
      hi ← rd (f2e_idx cm) (f + 1);
      for_range lo hi (fun i sv =>
        '(e, v1, v2, xv1, xv2) ← edge_of_face cm i;
        let tet_vol := 0.5 * cs_math_voltet xv1 xv2 xf (xc cm) in
        ed ← rd (edge cm) e;
        sum ← q5o3_sum ana tcur xv1 (center ed) xf (xc cm) tet_vol;
        sv ← upd sv v1 (fun c => c + sum);
        sum ← q5o3_sum ana tcur xv2 (center ed) xf (xc cm) tet_vol;
        upd sv v2 (fun c => c + sum)) sv) sv;
    (* Add the computed contributions to the return values *)
    values ← for_range 0 (n_vc cm) (fun v values =>
               c ← rd sv v; upd values v (fun x => x + c)) values;
    Done ({| cb_values := sv; cb_vectors := cb_vectors cb; cb_hdg := cb_hdg cb |},
          values)
  end.

(** Scalar potential at primal vertices and cells, by value. *)
Definition cs_source_term_vcsp_by_value `{Env} : cs_source_term_cellwise_t :=
  fun source cm cb values =>
  match source with
  | None => Done (cb, values)
  | Some source =>
    _ ← assert_ (is_some (cb_hdg cb));
    pot_value ← get_val source;
    (* eval = cb->values *)
    sv ← for_range 0 (n_vc cm) (fun v sv => wr sv v pot_value) (cb_values cb);
    sv ← wr sv (n_vc cm) pot_value;
    (* hdg_eval = cb->values + cm->n_vc + 1 *)
    sv ← locmat_matvec (cb_hdg cb) sv 0 (n_vc cm + 1);
    values ← for_short (n_vc cm + 1) (fun v values =>
               h ← rd sv (n_vc cm + 1 + v); upd values v (fun x => x + h)) values;
    Done ({| cb_values := sv; cb_vectors := cb_vectors cb; cb_hdg := cb_hdg cb |},
          values)
  end.

(** Scalar potential at primal vertices and cells, by analytic function. *)
Definition cs_source_term_vcsp_by_analytic `{Env} : cs_source_term_cellwise_t :=
  fun source cm cb values =>
  match source with
  | None => Done (cb, values)
  | Some source =>
    _ ← assert_ (is_some (cb_hdg cb));
    let tcur := t_cur cs_time_step in
    let ana := def source in
    (* eval = cb->values *)
    sv ← ana_n ana tcur (n_vc cm) (fun p => rd3 (xv cm) (3 * p)) (cb_values cb) 0;
    sv ← ana_n ana tcur 1 (fun _ => Done (xc cm)) sv (n_vc cm);
    sv ← locmat_matvec (cb_hdg cb) sv 0 (n_vc cm + 1);
    values ← for_short (n_vc cm + 1) (fun v values =>
               h ← rd sv (n_vc cm + 1 + v); upd values v (fun x => x + h)) values;
    Done ({| cb_values := sv; cb_vectors := cb_vectors cb; cb_hdg := cb_hdg cb |},
          values)
  end.

Local Close Scope float_scope.

(* ================================================================== *)
(** ** Registry, cell mask, dispatch and cellwise driver *)

(** [BFT_FREE(p)]: NULL is left alone; a block of the heap leaves it;
    anything else is not a pointer that can be freed. *)
Definition BFT_FREE (p : option block) (heap : gset block) : outcome (gset block) :=
  match p with
  | None => Done heap
  | Some b => if decide (b ∈ heap) then Done (heap ∖ {[b]}) else Undefined
  end.

(** Update of the mask of each cell from one source term. *)
Definition _set_mask `{Env} (st : option cs_source_term_t) (st_id : Z)
    (cell_mask : list Z) : outcome (list Z) :=
  match st with
  | None => bft_error err_empty_st
  | Some st =>
    mask ← mask_of_id st_id;
    if flag_on (flag st) CS_FLAG_FULL_LOC then
      for_range 0 (n_cells cs_cdo_quant) (fun i cell_mask =>
        upd cell_mask i (fun w => to_mask (Z.lor w mask))) cell_mask
    else
      let n_elts := cs_mesh_location_get_n_elts (ml_id st) in
      let elt_ids := cs_mesh_location_get_elt_list (ml_id st) in
      _ ← assert_ (is_some elt_ids);
      for_range 0 n_elts (fun i cell_mask =>
        ids ← deref elt_ids;
        c ← rd ids i;
        upd cell_mask c (fun w => to_mask (Z.lor w mask))) cell_mask
  end.

(** Destruction of an array of source terms, allocated in block [b] when
    it is not NULL; the result is the returned pointer and the heap. *)
Definition cs_source_term_destroy `{Env} (n_source_terms : Z)
    (source_terms : option (block * list cs_source_term_t)) (heap : gset block)
    : outcome (option (block * list cs_source_term_t) * gset block) :=
  match source_terms with
  | None => Done (None, heap)
  | Some (b, sts) =>
    heap ← for_range 0 n_source_terms (fun st_id heap =>
      st ← rd sts st_id;
      heap ← BFT_FREE (name st) heap;
      if flag_on (state (array_desc st)) CS_FLAG_STATE_OWNER then
        if is_some (array st) then BFT_FREE (array st) heap else Done heap
      else Done heap) heap;
    heap ← BFT_FREE (Some b) heap;
    Done (None, heap)
  end.

(** The [switch] of [cs_source_term_init] on the space scheme, for one
    source term: the evaluator stored in [compute_source[st_id]]. *)
Definition init_dispatch `{Env} (space_scheme : cs_space_scheme_t)
    (st : cs_source_term_t) : outcome cs_source_term_cellwise_t :=
  match space_scheme with
  | CS_SPACE_SCHEME_CDOVB =>
    if flag_on (flag st) CS_FLAG_DUAL then
      match def_type st with
      | CS_PARAM_DEF_BY_VALUE => Done cs_source_term_dcsd_by_value
      | CS_PARAM_DEF_BY_ANALYTIC_FUNCTION =>
        match quad_type st with
        | CS_QUADRATURE_BARY => Done cs_source_term_dcsd_bary_by_analytic
        | CS_QUADRATURE_BARY_SUBDIV => Done cs_source_term_dcsd_q1o1_by_analytic
        | CS_QUADRATURE_HIGHER => Done cs_source_term_dcsd_q10o2_by_analytic
        | CS_QUADRATURE_HIGHEST => Done cs_source_term_dcsd_q5o3_by_analytic
        | CS_QUADRATURE_OTHER _ => bft_error err_invalid_quadrature
        end
      | _ => bft_error err_invalid_definition
      end
    else
      _ ← assert_ (flag_on (flag st) CS_FLAG_PRIMAL);
      match def_type st with
      | CS_PARAM_DEF_BY_VALUE => Done cs_source_term_pvsp_by_value
      | CS_PARAM_DEF_BY_ANALYTIC_FUNCTION => Done cs_source_term_pvsp_by_analytic
      | _ => bft_error err_invalid_definition
      end
  | CS_SPACE_SCHEME_CDOVCB =>
    if flag_on (flag st) CS_FLAG_DUAL then
      bft_error err_invalid_definition
    else
      _ ← assert_ (flag_on (flag st) CS_FLAG_PRIMAL);
      match def_type st with
      | CS_PARAM_DEF_BY_VALUE => Done cs_source_term_vcsp_by_value
      | CS_PARAM_DEF_BY_ANALYTIC_FUNCTION => Done cs_source_term_vcsp_by_analytic
      | _ => bft_error err_invalid_definition
      end
  | _ => bft_error err_invalid_scheme
  end.

(** The body of the loop of [cs_source_term_init] on the source terms;
    its state is [(compute_source, *sys_flag, need_mask)]. *)
Definition init_term `{Env} (space_scheme : cs_space_scheme_t)
    (source_terms : list cs_source_term_t) (st_id : Z)
    (s : list (option cs_source_term_cellwise_t) * Z * bool)
    : outcome (list (option cs_source_term_cellwise_t) * Z * bool) :=
  let '(compute_source, sys_flag, need_mask) := s in
  st ← rd source_terms st_id;
  let sys_flag :=
    if flag_on (flag st) CS_FLAG_PRIMAL
    then Z.lor sys_flag (Z.lor CS_FLAG_SYS_HLOC_CONF CS_FLAG_SYS_SOURCES_HLOC)
    else sys_flag in
  let need_mask :=
    if flag_on (flag st) CS_FLAG_FULL_LOC then need_mask else true in
  compute ← init_dispatch space_scheme st;
  compute_source ← wr compute_source st_id (Some compute);
  Done (compute_source, sys_flag, need_mask).

(** Initialization of the data that build the source terms; the result is
    [(compute_source, *sys_flag, *source_mask)]. *)
Definition cs_source_term_init `{Env} (space_scheme : cs_space_scheme_t)
    (n_source_terms : Z) (source_terms : list cs_source_term_t)
    (compute_source : list (option cs_source_term_cellwise_t)) (sys_flag : Z)
    : outcome (list (option cs_source_term_cellwise_t) * Z * option (list Z)) :=
  if CS_N_MAX_SOURCE_TERMS <? n_source_terms
  then bft_error err_limit_source_terms
  else
    compute_source ← for_short CS_N_MAX_SOURCE_TERMS
                       (fun i cs => wr cs i None) compute_source;
    if n_source_terms =? 0 then Done (compute_source, sys_flag, None)
    else
      '(compute_source, sys_flag, need_mask) ←
        for_range 0 n_source_terms (init_term space_scheme source_terms)
          (compute_source, sys_flag, false);
      if need_mask : bool then
        let n_cells := n_cells cs_cdo_quant in
        (* BFT_MALLOC, then mask[i] = 0 for each cell *)
        let mask := replicate (Z.to_nat n_cells) 0 in
        mask ← for_range 0 n_source_terms (fun st_id mask =>
                 st ← rd source_terms st_id;
                 _set_mask (Some st) st_id mask) mask;
        Done (compute_source, sys_flag, Some mask)
      else Done (compute_source, sys_flag, None).

(** A call [compute_source[st_id](source_terms + st_id, cm, cb,
    csys->source)]. *)
Definition call_compute (source_terms : list cs_source_term_t)
    (cm : cs_cell_mesh_t)
    (compute_source : list (option cs_source_term_cellwise_t)) (st_id : Z)
    (s : cs_cell_builder_t * list float)
    : outcome (cs_cell_builder_t * list float) :=
  handle ← rd compute_source st_id;
  compute ← deref handle;
  st ← rd source_terms st_id;
  compute (Some st) cm s.1 s.2.

(** Local contributions of the source terms in a cell; the result is
    [(cb, csys)]. *)
Definition cs_source_term_compute_cellwise `{Env} (n_source_terms : Z)
    (source_terms : list cs_source_term_t) (cm : cs_cell_mesh_t)
    (sys_flag : Z) (source_mask : option (list Z))
    (compute_source : list (option cs_source_term_cellwise_t))
    (cb : cs_cell_builder_t) (csys : cs_cell_sys_t)
    : outcome (cs_cell_builder_t * cs_cell_sys_t) :=
  (* Reset local contributions *)
  src ← for_short (n_dofs csys) (fun i src => wr src i 0%float) (source csys);
  if flag_on sys_flag CS_FLAG_SYS_SOURCETERM then
    '(cb, src) ←
      match source_mask with
      | None =>
        for_short n_source_terms
          (call_compute source_terms cm compute_source) (cb, src)
      | Some source_mask =>
        for_short n_source_terms (fun st_id s =>
          st_mask ← mask_of_id st_id;
          w ← rd source_mask (c_id cm);
          if flag_on w st_mask
          then call_compute source_terms cm compute_source st_id s
          else Done s) (cb, src)
      end;
    Done (cb, {| n_dofs := n_dofs csys; source := src |})
  else Done (cb, {| n_dofs := n_dofs csys; source := src |}).

(* ================================================================== *)
(** ** Notions of the specification *)

(** The nine evaluators of the dispatch family. *)
Definition cellwise_evaluators `{Env} : list cs_source_term_cellwise_t :=
  [ cs_source_term_pvsp_by_value; cs_source_term_pvsp_by_analytic;
    cs_source_term_dcsd_by_value; cs_source_term_dcsd_bary_by_analytic;
    cs_source_term_dcsd_q1o1_by_analytic; cs_source_term_dcsd_q10o2_by_analytic;
    cs_source_term_dcsd_q5o3_by_analytic;
    cs_source_term_vcsp_by_value; cs_source_term_vcsp_by_analytic ].


(** A term is full-domain. *)
Definition full_domain `{Env} (st : cs_source_term_t) : bool :=
  flag_on (flag st) CS_FLAG_FULL_LOC.

(** The cells of the subset of a term: the first [n_elts] entries of the
    list of its mesh location. *)
Definition subset_cells `{Env} (st : cs_source_term_t) : list Z :=
  match cs_mesh_location_get_elt_list (ml_id st) with
  | Some ids => take (Z.to_nat (cs_mesh_location_get_n_elts (ml_id st))) ids
  | None => []
  end.

(** Term [st] applies to cell [c]: the term is full-domain, or [c] is in
    its subset. *)
Definition term_applies `{Env} (st : cs_source_term_t) (c : Z) : bool :=
  full_domain st || bool_decide (c ∈ subset_cells st).

(** What the mesh-subset collaborator owes for a term that is not
    full-domain: the list of its mesh location is there, with its [n_elts]
    entries, and every cell of the subset is a cell of the mesh. *)
Definition subset_valid `{Env} (st : cs_source_term_t) : Prop :=
  full_domain st = true \/
  (exists ids, cs_mesh_location_get_elt_list (ml_id st) = Some ids /\
               cs_mesh_location_get_n_elts (ml_id st) <= Z.of_nat (length ids)) /\
  (forall c, c ∈ subset_cells st -> 0 <= c < n_cells cs_cdo_quant).

(** Support of a term: a density on dual cells, or a potential. *)
Inductive support_kind : Type :=
  | Potential
  | Density.

Definition support_of `{Env} (st : cs_source_term_t) : support_kind :=
  if flag_on (flag st) CS_FLAG_DUAL then Density else Potential.

(** The flag of a term tells its support. *)
Definition support_declared `{Env} (st : cs_source_term_t) : Prop :=
  flag_on (flag st) CS_FLAG_DUAL = true \/ flag_on (flag st) CS_FLAG_PRIMAL = true.

(** The decision table of the specification: the vertex-based scheme has
    evaluators for a potential by value or analytic function, for a
    density by value, and for a density by analytic function at the four
    quadrature orders; the vertex+cell scheme has them for a potential by
    value or analytic function only; nothing else has one. *)
Definition evaluator_of `{Env} (scheme : cs_space_scheme_t) (sup : support_kind)
    (d : cs_param_def_type_t) (q : cs_quadra_type_t)
    : option cs_source_term_cellwise_t :=
  match scheme, sup, d with
  | CS_SPACE_SCHEME_CDOVB, Potential, CS_PARAM_DEF_BY_VALUE =>
      Some cs_source_term_pvsp_by_value
  | CS_SPACE_SCHEME_CDOVB, Potential, CS_PARAM_DEF_BY_ANALYTIC_FUNCTION =>
      Some cs_source_term_pvsp_by_analytic
  | CS_SPACE_SCHEME_CDOVB, Density, CS_PARAM_DEF_BY_VALUE =>
      Some cs_source_term_dcsd_by_value
  | CS_SPACE_SCHEME_CDOVB, Density, CS_PARAM_DEF_BY_ANALYTIC_FUNCTION =>
      match q with
      | CS_QUADRATURE_BARY => Some cs_source_term_dcsd_bary_by_analytic
      | CS_QUADRATURE_BARY_SUBDIV => Some cs_source_term_dcsd_q1o1_by_analytic
      | CS_QUADRATURE_HIGHER => Some cs_source_term_dcsd_q10o2_by_analytic
      | CS_QUADRATURE_HIGHEST => Some cs_source_term_dcsd_q5o3_by_analytic
      | CS_QUADRATURE_OTHER _ => None
      end
  | CS_SPACE_SCHEME_CDOVCB, Potential, CS_PARAM_DEF_BY_VALUE =>
      Some cs_source_term_vcsp_by_value
  | CS_SPACE_SCHEME_CDOVCB, Potential, CS_PARAM_DEF_BY_ANALYTIC_FUNCTION =>
      Some cs_source_term_vcsp_by_analytic
  | _, _, _ => None
  end.

(** The evaluator of the table for a term. *)
Definition term_evaluator `{Env} (scheme : cs_space_scheme_t)
    (st : cs_source_term_t) : option cs_source_term_cellwise_t :=
  evaluator_of scheme (support_of st) (def_type st) (quad_type st).

(** The term of rank [i] of the registry, among its [n] terms. *)
Definition term_at (n : Z) (sts : list cs_source_term_t) (i : Z)
    (st : cs_source_term_t) : Prop :=
  0 <= i < n /\ sts !! Z.to_nat i = Some st.

(** Sizes that [cs_source_term_init] relies on: [n] terms in the registry,
    no more than the maximum, and a table of [CS_N_MAX_SOURCE_TERMS]
    handles, a number that a [short int] holds. *)
Definition registry_sized `{Env} (n : Z) (sts : list cs_source_term_t)
    (compute_source : list (option cs_source_term_cellwise_t)) : Prop :=
  0 <= n <= CS_N_MAX_SOURCE_TERMS /\
  n <= Z.of_nat (length sts) /\
  CS_N_MAX_SOURCE_TERMS <= Z.of_nat (length compute_source) /\
  CS_N_MAX_SOURCE_TERMS <= 32767.

(** The type [cs_mask_t] has a bit for each of the ids 0 to
    [CS_N_MAX_SOURCE_TERMS - 1], and [1 << id] is defined for them. *)
Definition mask_fits `{Env} : Prop :=
  CS_N_MAX_SOURCE_TERMS <= cs_mask_bits /\ CS_N_MAX_SOURCE_TERMS <= 31.


(** The evaluators of the terms [ids] invoked one after the other: for
    each id in turn, the handle of that rank in the table is applied to
    the term of that rank in the registry, to the cell, to the builder and
    to the buffer as the previous handle left them, and what it returns is
    handed to the next one.  A rank without an entry in the table or in
    the registry, and a NULL handle, are undefined behaviour. *)
Fixpoint run_terms (source_terms : list cs_source_term_t) (cm : cs_cell_mesh_t)
    (compute_source : list (option cs_source_term_cellwise_t)) (ids : list Z)
    (s : cs_cell_builder_t * list float)
    : outcome (cs_cell_builder_t * list float) :=
  match ids with
  | [] => Done s
  | i :: ids =>
      match (compute_source !! Z.to_nat i
             : option (option cs_source_term_cellwise_t)),
            source_terms !! Z.to_nat i with
      | Some (Some compute), Some st =>
          s' ← compute (Some st) cm s.1 s.2;
          run_terms source_terms cm compute_source ids s'
      | _, _ => Undefined
      end
  end.

(** The buffer with its first [n] entries set to zero. *)
Definition zeroed (n : Z) (src : list float) : list float :=
  replicate (Z.to_nat n) 0%float ++ drop (Z.to_nat n) src.

(** The blocks that the destruction of the terms releases: each name,
    and each array whose descriptor has the owner flag. *)
Definition released `{Env} (sts : list cs_source_term_t) : list block :=
  flat_map (fun st =>
    match name st with Some b => [b] | None => [] end ++
    (if flag_on (state (array_desc st)) CS_FLAG_STATE_OWNER
     then match array st with Some b => [b] | None => [] end
     else [])) sts.

(** A term borrows its array. *)
Definition borrowed `{Env} (st : cs_source_term_t) : Prop :=
  flag_on (state (array_desc st)) CS_FLAG_STATE_OWNER = false.

(** The buffer of values that an evaluator leaves. *)
Definition out_values (o : outcome (cs_cell_builder_t * list float))
    : outcome (list float) :=
  r ← o; Done r.2.

(** A value is a NaN. *)
Definition is_nan (x : float) : bool := negb (PrimFloat.eqb x x).


(* ================================================================== *)
(** ** An environment and cells for the examples *)

Module Example.

Local Open Scope float_scope.

Definition sub3 (a b : cs_real_3_t) : cs_real_3_t :=
  v3_of (fun k => v3 a k - v3 b k).

Definition det3 (a b c : cs_real_3_t) : float :=
  let '(a0, a1, a2) := a in
  let '(b0, b1, b2) := b in
  let '(c0, c1, c2) := c in
  a0 * (b1 * c2 - b2 * c1) - a1 * (b0 * c2 - b2 * c0) + a2 * (b0 * c1 - b1 * c0).

(** Modelled from the spec: [cs_math_voltet] (of cs_math.c) is not in the
    sources at hand; the volume of the tetrahedron of four points, used as
    the sub-tetrahedron volume of the evaluators. *)
Definition voltet (a b c d : cs_real_3_t) : float :=
  abs (det3 (sub3 b a) (sub3 c a) (sub3 d a)) / 6.

(** Modelled from the spec: [cs_quadrature_tet_5pts] (of cs_quadrature.c)
    is not in the sources at hand; the standard five-point rule of degree
    3 on a tetrahedron: the barycenter with weight -4/5 of the volume and
    four points of barycentric coordinates (1/2, 1/6, 1/6, 1/6) with
    weight 9/20 of the volume each. *)
Definition tet_5pts (a b c d : cs_real_3_t) (vol : float)
    : list cs_real_3_t * list float :=
  let comb (wa wb wc wd : float) :=
    v3_of (fun k => wa * v3 a k + wb * v3 b k + wc * v3 c k + wd * v3 d k) in
  let s := 1 / 6 in
  ([ comb 0.25 0.25 0.25 0.25; comb 0.5 s s s; comb s 0.5 s s;
     comb s s 0.5 s; comb s s s 0.5 ],
   [ (- 0.8) * vol; 0.45 * vol; 0.45 * vol; 0.45 * vol; 0.45 * vol ]).

(** Modelled from the spec: [cs_locmat_matvec] (of cs_cdo_toolbox.c) is
    not in the sources at hand; the product of the dense matrix, stored
    by rows, and the vector. *)
Definition matvec (m : cs_locmat_t) (vec : list float) : list float :=
  let n := Z.to_nat (n_ent m) in
  map (fun i =>
         foldl (fun acc j => acc + nth (i * n + j) (val m) 0 * nth j vec 0)
               0 (seq 0 n))
      (seq 0 n).

(** Three cells; location 0 is the whole mesh, location 1 the cells 0 and
    2, location 2 lists the cells 1 and 3.  The constants of the headers
    have values of the right shape (one bit per flag, a mask of 8 bits
    for at most 8 terms). *)
Definition env : Env := {|
  NDEBUG := false;
  CS_N_MAX_SOURCE_TERMS := 8;
  cs_mask_bits := 8;
  CS_FLAG_FULL_LOC := 32;
  CS_FLAG_PRIMAL := 512;
  CS_FLAG_DUAL := 1024;
  CS_FLAG_SYS_HLOC_CONF := 2;
  CS_FLAG_SYS_SOURCES_HLOC := 4;
  CS_FLAG_SYS_SOURCETERM := 8;
  CS_FLAG_STATE_OWNER := 128;
  cs_cdo_quant := {| n_cells := 3 |};
  cs_time_step := {| t_cur := 0 |};
  cs_mesh_location_get_n_elts := fun ml => if (ml =? 0)%Z then 3%Z else 2%Z;
  cs_mesh_location_get_elt_list := fun ml =>
    if (ml =? 1)%Z then Some [0%Z; 2%Z]
    else if (ml =? 2)%Z then Some [1%Z; 3%Z]
    else None;
  cs_math_voltet := voltet;
  cs_quadrature_tet_5pts := tet_5pts;
  cs_locmat_matvec := matvec
|}.

(** A term. *)
Definition term (ml : Z) (fl : Z) (dt : cs_param_def_type_t) (d : cs_def_t)
    (q : cs_quadra_type_t) : cs_source_term_t :=
  {| name := None; ml_id := ml; flag := fl; def_type := dt; def := d;
     quad_type := q; array_desc := {| location := 0; state := 0 |};
     array := None |}.

(** A density of constant value [c] on the whole mesh. *)
Definition density_const (c : float) : cs_source_term_t :=
  term 0 (1024 + 32) CS_PARAM_DEF_BY_VALUE (def_get c) CS_QUADRATURE_BARY.

(** The density [f(t, x, y, z) = x] on the whole mesh. *)
Definition density_x (q : cs_quadra_type_t) : cs_source_term_t :=
  term 0 (1024 + 32) CS_PARAM_DEF_BY_ANALYTIC_FUNCTION
       (def_analytic (fun _ x => v3 x 0)) q.

(** The density [f(t, x, y, z) = 1], as an analytic function, on the
    whole mesh. *)
Definition density_one : cs_source_term_t :=
  term 0 (1024 + 32) CS_PARAM_DEF_BY_ANALYTIC_FUNCTION
       (def_analytic (fun _ _ => 1)) CS_QUADRATURE_BARY.

(** A density of value 1 on the cells of location [ml]. *)
Definition density_on (ml : Z) : cs_source_term_t :=
  term ml 1024 CS_PARAM_DEF_BY_VALUE (def_get 1) CS_QUADRATURE_BARY.

(** A potential of value 1 on the whole mesh. *)
Definition potential_one : cs_source_term_t :=
  term 0 (512 + 32) CS_PARAM_DEF_BY_VALUE (def_get 1) CS_QUADRATURE_BARY.

(** A density given by an array, on the whole mesh. *)
Definition density_array : cs_source_term_t :=
  term 0 (1024 + 32) CS_PARAM_DEF_BY_ARRAY (def_get 0) CS_QUADRATURE_BARY.

(** The connectivity of a tetrahedron: edges 01 02 03 12 13 23 and faces
    012 013 023 123. *)
Definition tetra (c : Z) (center_c : cs_real_3_t) (vol : float)
    (p0 p1 p2 p3 : cs_real_3_t) : cs_cell_mesh_t :=
  let mid (a b : cs_real_3_t) := v3_of (fun k => 0.5 * (v3 a k + v3 b k)) in
  let tri (a b d : cs_real_3_t) := v3_of (fun k => (v3 a k + v3 b k + v3 d k) / 3) in
  let flat (p : cs_real_3_t) := [v3 p 0; v3 p 1; v3 p 2] in
  {| c_id := c; xc := center_c; vol_c := vol; n_vc := 4;
     xv := flat p0 ++ flat p1 ++ flat p2 ++ flat p3;
     wvc := [0.25; 0.25; 0.25; 0.25];
     n_ec := 6;
     edge := map (fun c => {| center := c |})
               [mid p0 p1; mid p0 p2; mid p0 p3; mid p1 p2; mid p1 p3; mid p2 p3];
     e2v_ids := [0; 1; 0; 2; 0; 3; 1; 2; 1; 3; 2; 3]%Z;
     n_fc := 4;
     face := map (fun c => {| center := c |})
               [tri p0 p1 p2; tri p0 p1 p3; tri p0 p2 p3; tri p1 p2 p3];
     f2e_idx := [0; 3; 6; 9; 12]%Z;
     f2e_ids := [0; 1; 3; 0; 2; 4; 1; 2; 5; 3; 4; 5]%Z |}.

(** The tetrahedron of vertices 0, (2,0,0), (0,1,0) and (0,0,6), of volume
    2: cell 1 of the mesh. *)
Definition cell : cs_cell_mesh_t :=
  tetra 1 (0.5, 0.25, 1.5) 2 (0, 0, 0) (2, 0, 0) (0, 1, 0) (0, 0, 6).


(** A builder with scratch arrays of 24 values and 12 vectors and the
    identity as Hodge operator. *)
Definition builder : cs_cell_builder_t :=
  {| cb_values := replicate 24 0;
     cb_vectors := replicate 12 (0, 0, 0);
     cb_hdg := Some {| n_ent := 4;
                       val := [1; 0; 0; 0;  0; 1; 0; 0;  0; 0; 1; 0;  0; 0; 0; 1] |} |}.

(** A table of eight handles, as the callers of [cs_source_term_init]
    declare it. *)
Definition no_handles : list (option cs_source_term_cellwise_t) :=
  replicate 8 None.

(** Registries: a term on the cells 0 and 2 and a term on the whole mesh;
    two terms on the whole mesh; a term given by an array, for which no
    evaluator exists; a term on the location that lists cell 3, which the
    mesh of three cells does not have. *)
Definition registry : list cs_source_term_t :=
  [density_on 1; density_const 1].

Definition registry_full : list cs_source_term_t :=
  [density_const 1; density_x CS_QUADRATURE_BARY].

Definition registry_array : list cs_source_term_t :=
  [density_const 1; density_array].


(** A cellwise system of four degrees of freedom, with values left by a
    previous cell. *)
Definition csys : cs_cell_sys_t :=
  {| n_dofs := 4; source := [9; 9; 9; 9] |}.

(** A registry of two terms in block 1 of the heap: the first one has its
    name in block 2 and owns its array, block 3; the second one has its
    name in block 4 and borrows its array, block 5. *)
Definition owned_and_borrowed : list cs_source_term_t :=
  [ {| name := Some 2%positive; ml_id := 0; flag := 1024 + 32;
       def_type := CS_PARAM_DEF_BY_ARRAY; def := def_get 0;
       quad_type := CS_QUADRATURE_BARY;
       array_desc := {| location := 0; state := 128 |};
       array := Some 3%positive |};
    {| name := Some 4%positive; ml_id := 0; flag := 1024 + 32;
       def_type := CS_PARAM_DEF_BY_ARRAY; def := def_get 0;
       quad_type := CS_QUADRATURE_BARY;
       array_desc := {| location := 0; state := 0 |};
       array := Some 5%positive |} ].

Definition heap : gset block :=
  {[ 1%positive; 2%positive; 3%positive; 4%positive; 5%positive ]}.

End Example.

(* ================================================================== *)
(** ** Definition of the source terms *)

(** The messages that the functions defining a source term pass to
    [bft_error]: one of the above, or one of their own. *)
Inductive setup_message : Type :=
  | setup_bft (m : bft_message)
  | err_invalid_type        (* " Invalid type of source term." *)
  | err_not_handled.        (* " Stop modifying the source term flag.\n This case is not handled." *)

(** What a call of these functions does, as for [outcome]. *)
Inductive setup (A : Type) : Type :=
  | Ret (a : A)
  | Stop (m : setup_message)
  | Abort
  | Undef.

Arguments Ret {A} a.
Arguments Stop {A} m.
Arguments Abort {A}.
Arguments Undef {A}.

#[global] Instance setup_ret : MRet setup := fun A a => Ret a.

#[global] Instance setup_bind : MBind setup := fun A B f o =>
  match o with
  | Ret a => f a
  | Stop m => Stop m
  | Abort => Abort
  | Undef => Undef
  end.

(** A call of a function of the first part. *)
Definition lift {A : Type} (o : outcome A) : setup A :=
  match o with
  | Done a => Ret a
  | Fatal m => Stop (setup_bft m)
  | Aborted => Abort
  | Undefined => Undef
  end.

(** [cs_param_var_type_t]: the types this file names, and the other
    members of the enumeration. *)
Inductive cs_param_var_type_t : Type :=
  | CS_PARAM_VAR_SCAL
  | CS_PARAM_VAR_VECT
  | CS_PARAM_VAR_TENS
  | CS_PARAM_VAR_OTHER (code : Z).

(** The heap: the blocks that are allocated, and the text of those that
    hold a string.  A C string is the string of its characters before the
    final NUL. *)
Record cs_heap : Type := {
  live : gset block;
  chars : gmap block string
}.

(** What the functions defining a source term take from elsewhere:
    flags of [cs_flag_t], the type of a mesh location, and the member
    [val] of the [cs_get_t] that [cs_param_set_get] fills from the text
    of a value. *)
Class SetupEnv `{Env} : Type := {
  CS_FLAG_BORDER : Z;
  CS_FLAG_SCALAR : Z;
  CS_FLAG_VECTOR : Z;
  CS_FLAG_TENSOR : Z;
  CS_FLAG_BY_CELL : Z;
  CS_FLAG_VERTEX : Z;
  CS_FLAG_CELL : Z;
  CS_MESH_LOCATION_CELLS : Z;
  cs_mesh_location_get_type : Z -> Z;
  cs_param_set_get : cs_param_var_type_t -> option string -> float
}.

Definition INT_MAX : Z := 2147483647.

(** A [size_t] length stored in an [int]. *)
Definition int_of_size (z : Z) : outcome Z :=
  if z <=? INT_MAX then Done z else Undefined.

(** [n] spaces. *)
Fixpoint spaces (n : nat) : string :=
  match n with
  | O => EmptyString
  | S n => String " "%char (spaces n)
  end.

(** The conversion ["%2d"] of [sprintf]: the decimal digits of [id], with
    its sign when negative, after the spaces that bring them to two
    characters. *)
Definition format_2d (id : Z) : string :=
  let digits := NilZero.string_of_int (Z.to_int id) in
  spaces (2 - String.length digits) +:+ digits.

(** [BFT_MALLOC]: a block that was not allocated. *)
Definition BFT_MALLOC (m : cs_heap) : block := fresh (live m).

(** Allocate and initialize a name (copy or generic name); the result is
    the new string and the heap. *)
Definition _get_name `{Env} (name : option string) (base_name : string)
    (id : Z) (m : cs_heap) : outcome (block * cs_heap) :=
  match name with
  | None => (* Define a name by default *)
    _ ← assert_ (id <? 100);
    len ← int_of_size (Z.of_nat (String.length base_name) + 4);
    let n := BFT_MALLOC m in
    let text := base_name +:+ "_" +:+ format_2d id in
    (* sprintf stores the text and a final NUL in the len characters *)
    if len <? Z.of_nat (String.length text) + 1 then Undefined
    else Done (n, {| live := {[n]} ∪ live m; chars := <[n := text]> (chars m) |})
  | Some name => (* Copy name *)
    len ← int_of_size (Z.of_nat (String.length name) + 1);
    let n := BFT_MALLOC m in
    Done (n, {| live := {[n]} ∪ live m; chars := <[n := name]> (chars m) |})
  end.

(** The base of the names by default. *)
Definition sourceterm : string := "sourceterm".

(** The [switch] on the type of variable that ends the three functions
    below: the flag with the bit of the type. *)
Definition var_type_flag `{SetupEnv} (var_type : cs_param_var_type_t) (fl : Z)
    : setup Z :=
  match var_type with
  | CS_PARAM_VAR_SCAL => Ret (Z.lor fl CS_FLAG_SCALAR)
  | CS_PARAM_VAR_VECT => Ret (Z.lor fl CS_FLAG_VECTOR)
  | CS_PARAM_VAR_TENS => Ret (Z.lor fl CS_FLAG_TENSOR)
  | CS_PARAM_VAR_OTHER _ => Stop err_invalid_type
  end.

(** The flag given, with [CS_FLAG_FULL_LOC] when the mesh location has no
    list of elements. *)
Definition location_flag `{Env} (ml : Z) (fl : Z) : Z :=
  if is_some (cs_mesh_location_get_elt_list ml) then fl
  else Z.lor fl CS_FLAG_FULL_LOC.

(** Generic way to define a [cs_source_term_t] structure by value; [st]
    is the structure to set, NULL or not, and the result is the structure
    and the heap. *)
Definition cs_source_term_def_by_value `{SetupEnv}
    (st : option cs_source_term_t) (st_id : Z) (name : option string)
    (var_type : cs_param_var_type_t) (ml_id : Z) (flag : Z)
    (val : option string) (m : cs_heap)
    : setup (cs_source_term_t * cs_heap) :=
  match st with
  | None => Stop (setup_bft err_empty_st)
  | Some _ =>
    _ ← lift (assert_ (negb (ml_id =? -1)));
    _ ← lift (assert_ (cs_mesh_location_get_type ml_id =? CS_MESH_LOCATION_CELLS));
    '(n, m) ← lift (_get_name name sourceterm st_id m);
    fl ← var_type_flag var_type (location_flag ml_id flag);
    Ret ({| name := Some n; ml_id := ml_id; flag := fl;
            def_type := CS_PARAM_DEF_BY_VALUE;
            def := def_get (cs_param_set_get var_type val);
            quad_type := CS_QUADRATURE_BARY;
            array_desc := {| location := 0; state := 0 |};
            array := None |}, m)
  end.

(** Define a [cs_source_term_t] structure thanks to an analytic function. *)
Definition cs_source_term_def_by_analytic `{SetupEnv}
    (st : option cs_source_term_t) (st_id : Z) (name : option string)
    (var_type : cs_param_var_type_t) (ml_id : Z) (flag : Z)
    (func : cs_analytic_func_t) (m : cs_heap)
    : setup (cs_source_term_t * cs_heap) :=
  match st with
  | None => Stop (setup_bft err_empty_st)
  | Some _ =>
    _ ← lift (assert_ (negb (ml_id =? -1)));
    _ ← lift (assert_ (cs_mesh_location_get_type ml_id =? CS_MESH_LOCATION_CELLS));
    '(n, m) ← lift (_get_name name sourceterm st_id m);
    fl ← var_type_flag var_type (location_flag ml_id flag);
    Ret ({| name := Some n; ml_id := ml_id; flag := fl;
            def_type := CS_PARAM_DEF_BY_ANALYTIC_FUNCTION;
            def := def_analytic func;
            quad_type := CS_QUADRATURE_BARY;
            array_desc := {| location := 0; state := 0 |};
            array := None |}, m)
  end.

(** Define a [cs_source_term_t] structure thanks to an array of values. *)
Definition cs_source_term_def_by_array `{SetupEnv}
    (st : option cs_source_term_t) (st_id : Z) (name : option string)
    (var_type : cs_param_var_type_t) (ml_id : Z) (flag : Z)
    (desc : cs_desc_t) (array : option block) (m : cs_heap)
    : setup (cs_source_term_t * cs_heap) :=
  match st with
  | None => Stop (setup_bft err_empty_st)
  | Some _ =>
    _ ← lift (assert_ (negb (ml_id =? -1)));
    _ ← lift (assert_ (cs_mesh_location_get_type ml_id =? CS_MESH_LOCATION_CELLS));
    '(n, m) ← lift (_get_name name sourceterm st_id m);
    fl ← var_type_flag var_type (location_flag ml_id flag);
    Ret ({| name := Some n; ml_id := ml_id; flag := fl;
            def_type := CS_PARAM_DEF_BY_ARRAY;
            def := def_get 0;
            quad_type := CS_QUADRATURE_BARY;
            array_desc := {| location := location desc; state := state desc |};
            array := array |}, m)
  end.

(** The structure with another quadrature, and with another flag. *)
Definition with_quad_type (st : cs_source_term_t) (q : cs_quadra_type_t)
    : cs_source_term_t :=
  {| name := name st; ml_id := ml_id st; flag := flag st;
     def_type := def_type st; def := def st; quad_type := q;
     array_desc := array_desc st; array := array st |}.

Definition with_flag (st : cs_source_term_t) (fl : Z) : cs_source_term_t :=
  {| name := name st; ml_id := ml_id st; flag := fl;
     def_type := def_type st; def := def st; quad_type := quad_type st;
     array_desc := array_desc st; array := array st |}.

(** Set the type of quadrature of a source term. *)
Definition cs_source_term_set_quadrature (st : option cs_source_term_t)
    (quad_type : cs_quadra_type_t) : setup cs_source_term_t :=
  match st with
  | None => Stop (setup_bft err_empty_st)
  | Some st => Ret (with_quad_type st quad_type)
  end.

(** The default flag of a source term for a numerical scheme.  The type
    of the schemes has the four members that the [switch] handles; its
    [default], an error, is for a value outside of them. *)
Definition cs_source_term_set_default_flag `{SetupEnv}
    (scheme : cs_space_scheme_t) : setup Z :=
  match scheme with
  | CS_SPACE_SCHEME_CDOVB => Ret (Z.lor CS_FLAG_DUAL CS_FLAG_CELL)
  | CS_SPACE_SCHEME_CDOFB => Ret (Z.lor CS_FLAG_PRIMAL CS_FLAG_CELL)
  | CS_SPACE_SCHEME_CDOVCB | CS_SPACE_SCHEME_HHO => Ret CS_FLAG_PRIMAL
  end.

(** The parts of a flag that a change of reduction keeps. *)
Definition unchanged_parts `{SetupEnv} (save_flag : Z) : Z :=
  let fl := 0 in
  let fl := if flag_on save_flag CS_FLAG_SCALAR then Z.lor fl CS_FLAG_SCALAR else fl in
  let fl := if flag_on save_flag CS_FLAG_VECTOR then Z.lor fl CS_FLAG_VECTOR else fl in
  let fl := if flag_on save_flag CS_FLAG_TENSOR then Z.lor fl CS_FLAG_TENSOR else fl in
  let fl := if flag_on save_flag CS_FLAG_BORDER then Z.lor fl CS_FLAG_BORDER else fl in
  let fl := if flag_on save_flag CS_FLAG_BY_CELL then Z.lor fl CS_FLAG_BY_CELL else fl in
  let fl := if flag_on save_flag CS_FLAG_FULL_LOC then Z.lor fl CS_FLAG_FULL_LOC else fl in
  fl.

(** Set the reduction of a source term: [flag'], the argument [flag] of
    the source, is [CS_FLAG_DUAL] or [CS_FLAG_PRIMAL]. *)
Definition cs_source_term_set_reduction `{SetupEnv}
    (st : option cs_source_term_t) (flag' : Z) : setup cs_source_term_t :=
  match st with
  | None => Stop (setup_bft err_empty_st)
  | Some st =>
    if flag_on (flag st) flag' then Ret st (* Nothing to do *)
    else
      let save_flag := flag st in
      (* Set unchanged parts of the existing flag *)
      let fl := unchanged_parts save_flag in
      if flag_on flag' CS_FLAG_DUAL then
        _ ← lift (assert_ (flag_on save_flag CS_FLAG_PRIMAL));
        if flag_on save_flag CS_FLAG_VERTEX
        then Ret (with_flag st (Z.lor fl (Z.lor CS_FLAG_DUAL CS_FLAG_CELL)))
        else Stop err_not_handled
      else if flag_on flag' CS_FLAG_PRIMAL then
        _ ← lift (assert_ (flag_on save_flag CS_FLAG_DUAL));
        if flag_on save_flag CS_FLAG_CELL
        then Ret (with_flag st (Z.lor fl (Z.lor CS_FLAG_PRIMAL CS_FLAG_VERTEX)))
        else Stop err_not_handled
      else Stop err_not_handled
  end.

(** Get metadata related to the given source term structure. *)
Definition cs_source_term_get_flag (st : option cs_source_term_t) : setup Z :=
  match st with
  | None => Stop (setup_bft err_empty_st)
  | Some st => Ret (flag st)
  end.

(** Get the name related to a [cs_source_term_t] structure. *)
Definition cs_source_term_get_name (st : option cs_source_term_t)
    : option block :=
  match st with
  | None => None
  | Some st => name st
  end.

(** The three ways to define a source term, with what each one takes
    besides the common arguments. *)
Inductive definition : Type :=
  | by_value (val : option string)
  | by_analytic (func : cs_analytic_func_t)
  | by_array (desc : cs_desc_t) (array : option block).

(** A call of the function of a definition. *)
Definition define `{SetupEnv} (how : definition)
    (st : option cs_source_term_t) (st_id : Z) (name : option string)
    (var_type : cs_param_var_type_t) (ml_id : Z) (flag : Z) (m : cs_heap)
    : setup (cs_source_term_t * cs_heap) :=
  match how with
  | by_value val =>
      cs_source_term_def_by_value st st_id name var_type ml_id flag val m
  | by_analytic func =>
      cs_source_term_def_by_analytic st st_id name var_type ml_id flag func m
  | by_array desc array =>
      cs_source_term_def_by_array st st_id name var_type ml_id flag desc array m
  end.

(** The text of the name of a term: the one given, or the one by
    default. *)
Definition name_text (name : option string) (st_id : Z) : string :=
  match name with
  | Some text => text
  | None => sourceterm +:+ "_" +:+ format_2d st_id
  end.

(** The array that a definition hands over to the term. *)
Definition owned_array `{Env} (how : definition) : gset block :=
  match how with
  | by_array desc (Some a) =>
      if flag_on (state desc) CS_FLAG_STATE_OWNER then {[a]} else ∅
  | _ => ∅
  end.

(** The flags of [cs_flag_t] that the source terms use. *)
Definition flag_bits `{SetupEnv} : list Z :=
  [ CS_FLAG_BORDER; CS_FLAG_SCALAR; CS_FLAG_VECTOR; CS_FLAG_TENSOR;
    CS_FLAG_BY_CELL; CS_FLAG_FULL_LOC; CS_FLAG_PRIMAL; CS_FLAG_DUAL;
    CS_FLAG_VERTEX; CS_FLAG_CELL ].

(** These flags are masks of bits, none empty, no two with a bit in
    common. *)
Definition flags_distinct `{SetupEnv} : Prop :=
  Forall (fun a => a <> 0) flag_bits /\
  forall (i j : nat) (a b : Z),
    flag_bits !! i = Some a -> flag_bits !! j = Some b -> i <> j ->
    Z.land a b = 0.

(** The two reductions, [CS_FLAG_DUAL] and [CS_FLAG_PRIMAL], and the
    location that [cs_source_term_set_reduction] gives to each: the cells
    for the dual one, the vertices for the primal one. *)
Definition reduction_flag `{Env} (dual : bool) : Z :=
  if dual then CS_FLAG_DUAL else CS_FLAG_PRIMAL.

Definition reduction_location `{SetupEnv} (dual : bool) : Z :=
  if dual then CS_FLAG_CELL else CS_FLAG_VERTEX.

(* ================================================================== *)
(** ** Wall temperature with flux balance *)

(** What [cs_rad_transfer_wall_flux] takes from elsewhere: two constants
    and two powers of [cs_math.h], three macros of [cs_defs.h], the
    boundary faces of the mesh, the classes of the boundary zones, and
    the codes of the five kinds of wall of the radiative transfer. *)
Class RadEnv : Type := {
  cs_math_big_r : float;
  cs_math_epzero : float;
  cs_math_pow3 : float -> float;
  cs_math_pow4 : float -> float;
  CS_ABS : float -> float;
  CS_MAX : float -> float -> float;
  CS_MIN : float -> float -> float;
  (* cs_glob_mesh->n_b_faces, cs_glob_mesh->b_face_cells *)
  n_b_faces : Z;
  b_face_cells : list Z;
  cs_boundary_zone_max_class_or_zone_id : Z;
  (* the array that cs_boundary_zone_face_class_or_zone_id returns *)
  b_face_class_id : list Z;
  (* cs_glob_rad_transfer_params *)
  itpimp : Z;
  ipgrno : Z;
  iprefl : Z;
  ifgrno : Z;
  ifrefl : Z
}.

Definition INT_MIN : Z := -2147483648.

(** The value of an arithmetic expression of type [int]; [cs_lnum_t] is
    [int]. *)
Definition int_value (z : Z) : outcome Z :=
  if (INT_MIN <=? z) && (z <=? INT_MAX) then Done z else Undefined.

(** [n++] for a counter of the unsigned type [cs_gnum_t], of 64 bits. *)
Definition gnum_incr (n : Z) : Z := (n + 1) mod 2 ^ 64.

(** The counters of the log on the variation of the wall temperature. *)
Record wall_counts : Type := {
  n1min : Z;
  n1max : Z;
  nrelax : Z;
  nmoins : Z;
  nplus : Z;
  rapmax : float
}.

(** The marks of the kinds of wall met. *)
Record wall_marks : Type := {
  iitpim : Z;
  iipgrn : Z;
  iipref : Z;
  iifgrn : Z;
  iifref : Z
}.

(** The extreme wall temperatures, with the face and the fluxes of
    each. *)
Record wall_extrema : Type := {
  tpmax : float;
  ifacmx : Z;
  qcmax : float;
  qrmax : float;
  tpmin : float;
  ifacmn : Z;
  qcmin : float;
  qrmin : float
}.

(** The wall temperature, and the local variables of the function that
    its loop on the boundary faces updates. *)
Record wall_state : Type := {
  tparop : list float;
  counts : wall_counts;
  marks : wall_marks;
  extrema : wall_extrema;
  indtp : list Z;
  tzomax : list float;
  tzomin : list float
}.

Local Open Scope float_scope.

Definition stephn : float := 5.6703e-8.

(** The clipping that ends four of the branches: the temperature of the
    face and the counters after it. *)
Definition clipping (tmin tmax : float) (t : float) (c : wall_counts)
    : float * wall_counts :=
  let '(t, n1min) :=
    if t <? tmin then (tmin, gnum_incr (n1min c)) else (t, n1min c) in
  let '(t, n1max) :=
    if tmax <? t then (tmax, gnum_incr (n1max c)) else (t, n1max c) in
  (t, {| n1min := n1min; n1max := n1max; nrelax := nrelax c;
         nmoins := nmoins c; nplus := nplus c; rapmax := rapmax c |}).

(** The relaxation and the counters of the variation, then the clipping:
    the end of the three branches that compute a variation [detep] of
    the temperature [t] of the face. *)
Definition relaxation `{RadEnv} (tx tmin tmax : float) (t detep : float)
    (c : wall_counts) : float * wall_counts :=
  let rapp := detep / t in
  let abrapp := CS_ABS rapp in
  let '(t, nrelax) :=
    if tx <=? abrapp
    then (t * (1 + tx * rapp / abrapp), gnum_incr (nrelax c))
    else (t + detep, nrelax c) in
  let rapmax := CS_MAX (rapmax c) abrapp in
  let '(nmoins, nplus) :=
    if rapp <=? 0
    then (gnum_incr (nmoins c), nplus c)
    else (nmoins c, gnum_incr (nplus c)) in
  clipping tmin tmax t
    {| n1min := n1min c; n1max := n1max c; nrelax := nrelax;
       nmoins := nmoins; nplus := nplus; rapmax := rapmax |}.

(** The face is a wall of one of the five kinds. *)
Definition is_wall `{RadEnv} (iso : Z) : bool :=
  (iso =? itpimp)%Z || (iso =? ipgrno)%Z || (iso =? iprefl)%Z
  || (iso =? ifgrno)%Z || (iso =? ifrefl)%Z.

Section wall_flux.

Context `{RadEnv}.

(** The arguments of the function: [tmin], [tmax] and [tx] point to one
    value each. *)
Variables (nvar ivart : Z) (isothp : list Z) (tmin tmax tx : float)
  (rcodcl qincip textp tintp xlamp epap epsp hfconp flconp tempkp : list float).

(** The branch of the kind of wall of a face: the state after it, with
    [qconv] and [qrayt]. *)
Definition wall_branch (ircodcl : Z) (ifac log_z_id iso : Z) (s : wall_state)
    : outcome (wall_state * float * float) :=
  let m := marks s in
  (* Isotherms *)
  if (iso =? itpimp)%Z then
    indtp ← wr (indtp s) log_z_id itpimp;
    ti ← rd tintp ifac;
    tparop ← wr (tparop s) ifac ti;
    qconv ← rd flconp ifac;
    qinci ← rd qincip ifac;
    t ← rd tparop ifac;
    let sigt4 := stephn * cs_math_pow4 t in
    epp ← rd epsp ifac;
    let qrayt := epp * (qinci - sigt4) in
    Done ({| tparop := tparop; counts := counts s;
             marks := {| iitpim := 1; iipgrn := iipgrn m; iipref := iipref m;
                         iifgrn := iifgrn m; iifref := iifref m |};
             extrema := extrema s; indtp := indtp;
             tzomax := tzomax s; tzomin := tzomin s |}, qconv, qrayt)
  (* Grey or black boundaries (non reflecting) *)
  else if (iso =? ipgrno)%Z then
    indtp ← wr (indtp s) log_z_id ipgrno;
    ep ← rd epap ifac;
    xl ← rd xlamp ifac;
    let esl := ep / xl in
    qconv ← rd flconp ifac;
    qinci ← rd qincip ifac;
    epp ← rd epsp ifac;
    t ← rd (tparop s) ifac;
    let sigt3 := stephn * cs_math_pow3 t in
    let qrayt := epp * (qinci - sigt3 * t) in
    te ← rd textp ifac;
    hf ← rd hfconp ifac;
    let detep := (esl * (qconv + qrayt) - (t - te))
                 / (1 + 4 * esl * epp * sigt3 + esl * hf) in
    let '(t, c) := relaxation tx tmin tmax t detep (counts s) in
    tparop ← wr (tparop s) ifac t;
    Done ({| tparop := tparop; counts := c;
             marks := {| iitpim := iitpim m; iipgrn := 1; iipref := iipref m;
                         iifgrn := iifgrn m; iifref := iifref m |};
             extrema := extrema s; indtp := indtp;
             tzomax := tzomax s; tzomin := tzomin s |}, qconv, qrayt)
  (* Reflecting walls *)
  else if (iso =? iprefl)%Z then
    indtp ← wr (indtp s) log_z_id iprefl;
    ep ← rd epap ifac;
    xl ← rd xlamp ifac;
    let esl := ep / xl in
    qconv ← rd flconp ifac;
    t ← rd (tparop s) ifac;
    te ← rd textp ifac;
    hf ← rd hfconp ifac;
    let detep := (esl * qconv - (t - te)) / (1 + esl * hf) in
    let '(t, c) := relaxation tx tmin tmax t detep (counts s) in
    tparop ← wr (tparop s) ifac t;
    Done ({| tparop := tparop; counts := c;
             marks := {| iitpim := iitpim m; iipgrn := iipgrn m; iipref := 1;
                         iifgrn := iifgrn m; iifref := iifref m |};
             extrema := extrema s; indtp := indtp;
             tzomax := tzomax s; tzomin := tzomin s |}, qconv, 0)
  (* Wall with non-reflecting conduction flux *)
  else if (iso =? ifgrno)%Z then
    indtp ← wr (indtp s) log_z_id ifgrno;
    qconv ← rd flconp ifac;
    qinci ← rd qincip ifac;
    epp ← rd epsp ifac;
    t ← rd (tparop s) ifac;
    let sigt3 := stephn * cs_math_pow3 t in
    let qrayt := epp * (qinci - sigt3 * t) in
    k ← int_value (ifac + ircodcl)%Z;
    rc ← rd rcodcl k;
    hf ← rd hfconp ifac;
    let detep := (qconv + qrayt - rc) / (4 * epp * sigt3 + hf) in
    let '(t, c) := relaxation tx tmin tmax t detep (counts s) in
    tparop ← wr (tparop s) ifac t;
    Done ({| tparop := tparop; counts := c;
             marks := {| iitpim := iitpim m; iipgrn := iipgrn m;
                         iipref := iipref m; iifgrn := 1; iifref := iifref m |};
             extrema := extrema s; indtp := indtp;
             tzomax := tzomax s; tzomin := tzomin s |}, qconv, qrayt)
  (* Wall with imposed conduction flux, reflecting *)
  else if (iso =? ifrefl)%Z then
    indtp ← wr (indtp s) log_z_id ifrefl;
    iel ← rd b_face_cells ifac;
    hf ← rd hfconp ifac;
    tk ← rd tempkp iel;
    k ← int_value (ifac + ircodcl)%Z;
    rc ← rd rcodcl k;
    tparop ← wr (tparop s) ifac (hf * tk - rc);
    t ← rd tparop ifac;
    hf ← rd hfconp ifac;
    let t := t / CS_MAX hf cs_math_epzero in
    qconv ← rd flconp ifac;
    let '(t, c) := clipping tmin tmax t (counts s) in
    tparop ← wr tparop ifac t;
    Done ({| tparop := tparop; counts := c;
             marks := {| iitpim := iitpim m; iipgrn := iipgrn m;
                         iipref := iipref m; iifgrn := iifgrn m; iifref := 1 |};
             extrema := extrema s; indtp := indtp;
             tzomax := tzomax s; tzomin := tzomin s |}, qconv, 0)
  else Done (s, 0, 0).

(** The extreme temperatures after a wall face. *)
Definition max_min (ifac log_z_id : Z) (qconv qrayt : float) (s : wall_state)
    : outcome wall_state :=
  t ← rd (tparop s) ifac;
  let e := extrema s in
  let e :=
    if tpmax e <=? t
    then {| tpmax := t; ifacmx := ifac; qcmax := qconv; qrmax := qrayt;
            tpmin := tpmin e; ifacmn := ifacmn e; qcmin := qcmin e;
            qrmin := qrmin e |}
    else e in
  let e :=
    if t <=? tpmin e
    then {| tpmax := tpmax e; ifacmx := ifacmx e; qcmax := qcmax e;
            qrmax := qrmax e;
            tpmin := t; ifacmn := ifac; qcmin := qconv; qrmin := qrayt |}
    else e in
  zmax ← rd (tzomax s) log_z_id;
  tzomax ← wr (tzomax s) log_z_id (CS_MAX zmax t);
  zmin ← rd (tzomin s) log_z_id;
  tzomin ← wr (tzomin s) log_z_id (CS_MIN zmin t);
  Done {| tparop := tparop s; counts := counts s; marks := marks s;
          extrema := e; indtp := indtp s; tzomax := tzomax; tzomin := tzomin |}.

(** The body of the loop on the boundary faces. *)
Definition wall_face (ircodcl : Z) (ifac : Z) (s : wall_state)
    : outcome wall_state :=
  log_z_id ← rd b_face_class_id ifac;
  iso ← rd isothp ifac;
  '(s, qconv, qrayt) ← wall_branch ircodcl ifac log_z_id iso s;
  (* Max-Min *)
  if is_wall iso then max_min ifac log_z_id qconv qrayt s else Done s.

(** Wall temperature computation with flux balance: the state when the
    loop on the boundary faces is over.  [tparop] is the argument of the
    function, updated in place.  The log that follows in the function
    reads this state and writes to none of the arguments. *)
Definition cs_rad_transfer_wall_flux (tparop : list float)
    : outcome wall_state :=
  n_zones ← int_value (cs_boundary_zone_max_class_or_zone_id + 1)%Z;
  (* BFT_MALLOC of i_buf and r_buf, which a negative number of zones
     cannot size, then the loop that sets the n_zones entries of indtp,
     tzomax and tzomin *)
  _ ← (if (n_zones <? 0)%Z then Undefined else Done tt);
  let indtp := replicate (Z.to_nat n_zones) 0%Z in
  let tzomax := replicate (Z.to_nat n_zones) (- cs_math_big_r) in
  let tzomin := replicate (Z.to_nat n_zones) cs_math_big_r in
  a ← int_value (ivart * n_b_faces)%Z;
  b ← int_value (2 * n_b_faces)%Z;
  b ← int_value (b * nvar)%Z;
  ircodcl ← int_value (a + b)%Z;
  for_range 0 n_b_faces (wall_face ircodcl)
    {| tparop := tparop;
       counts := {| n1min := 0; n1max := 0; nrelax := 0; nmoins := 0;
                    nplus := 0; rapmax := 0 |};
       marks := {| iitpim := 0; iipgrn := 0; iipref := 0; iifgrn := 0;
                   iifref := 0 |};
       extrema := {| tpmax := - cs_math_big_r; ifacmx := 0;
                     qcmax := - cs_math_big_r; qrmax := - cs_math_big_r;
                     tpmin := cs_math_big_r; ifacmn := 0;
                     qcmin := cs_math_big_r; qrmin := cs_math_big_r |};
       indtp := indtp; tzomax := tzomax; tzomin := tzomin |}.

End wall_flux.

Local Close Scope float_scope.

(** The walls whose temperature is clipped: the four kinds that are not
    isothermal; and among them the walls whose temperature moves by a
    variation that is relaxed: the grey or black ones, the reflecting
    ones and the ones with a non-reflecting conduction flux. *)
Definition clipped_wall `{RadEnv} (iso : Z) : bool :=
  negb (iso =? itpimp) && is_wall iso.

Definition relaxed_wall `{RadEnv} (iso : Z) : bool :=
  negb (iso =? itpimp)
  && ((iso =? ipgrno) || (iso =? iprefl) || (iso =? ifgrno)).

(** The number of the faces below [k], and of the boundary faces, whose
    kind satisfies [p]. *)
Definition count_below (p : Z -> bool) (k : Z) (isothp : list Z) : Z :=
  Z.of_nat (length (filter (fun iso => p iso = true)
                      (take (Z.to_nat k) isothp))).

Definition count_faces `{RadEnv} (p : Z -> bool) (isothp : list Z) : Z :=
  count_below p n_b_faces isothp.

(** The counters after a face, from the counters before it: a face whose
    temperature is relaxed is counted once, as decreasing or as
    increasing, and may be counted as relaxed; a face whose temperature
    is clipped may be counted as clipped to the minimum and to the
    maximum; no other face is counted. *)
Definition counts_step (clipped relaxed : bool) (c c' : wall_counts) : Prop :=
  (if relaxed
   then (nmoins c' = gnum_incr (nmoins c) /\ nplus c' = nplus c) \/
        (nmoins c' = nmoins c /\ nplus c' = gnum_incr (nplus c))
   else nmoins c' = nmoins c /\ nplus c' = nplus c) /\
  (nrelax c' = nrelax c \/
   (relaxed = true /\ nrelax c' = gnum_incr (nrelax c))) /\
  (n1min c' = n1min c \/
   (clipped = true /\ n1min c' = gnum_incr (n1min c))) /\
  (n1max c' = n1max c \/
   (clipped = true /\ n1max c' = gnum_incr (n1max c))).

(** The wall temperature of the face [j] once the loop has gone through
    it: as it was for a face that is not a wall, the interior
    temperature for an isothermal wall, a temperature that is neither
    below [tmin] nor above [tmax] for the other walls when [tmax] is not
    below [tmin]. *)
Definition face_done `{RadEnv} (isothp : list Z) (tmin tmax : float)
    (tintp tparop0 : list float) (j : nat) (s : wall_state) : Prop :=
  exists iso, isothp !! j = Some iso /\
    (is_wall iso = false -> tparop s !! j = tparop0 !! j) /\
    ((iso =? itpimp) = true ->
     is_Some (tintp !! j) /\ tparop s !! j = tintp !! j) /\
    (clipped_wall iso = true -> PrimFloat.ltb tmax tmin = false ->
     exists t, tparop s !! j = Some t /\
               PrimFloat.ltb t tmin = false /\
               PrimFloat.ltb tmax t = false).

(** The state of the loop after the faces below [k]. *)
Definition wall_inv `{RadEnv} (isothp : list Z) (tmin tmax : float)
    (tintp tparop0 : list float) (k : Z) (s : wall_state) : Prop :=
  length (tparop s) = length tparop0 /\
  (forall j : nat, k <= Z.of_nat j -> tparop s !! j = tparop0 !! j) /\
  (forall j : nat, Z.of_nat j < k ->
     face_done isothp tmin tmax tintp tparop0 j s) /\
  0 <= nmoins (counts s) /\ 0 <= nplus (counts s) /\
  nmoins (counts s) + nplus (counts s) = count_below relaxed_wall k isothp /\
  0 <= nrelax (counts s) <= count_below relaxed_wall k isothp /\
  0 <= n1min (counts s) <= count_below clipped_wall k isothp /\
  0 <= n1max (counts s) <= count_below clipped_wall k isothp.

(** Sizes that [cs_rad_transfer_wall_flux] relies on: the offset of the
    flux of the thermal variable in [rcodcl] fits an [int]; each array
    indexed by a boundary face has [n_b_faces] entries at least, and
    [rcodcl] has them past the offset; the class of each boundary face is
    one of the zones, and its cell has a temperature in [tempkp]. *)
Definition wall_arrays_sized `{RadEnv} (nvar ivart : Z) (isothp : list Z)
    (rcodcl qincip textp tintp xlamp epap epsp hfconp flconp tempkp
       tparop0 : list float) : Prop :=
  let ircodcl := ivart * n_b_faces + 2 * n_b_faces * nvar in
  0 <= n_b_faces /\ 0 <= ivart /\ 0 <= nvar /\
  2 * n_b_faces <= INT_MAX /\ ircodcl + n_b_faces <= INT_MAX /\
  -1 <= cs_boundary_zone_max_class_or_zone_id < INT_MAX /\
  n_b_faces <= Z.of_nat (length isothp) /\
  n_b_faces <= Z.of_nat (length b_face_class_id) /\
  n_b_faces <= Z.of_nat (length b_face_cells) /\
  ircodcl + n_b_faces <= Z.of_nat (length rcodcl) /\
  n_b_faces <= Z.of_nat (length qincip) /\
  n_b_faces <= Z.of_nat (length textp) /\
  n_b_faces <= Z.of_nat (length tintp) /\
  n_b_faces <= Z.of_nat (length xlamp) /\
  n_b_faces <= Z.of_nat (length epap) /\
  n_b_faces <= Z.of_nat (length epsp) /\
  n_b_faces <= Z.of_nat (length hfconp) /\
  n_b_faces <= Z.of_nat (length flconp) /\
  n_b_faces <= Z.of_nat (length tparop0) /\
  (forall (j : nat) (z : Z), Z.of_nat j < n_b_faces ->
     b_face_class_id !! j = Some z ->
     0 <= z <= cs_boundary_zone_max_class_or_zone_id) /\
  (forall (j : nat) (c : Z), Z.of_nat j < n_b_faces ->
     b_face_cells !! j = Some c -> 0 <= c < Z.of_nat (length tempkp)).

(** The three macros of [fvm_defs.h], on values of type [double]. *)
Definition FVM_ABS (a : float) : float :=
  if PrimFloat.ltb a 0 then PrimFloat.opp a else a.

Definition FVM_MIN (a b : float) : float :=
  if PrimFloat.ltb b a then b else a.

Definition FVM_MAX (a b : float) : float :=
  if PrimFloat.ltb a b then b else a.

(* ================================================================== *)
(** ** Set-up and assembly together: notions *)

(** One of the first [n] terms of the registry is a potential. *)
Definition primal_terms `{Env} (n : Z) (sts : list cs_source_term_t) : bool :=
  existsb (fun st => flag_on (flag st) CS_FLAG_PRIMAL) (take (Z.to_nat n) sts).

(** The flag of the system once the terms have been gone through: a
    potential asks for the local Hodge operator. *)
Definition system_flag `{Env} (n : Z) (sts : list cs_source_term_t)
    (sys_flag : Z) : Z :=
  if primal_terms n sts
  then Z.lor sys_flag (Z.lor CS_FLAG_SYS_HLOC_CONF CS_FLAG_SYS_SOURCES_HLOC)
  else sys_flag.

(** The table of handles with its first [n] entries set to NULL. *)
Definition nulled (n : Z) (cs : list (option cs_source_term_cellwise_t))
    : list (option cs_source_term_cellwise_t) :=
  replicate (Z.to_nat n) None ++ drop (Z.to_nat n) cs.

(** The term of id [i] is in the registry and applies to the cell [c]. *)
Definition applies_at `{Env} (sts : list cs_source_term_t) (c i : Z) : bool :=
  match sts !! Z.to_nat i with
  | Some st => term_applies st c
  | None => false
  end.

(** The ids of the terms that apply to the cell [c], in increasing
    order. *)
Definition applying_terms `{Env} (n : Z) (sts : list cs_source_term_t) (c : Z)
    : list Z :=
  filter (fun i => applies_at sts c i = true) (seqZ 0 n).

(** An outcome that is a return or an undefined behaviour: no error
    reported, no assertion failed. *)
Definition done_or_undefined {A : Type} (o : outcome A) : Prop :=
  match o with
  | Done _ | Undefined => True
  | Fatal _ | Aborted => False
  end.

(** The evaluators of a potential. *)
Definition potential_evaluators `{Env} : list cs_source_term_cellwise_t :=
  [ cs_source_term_pvsp_by_value; cs_source_term_pvsp_by_analytic;
    cs_source_term_vcsp_by_value; cs_source_term_vcsp_by_analytic ].

(** The value of a term defined by value. *)
Definition term_value (st : cs_source_term_t) : float :=
  match def st with
  | def_get c => c
  | def_analytic _ => 0%float
  end.

(** The products of the values of the terms by the weight [w], added to
    [x] one after the other, in the order of the terms. *)
Definition add_values (sts : list cs_source_term_t) (w x : float) : float :=
  fold_left (fun acc st => (acc + term_value st * w)%float) sts x.

(** A density defined by value on the whole mesh. *)
Definition constant_density `{Env} (st : cs_source_term_t) : Prop :=
  flag_on (flag st) CS_FLAG_DUAL = true /\
  full_domain st = true /\
  def_type st = CS_PARAM_DEF_BY_VALUE /\
  exists c, def st = def_get c.

(** The blocks of [l] released one after the other. *)
Fixpoint free_all (l : list block) (heap : gset block) : outcome (gset block) :=
  match l with
  | [] => Done heap
  | p :: l => heap ← BFT_FREE (Some p) heap; free_all l heap
  end.

(** Further data for the examples. *)
Module Cases.

(** A potential and a density, both on the whole mesh. *)
Definition registry_mixed : list cs_source_term_t :=
  [Example.potential_one; Example.density_const 1].

(** Two terms that both own the array of block 3. *)
Definition shared_array : list cs_source_term_t :=
  [ {| name := Some 2%positive; ml_id := 0; flag := 1024 + 32;
       def_type := CS_PARAM_DEF_BY_ARRAY; def := def_get 0;
       quad_type := CS_QUADRATURE_BARY;
       array_desc := {| location := 0; state := 128 |};
       array := Some 3%positive |};
    {| name := Some 4%positive; ml_id := 0; flag := 1024 + 32;
       def_type := CS_PARAM_DEF_BY_ARRAY; def := def_get 0;
       quad_type := CS_QUADRATURE_BARY;
       array_desc := {| location := 0; state := 128 |};
       array := Some 3%positive |} ].

(** Flags of one bit each, every mesh location a location of cells, and
    a reader of values that knows two texts. *)
Definition setup_env : @SetupEnv Example.env := {|
  CS_FLAG_BORDER := 1;
  CS_FLAG_SCALAR := 2;
  CS_FLAG_VECTOR := 4;
  CS_FLAG_TENSOR := 8;
  CS_FLAG_BY_CELL := 16;
  CS_FLAG_VERTEX := 2048;
  CS_FLAG_CELL := 16384;
  CS_MESH_LOCATION_CELLS := 1;
  cs_mesh_location_get_type := fun _ => 1;
  cs_param_set_get := fun _ val =>
    match val with
    | Some "1.0"%string => 1%float
    | Some "2.5"%string => 2.5%float
    | _ => 0%float
    end
|}.

(** A heap with the array of terms in block 1 and an array of values in
    block 5. *)
Definition heap0 : cs_heap :=
  {| live := {[ 1%positive; 5%positive ]}; chars := ∅ |}.

(** A structure that was not set. *)
Definition blank : cs_source_term_t :=
  Example.term 0 0 (CS_PARAM_DEF_OTHER 0) (def_get 0) (CS_QUADRATURE_OTHER 0).

(** A scalar density on the cells of the whole mesh, with a bit that is
    not one of the flags of the source terms. *)
Definition density_flagged : cs_source_term_t :=
  Example.term 0 (1024 + 16384 + 2 + 32 + 4096) CS_PARAM_DEF_BY_VALUE
    (def_get 1) CS_QUADRATURE_BARY.

(** Three boundary faces in two zones: an isothermal wall, a grey wall
    and a face that is not a wall; the macros as [cs_defs.h] has
    them. *)
Definition rad_env : RadEnv := {|
  cs_math_big_r := 1e30;
  cs_math_epzero := 1e-12;
  cs_math_pow3 := fun x => (x * x * x)%float;
  cs_math_pow4 := fun x => ((x * x) * (x * x))%float;
  CS_ABS := fun a => if PrimFloat.ltb a 0 then PrimFloat.opp a else a;
  CS_MAX := fun a b => if PrimFloat.ltb b a then a else b;
  CS_MIN := fun a b => if PrimFloat.ltb a b then a else b;
  n_b_faces := 3;
  b_face_cells := [0; 1; 2];
  cs_boundary_zone_max_class_or_zone_id := 1;
  b_face_class_id := [0; 1; 1];
  itpimp := 1;
  ipgrno := 21;
  iprefl := 22;
  ifgrno := 31;
  ifrefl := 32
|}.

(** The kinds of the three faces, and one value of each field per
    face. *)
Definition kinds : list Z := [1; 21; 7].

Definition field (x : float) : list float := [x; x; x].

(** The state at the end of the loop for these faces: wall temperatures
    of 300 K at the start, to be kept between 298 K and 1000 K. *)
Definition wall_run : outcome wall_state :=
  @cs_rad_transfer_wall_flux rad_env 1 0 kinds 298 1000 0.1
    (field 0 ++ field 0 ++ field 0) (field 400) (field 290) (field 350)
    (field 1) (field 0.1) (field 0.8) (field 10) (field 50) (field 300)
    (field 300).

(** Two densities by value on the whole mesh, of values 2 and 0.5. *)
Definition two_constants : list cs_source_term_t :=
  [Example.density_const 2; Example.density_const 0.5].

(** A builder with no Hodge operator. *)
Definition builder_no_hodge : cs_cell_builder_t :=
  {| cb_values := cb_values Example.builder;
     cb_vectors := cb_vectors Example.builder;
     cb_hdg := None |}.

End Cases.

(* ================================================================== *)
(** ** Arrays and loops: basic facts *)

Lemma rd_Done {A : Type} (a : list A) (i : Z) (x : A) :
  0 <= i -> a !! Z.to_nat i = Some x -> rd a i = Done x.
Proof.
  intros Hi Hx. unfold rd.
  destruct (Z.ltb_spec i 0) as [Hlt | _]; [lia |]. now rewrite Hx.
Qed.

Lemma rd_inv {A : Type} (a : list A) (i : Z) (x : A) :
  rd a i = Done x -> 0 <= i /\ a !! Z.to_nat i = Some x.
Proof.
  unfold rd. destruct (Z.ltb_spec i 0) as [Hlt | Hge]; [discriminate |].
  destruct (a !! Z.to_nat i) as [y |]; [| discriminate].
  intros [= ->]. auto.
Qed.

Lemma wr_Done {A : Type} (a : list A) (i : Z) (x : A) :
  0 <= i < Z.of_nat (length a) -> wr a i x = Done (<[Z.to_nat i := x]> a).
Proof.
  intros [Hlo Hhi]. unfold wr.
  destruct (Z.ltb_spec i 0); [lia |].
  destruct (Z.ltb_spec i (Z.of_nat (length a))); [reflexivity | lia].
Qed.

Lemma wr_inv {A : Type} (a a' : list A) (i : Z) (x : A) :
  wr a i x = Done a' ->
  0 <= i < Z.of_nat (length a) /\ a' = <[Z.to_nat i := x]> a.
Proof.
  unfold wr. destruct (Z.ltb_spec i 0); [discriminate |].
  destruct (Z.ltb_spec i (Z.of_nat (length a))); [| discriminate].
  intros [= <-]. split; [lia | reflexivity].
Qed.

Lemma upd_Done {A : Type} (a : list A) (i : Z) (f : A -> A) (x : A) :
  0 <= i -> a !! Z.to_nat i = Some x ->
  upd a i f = Done (<[Z.to_nat i := f x]> a).
Proof.
  intros Hi Hx. unfold upd. rewrite (rd_Done a i x Hi Hx). cbn.
  apply wr_Done. split; [lia |].
  apply lookup_lt_Some in Hx. lia.
Qed.


(** A loop whose body keeps an invariant and returns, returns. *)
Lemma for_loop_inv {St : Type} (P : Z -> St -> Prop) (body : Z -> St -> outcome St)
    (count : nat) (i0 : Z) (s : St) :
  P i0 s ->
  (forall i t, i0 <= i < i0 + Z.of_nat count -> P i t ->
               exists t', body i t = Done t' /\ P (i + 1) t') ->
  exists s', for_loop count i0 body s = Done s' /\ P (i0 + Z.of_nat count) s'.
Proof.
  revert i0 s. induction count as [| k IH]; intros i0 s H0 Hstep.
  - exists s. split; [reflexivity |]. now replace (i0 + Z.of_nat 0) with i0 by lia.
  - destruct (Hstep i0 s) as (t & Hb & Ht); [lia | assumption |].
    destruct (IH (i0 + 1) t Ht) as (s' & Hl & Hs').
    { intros i u Hi. apply Hstep. lia. }
    exists s'. split.
    + cbn. rewrite Hb. exact Hl.
    + now replace (i0 + Z.of_nat (S k)) with (i0 + 1 + Z.of_nat k) by lia.
Qed.

Lemma for_range_inv {St : Type} (P : Z -> St -> Prop) (body : Z -> St -> outcome St)
    (lo hi : Z) (s : St) :
  lo <= hi -> P lo s ->
  (forall i t, lo <= i < hi -> P i t ->
               exists t', body i t = Done t' /\ P (i + 1) t') ->
  exists s', for_range lo hi body s = Done s' /\ P hi s'.
Proof.
  intros Hle H0 Hstep. unfold for_range.
  destruct (for_loop_inv P body (Z.to_nat (hi - lo)) lo s H0) as (s' & Hl & Hs').
  { intros i t Hi. apply Hstep. lia. }
  exists s'. split; [exact Hl |].
  replace (lo + Z.of_nat (Z.to_nat (hi - lo))) with hi in Hs' by lia.
  exact Hs'.
Qed.

(** What a loop that returns went through. *)
Lemma for_loop_Done_inv {St : Type} (P : Z -> St -> Prop)
    (body : Z -> St -> outcome St) (count : nat) (i0 : Z) (s s' : St) :
  for_loop count i0 body s = Done s' ->
  P i0 s ->
  (forall i t t', i0 <= i < i0 + Z.of_nat count -> P i t ->
                  body i t = Done t' -> P (i + 1) t') ->
  P (i0 + Z.of_nat count) s'.
Proof.
  revert i0 s. induction count as [| k IH]; intros i0 s Hl H0 Hstep.
  - cbn in Hl. injection Hl as <-. now replace (i0 + Z.of_nat 0) with i0 by lia.
  - cbn in Hl. destruct (body i0 s) as [t | | |] eqn:Hb; cbn in Hl; try discriminate.
    replace (i0 + Z.of_nat (S k)) with (i0 + 1 + Z.of_nat k) by lia.
    apply (IH (i0 + 1) t Hl).
    + apply (Hstep i0 s t); [lia | assumption | assumption].
    + intros i u u' Hi. apply Hstep. lia.
Qed.

Lemma for_range_Done_inv {St : Type} (P : Z -> St -> Prop)
    (body : Z -> St -> outcome St) (lo hi : Z) (s s' : St) :
  lo <= hi ->
  for_range lo hi body s = Done s' ->
  P lo s ->
  (forall i t t', lo <= i < hi -> P i t -> body i t = Done t' -> P (i + 1) t') ->
  P hi s'.
Proof.
  intros Hle Hl H0 Hstep. unfold for_range in Hl.
  replace hi with (lo + Z.of_nat (Z.to_nat (hi - lo))) by lia.
  apply (for_loop_Done_inv P body _ lo s s' Hl H0).
  intros i t t' Hi. apply Hstep. lia.
Qed.

Lemma for_range_empty {St : Type} (body : Z -> St -> outcome St) (lo hi : Z) (s : St) :
  hi <= lo -> for_range lo hi body s = Done s.
Proof.
  intros Hle. unfold for_range. now replace (Z.to_nat (hi - lo)) with O by lia.
Qed.

(** Two loops with bodies that agree on the range agree. *)
Lemma for_loop_ext {St : Type} (body1 body2 : Z -> St -> outcome St)
    (count : nat) (i0 : Z) (s : St) :
  (forall i t, i0 <= i < i0 + Z.of_nat count -> body1 i t = body2 i t) ->
  for_loop count i0 body1 s = for_loop count i0 body2 s.
Proof.
  revert i0 s. induction count as [| k IH]; intros i0 s Hext; [reflexivity |].
  cbn. rewrite Hext by lia. destruct (body2 i0 s) as [t | | |]; cbn; try reflexivity.
  apply IH. intros i u Hi. apply Hext. lia.
Qed.

(* ================================================================== *)
(** ** The evaluators *)

(** C10.  Called with a NULL source term, each of the nine cellwise
    evaluators returns at once: no error, and the builder and the buffer
    of values are what they were. *)
Theorem null_source_is_noop `{Env} :
  Forall (fun compute : cs_source_term_cellwise_t =>
            forall cm cb values, compute None cm cb values = Done (cb, values))
         cellwise_evaluators.
Proof.
  unfold cellwise_evaluators.
  repeat (apply Forall_cons; split; [intros cm cb values; reflexivity |]).
  apply Forall_nil_2.
Qed.

(** The first computation of a sequence that returns, returned. *)
Tactic Notation "bind_case" ident(x) ident(Hx) :=
  match goal with
  | |- mbind ?f ?o = Done _ -> _ =>
      destruct o as [x | | |] eqn:Hx; cbn [mbind outcome_bind];
      [| discriminate ..]
  end.

(** A loop stops at the first error that its body reports. *)
Lemma for_loop_first_error {St : Type} (P : St -> Prop)
    (Q : bft_message -> Prop) (body : Z -> St -> outcome St)
    (count : nat) (i0 : Z) (s : St) :
  P s ->
  (forall i t, i0 <= i < i0 + Z.of_nat count -> P t ->
     (exists t', body i t = Done t' /\ P t') \/
     (exists m, body i t = Fatal m /\ Q m)) ->
  (exists j, i0 <= j < i0 + Z.of_nat count /\
             forall t, P t -> exists m, body j t = Fatal m /\ Q m) ->
  exists m, for_loop count i0 body s = Fatal m /\ Q m.
Proof.
  revert i0 s. induction count as [| k IH]; intros i0 s Hs Hstep (j & Hj & Hbad).
  - lia.
  - cbn [for_loop]. destruct (Hstep i0 s) as [(t & Hb & Ht) | (m & Hb & Hm)];
      [lia | exact Hs | |].
    + rewrite Hb. cbn [mbind outcome_bind]. apply IH; [exact Ht | |].
      * intros i u Hi. apply Hstep. lia.
      * exists j. split; [| exact Hbad].
        destruct (decide (j = i0)) as [-> | Hne]; [| lia].
        destruct (Hbad s Hs) as (m & Hm & _). congruence.
    + exists m. rewrite Hb. split; [reflexivity | exact Hm].
Qed.

(** What [cs_source_term_dcsd_by_value] adds: at each vertex the value of
    the density times the weight of the vertex, and nothing else; the
    volume of the cell is not a factor. *)
Lemma dcsd_by_value_adds `{Env} (st : cs_source_term_t) (c : float)
    (cm : cs_cell_mesh_t) (cb : cs_cell_builder_t) (values : list float) :
  def st = def_get c ->
  0 <= n_vc cm <= Z.of_nat (length values) ->
  n_vc cm <= Z.of_nat (length (wvc cm)) ->
  exists values',
    cs_source_term_dcsd_by_value (Some st) cm cb values = Done (cb, values') /\
    length values' = length values /\
    forall v : nat,
      values' !! v =
        if decide (Z.of_nat v < n_vc cm)
        then x ← values !! v; w ← wvc cm !! v; Some (x + c * w)%float
        else values !! v.
Proof.
  intros Hdef Hn Hw. unfold cs_source_term_dcsd_by_value, get_val.
  rewrite Hdef. cbn.
  pose (P := fun (i : Z) (t : list float) =>
    length t = length values /\
    forall v : nat,
      t !! v = if decide (Z.of_nat v < i)
               then x ← values !! v; w ← wvc cm !! v; Some (x + c * w)%float
               else values !! v).
  destruct (for_range_inv P
              (fun v values => w ← rd (wvc cm) v;
                               upd values v (fun x => (x + c * w)%float))
              0 (n_vc cm) values) as (values' & Hloop & Hlen & Hval).
  - lia.
  - split; [reflexivity |]. intros v. destruct (decide (Z.of_nat v < 0)); [lia | reflexivity].
  - intros i t Hi [Hlt Ht].
    destruct (lookup_lt_is_Some_2 (wvc cm) (Z.to_nat i)) as [w Hwi]; [lia |].
    destruct (lookup_lt_is_Some_2 values (Z.to_nat i)) as [x Hxi]; [lia |].
    assert (Hti : t !! Z.to_nat i = Some x).
    { rewrite Ht. destruct (decide (Z.of_nat (Z.to_nat i) < i)); [lia | exact Hxi]. }
    exists (<[Z.to_nat i := (x + c * w)%float]> t). split.
    + rewrite (rd_Done (wvc cm) i w); [| lia | exact Hwi]. cbn.
      apply (upd_Done t i (fun x => (x + c * w)%float) x); [lia | exact Hti].
    + split; [now rewrite length_insert |].
      intros v. destruct (decide (v = Z.to_nat i)) as [-> | Hne].
      * rewrite list_lookup_insert_eq by (rewrite Hlt; lia).
        destruct (decide (Z.of_nat (Z.to_nat i) < i + 1)); [| lia].
        rewrite Hxi, Hwi. reflexivity.
      * rewrite list_lookup_insert_ne by congruence. rewrite Ht.
        destruct (decide (Z.of_nat v < i)), (decide (Z.of_nat v < i + 1));
          try reflexivity; lia.
  - exists values'. rewrite Hloop. cbn. auto.
Qed.

(** C2, at a cell of volume 2 with four vertices of weight 1/4 and a
    density of value 1: the evaluator adds 1/4 at each vertex, whereas the
    value times the weight times the volume of the cell is 1/2; the
    contributions sum up to 1, not to the value times the volume, 2. *)
Theorem dcsd_by_value_omits_cell_volume :
  @cs_source_term_dcsd_by_value Example.env (Some (Example.density_const 1))
     Example.cell Example.builder [0; 0; 0; 0]%float
  = Done (Example.builder, [0.25; 0.25; 0.25; 0.25]%float) /\
  (1 * 0.25 * vol_c Example.cell = 0.5)%float /\
  (0 + 0.25 + 0.25 + 0.25 + 0.25 = 1)%float /\
  (1 * vol_c Example.cell = 2)%float.
Proof. repeat split; vm_compute; reflexivity. Qed.

(** Two runs of a loop from related states stay related. *)
Lemma for_loop_rel {St : Type} (R : Z -> St -> St -> Prop)
    (body : Z -> St -> outcome St) (count : nat) (i0 : Z) (s1 s2 s1' : St) :
  for_loop count i0 body s1 = Done s1' ->
  R i0 s1 s2 ->
  (forall i t1 t2 t1', i0 <= i < i0 + Z.of_nat count -> R i t1 t2 ->
     body i t1 = Done t1' ->
     exists t2', body i t2 = Done t2' /\ R (i + 1) t1' t2') ->
  exists s2', for_loop count i0 body s2 = Done s2' /\
              R (i0 + Z.of_nat count) s1' s2'.
Proof.
  revert i0 s1 s2. induction count as [| k IH]; intros i0 s1 s2 Hl H0 Hstep.
  - cbn in Hl. injection Hl as <-. exists s2. split; [reflexivity |].
    now replace (i0 + Z.of_nat 0) with i0 by lia.
  - cbn in Hl. destruct (body i0 s1) as [t1 | | |] eqn:Hb; cbn in Hl; try discriminate.
    destruct (Hstep i0 s1 s2 t1) as (t2 & Hb2 & Hr); [lia | assumption | assumption |].
    destruct (IH (i0 + 1) t1 t2 Hl Hr) as (s2' & Hl2 & Hr').
    { intros i u1 u2 u1' Hi. apply Hstep. lia. }
    exists s2'. split.
    + cbn. rewrite Hb2. exact Hl2.
    + now replace (i0 + Z.of_nat (S k)) with (i0 + 1 + Z.of_nat k) by lia.
Qed.

(** What [cs_source_term_dcsd_bary_by_analytic] leaves at the vertices of
    the cell does not depend on what the buffer held. *)
Lemma dcsd_bary_discards_buffer `{Env} (st : cs_source_term_t)
    (cm : cs_cell_mesh_t) (cb cb' : cs_cell_builder_t)
    (values1 values2 out1 : list float) :
  length values1 = length values2 ->
  cs_source_term_dcsd_bary_by_analytic (Some st) cm cb values1 = Done (cb', out1) ->
  exists out2,
    cs_source_term_dcsd_bary_by_analytic (Some st) cm cb values2 = Done (cb', out2) /\
    forall v : nat, Z.of_nat v < n_vc cm -> out1 !! v = out2 !! v.
Proof.
  intros Hlen. unfold cs_source_term_dcsd_bary_by_analytic.
  bind_case xgv0 Hx0. bind_case xgv1 Hx1. bind_case xgv Hx. bind_case result Hr.
  bind_case o1 Hl1.
  intros [= <- <-]. unfold for_range in *.
  pose (R := fun (i : Z) (t1 t2 : list float) =>
    length t1 = length t2 /\ forall v : nat, Z.of_nat v < i -> t1 !! v = t2 !! v).
  destruct (for_loop_rel R _ _ _ values1 values2 o1 Hl1) as (o2 & Hl2 & _ & Hagree).
  - split; [exact Hlen |]. intros v Hv. lia.
  - intros i t1 t2 t1' Hi [Hlt Ht].
    destruct (rd (wvc cm) i) as [w | | |]; cbn; try discriminate.
    destruct (rd result i) as [r | | |]; cbn; try discriminate.
    intros Hw1. apply wr_inv in Hw1 as [Hin ->].
    exists (<[Z.to_nat i := (vol_c cm * w * r)%float]> t2). split.
    + apply wr_Done. lia.
    + split; [now rewrite !length_insert |].
      intros v Hv. destruct (decide (v = Z.to_nat i)) as [-> | Hne].
      * rewrite !list_lookup_insert_eq by lia. reflexivity.
      * rewrite !list_lookup_insert_ne by congruence. apply Ht. lia.
  - exists o2. rewrite Hl2. cbn. split; [reflexivity |].
    intros v Hv. apply Hagree. lia.
Qed.

(** C1, at the tetrahedron of the examples (volume 2, weights 1/4) and
    the analytic density f = 1: from a buffer that holds 10 at each vertex
    the barycentric evaluator leaves 2 * 1/4 * 1 = 1/2 at each vertex, the
    contribution of the cell alone, as it does from a buffer of zeros, and
    not 10 + 1/2; the evaluator by value, on the same buffer, adds. *)
Theorem dcsd_bary_overwrites_buffer :
  out_values (@cs_source_term_dcsd_bary_by_analytic Example.env
                (Some Example.density_one)
                Example.cell Example.builder [10; 10; 10; 10]%float)
  = Done [0.5; 0.5; 0.5; 0.5]%float /\
  out_values (@cs_source_term_dcsd_bary_by_analytic Example.env
                (Some Example.density_one)
                Example.cell Example.builder [0; 0; 0; 0]%float)
  = Done [0.5; 0.5; 0.5; 0.5]%float /\
  (10 + 0.5 = 10.5)%float /\
  out_values (@cs_source_term_dcsd_by_value Example.env
                (Some (Example.density_const 1))
                Example.cell Example.builder [10; 10; 10; 10]%float)
  = Done [10.25; 10.25; 10.25; 10.25]%float.
Proof. repeat split; vm_compute; reflexivity. Qed.

(** *** No evaluator of a density reports an error *)























(* ================================================================== *)
(** ** The cellwise driver *)

(** The reset loop sets the first [n] entries to zero. *)
Lemma reset_zeroed (n : Z) (src : list float) :
  0 <= n <= Z.of_nat (length src) ->
  for_range 0 n (fun i src => wr src i 0%float) src = Done (zeroed n src).
Proof.
  intros Hn.
  pose (P := fun (i : Z) (t : list float) =>
    length t = length src /\
    forall v : nat,
      t !! v = if decide (Z.of_nat v < i) then Some 0%float else src !! v).
  destruct (for_range_inv P (fun i src => wr src i 0%float) 0 n src)
    as (t & Hloop & Hlen & Hval).
  - lia.
  - split; [reflexivity |]. intros v.
    destruct (decide (Z.of_nat v < 0)); [lia | reflexivity].
  - intros i t Hi [Hlt Ht]. exists (<[Z.to_nat i := 0%float]> t). split.
    + apply wr_Done. lia.
    + split; [now rewrite length_insert |]. intros v.
      destruct (decide (v = Z.to_nat i)) as [-> | Hne].
      * rewrite list_lookup_insert_eq by lia.
        destruct (decide (Z.of_nat (Z.to_nat i) < i + 1)); [reflexivity | lia].
      * rewrite list_lookup_insert_ne by congruence. rewrite Ht.
        destruct (decide (Z.of_nat v < i)), (decide (Z.of_nat v < i + 1));
          try reflexivity; lia.
  - rewrite Hloop. f_equal. unfold zeroed. apply list_eq. intros v. rewrite Hval.
    destruct (decide (Z.of_nat v < n)) as [Hv | Hv].
    + rewrite lookup_app_l by (rewrite length_replicate; lia).
      symmetry. apply lookup_replicate_2. lia.
    + rewrite lookup_app_r by (rewrite length_replicate; lia).
      rewrite length_replicate, lookup_drop. f_equal. lia.
Qed.

Lemma seqZ_to_nat (m n : Z) : seqZ m n = seqZ m (Z.of_nat (Z.to_nat n)).
Proof. unfold seqZ. now rewrite Nat2Z.id. Qed.

(** The reset loop on its [short int] counter. *)
Lemma reset_short (n : Z) (src : list float) :
  0 <= n <= Z.of_nat (length src) -> n <= 32767 ->
  for_short n (fun i src => wr src i 0%float) src = Done (zeroed n src).
Proof.
  intros Hn Hshort. unfold for_short.
  destruct (Z.ltb_spec 32767 n); [lia | now apply reset_zeroed].
Qed.

(** A call through the table: the handle of rank [st_id] is fetched and
    applied to the term of that rank. *)
Lemma call_compute_lookup (source_terms : list cs_source_term_t)
    (cm : cs_cell_mesh_t)
    (compute_source : list (option cs_source_term_cellwise_t)) (st_id : Z)
    (s : cs_cell_builder_t * list float) :
  0 <= st_id ->
  call_compute source_terms cm compute_source st_id s =
  match (compute_source !! Z.to_nat st_id
         : option (option cs_source_term_cellwise_t)),
        source_terms !! Z.to_nat st_id with
  | Some (Some compute), Some st => compute (Some st) cm s.1 s.2
  | _, _ => Undefined
  end.
Proof.
  intros Hi. unfold call_compute, rd.
  destruct (Z.ltb_spec st_id 0) as [| _]; [lia |].
  destruct (compute_source !! Z.to_nat st_id) as [[compute |] |];
    cbn [mbind outcome_bind deref]; try reflexivity.
  destruct (source_terms !! Z.to_nat st_id); reflexivity.
Qed.

(** One turn of the loop on the terms, then the others. *)
Lemma run_terms_cons (source_terms : list cs_source_term_t)
    (cm : cs_cell_mesh_t)
    (compute_source : list (option cs_source_term_cellwise_t))
    (i : Z) (ids : list Z) (s : cs_cell_builder_t * list float) :
  0 <= i ->
  run_terms source_terms cm compute_source (i :: ids) s =
  s' ← call_compute source_terms cm compute_source i s;
  run_terms source_terms cm compute_source ids s'.
Proof.
  intros Hi. rewrite call_compute_lookup by exact Hi. cbn [run_terms].
  destruct (compute_source !! Z.to_nat i) as [[compute |] |];
    try reflexivity.
  destruct (source_terms !! Z.to_nat i); reflexivity.
Qed.

(** The loop on all the terms invokes them in increasing order of id. *)
Lemma for_loop_run_terms (source_terms : list cs_source_term_t)
    (cm : cs_cell_mesh_t)
    (compute_source : list (option cs_source_term_cellwise_t))
    (count : nat) (i0 : Z) (s : cs_cell_builder_t * list float) :
  0 <= i0 ->
  for_loop count i0 (call_compute source_terms cm compute_source) s =
  run_terms source_terms cm compute_source (seqZ i0 (Z.of_nat count)) s.
Proof.
  revert i0 s. induction count as [| k IH]; intros i0 s Hi0; [reflexivity |].
  rewrite seqZ_cons by lia. rewrite run_terms_cons by exact Hi0.
  cbn [for_loop].
  destruct (call_compute source_terms cm compute_source i0 s) as [t | | |];
    cbn [mbind outcome_bind]; try reflexivity.
  rewrite IH by lia. do 2 f_equal; lia.
Qed.

(** The loop that tests a condition on the id invokes, in increasing order
    of id, the terms for which it holds. *)
Lemma for_loop_run_selected (source_terms : list cs_source_term_t)
    (cm : cs_cell_mesh_t)
    (compute_source : list (option cs_source_term_cellwise_t))
    (sel : Z -> bool) (count : nat) (i0 : Z)
    (s : cs_cell_builder_t * list float) :
  0 <= i0 ->
  for_loop count i0
    (fun i s => if sel i then call_compute source_terms cm compute_source i s
                else Done s) s =
  run_terms source_terms cm compute_source
    (filter (fun i => sel i = true) (seqZ i0 (Z.of_nat count))) s.
Proof.
  revert i0 s. induction count as [| k IH]; intros i0 s Hi0; [reflexivity |].
  rewrite seqZ_cons by lia. rewrite filter_cons. cbn [for_loop].
  replace (seqZ (Z.succ i0) (Z.pred (Z.of_nat (S k))))
    with (seqZ (i0 + 1) (Z.of_nat k)) by (f_equal; lia).
  destruct (decide (sel i0 = true)) as [Hs | Hs].
  - rewrite Hs. rewrite run_terms_cons by exact Hi0.
    destruct (call_compute source_terms cm compute_source i0 s) as [t | | |];
      cbn [mbind outcome_bind]; try reflexivity.
    apply IH. lia.
  - apply not_true_is_false in Hs. rewrite Hs. cbn [mbind outcome_bind].
    apply IH. lia.
Qed.

(** The test of the bit of a term in a word of the mask. *)
Lemma mask_bit_test `{Env} (w i : Z) :
  0 <= i < cs_mask_bits ->
  flag_on w (to_mask (Z.shiftl 1 i)) = Z.testbit w i.
Proof.
  intros Hi. unfold flag_on, to_mask.
  rewrite Z.shiftl_1_l.
  rewrite Z.mod_small
    by (split; [apply Z.pow_nonneg; lia | apply Z.pow_lt_mono_r; lia]).
  assert (Hland : Z.land w (2 ^ i) = if Z.testbit w i then 2 ^ i else 0).
  { apply Z.bits_inj'. intros j Hj. rewrite Z.land_spec, Z.pow2_bits_eqb by lia.
    destruct (Z.eqb_spec i j) as [-> | Hne].
    - destruct (Z.testbit w j); [| now rewrite Z.bits_0].
      rewrite Z.pow2_bits_eqb by lia. now rewrite Z.eqb_refl.
    - rewrite andb_false_r. destruct (Z.testbit w i); [| now rewrite Z.bits_0].
      rewrite Z.pow2_bits_eqb by lia. symmetry. now apply Z.eqb_neq. }
  rewrite Hland. destruct (Z.testbit w i).
  - assert (0 < 2 ^ i) by (apply Z.pow_pos_nonneg; lia).
    destruct (Z.eqb_spec (2 ^ i) 0); [lia | reflexivity].
  - reflexivity.
Qed.

Lemma mask_of_id_Done `{Env} (i : Z) :
  0 <= i < 31 -> mask_of_id i = Done (to_mask (Z.shiftl 1 i)).
Proof.
  intros Hi. unfold mask_of_id.
  destruct (Z.leb_spec 0 i); [| lia]. destruct (Z.ltb_spec i 31); [| lia].
  reflexivity.
Qed.

Lemma for_short_range {St : Type} (n : Z) (body : Z -> St -> outcome St) (s : St) :
  n <= 32767 -> for_short n body s = for_range 0 n body s.
Proof.
  intros Hn. unfold for_short. destruct (Z.ltb_spec 32767 n); [lia | reflexivity].
Qed.


(* ================================================================== *)
(** ** Resolution of the evaluators *)

Lemma assert_true `{Env} : assert_ true = Done tt.
Proof. unfold assert_. now rewrite orb_true_r. Qed.

Lemma assert_support `{Env} (st : cs_source_term_t) :
  support_declared st -> flag_on (flag st) CS_FLAG_DUAL = false ->
  assert_ (flag_on (flag st) CS_FLAG_PRIMAL) = Done tt.
Proof.
  intros [Hd | Hp] Hnd; [congruence |]. rewrite Hp. apply assert_true.
Qed.

(** The [switch] of [cs_source_term_init] returns the evaluator of the
    decision table. *)
Lemma init_dispatch_Some `{Env} (scheme : cs_space_scheme_t)
    (st : cs_source_term_t) (h : cs_source_term_cellwise_t) :
  support_declared st -> term_evaluator scheme st = Some h ->
  init_dispatch scheme st = Done h.
Proof.
  intros Hsup. unfold term_evaluator, support_of, init_dispatch, evaluator_of.
  pose proof (assert_support st Hsup) as Ha.
  destruct scheme, (flag_on (flag st) CS_FLAG_DUAL), (def_type st);
    try discriminate; try rewrite (Ha eq_refl); cbn [mbind outcome_bind];
    try (intros [= <-]; reflexivity).
  destruct (quad_type st); try discriminate; intros [= <-]; reflexivity.
Qed.

(** Where the table has no evaluator, the [switch] reports an error, of
    the class of the unsupported configurations. *)
Lemma init_dispatch_None `{Env} (scheme : cs_space_scheme_t)
    (st : cs_source_term_t) :
  support_declared st -> term_evaluator scheme st = None ->
  exists m, init_dispatch scheme st = Fatal m /\
            kind_of m = UnsupportedConfiguration.
Proof.
  intros Hsup. unfold term_evaluator, support_of, init_dispatch, evaluator_of.
  pose proof (assert_support st Hsup) as Ha.
  destruct scheme, (flag_on (flag st) CS_FLAG_DUAL), (def_type st);
    try discriminate; try rewrite (Ha eq_refl); cbn [mbind outcome_bind];
    try (intros _; eexists; split; reflexivity).
  destruct (quad_type st); try discriminate.
  intros _; eexists; split; reflexivity.
Qed.

(** An evaluator that the [switch] returns is the one of the table. *)
Lemma init_dispatch_Done `{Env} (scheme : cs_space_scheme_t)
    (st : cs_source_term_t) (h : cs_source_term_cellwise_t) :
  init_dispatch scheme st = Done h -> term_evaluator scheme st = Some h.
Proof.
  unfold term_evaluator, support_of, init_dispatch, evaluator_of, bft_error.
  destruct scheme, (flag_on (flag st) CS_FLAG_DUAL), (def_type st);
    try discriminate;
    try (destruct (assert_ _) as [[] | | |]; cbn [mbind outcome_bind];
         try discriminate);
    try (intros [= <-]; reflexivity).
  destruct (quad_type st); try discriminate; intros [= <-]; reflexivity.
Qed.

(** The loop that sets the handles to NULL. *)
Lemma null_handles_Done `{Env}
    (compute_source : list (option cs_source_term_cellwise_t)) :
  CS_N_MAX_SOURCE_TERMS <= Z.of_nat (length compute_source) ->
  CS_N_MAX_SOURCE_TERMS <= 32767 ->
  exists cs, for_short CS_N_MAX_SOURCE_TERMS (fun i cs => wr cs i None)
               compute_source = Done cs /\
             length cs = length compute_source.
Proof.
  intros Hlen Hshort. rewrite for_short_range by exact Hshort.
  destruct (Z.le_gt_cases 0 CS_N_MAX_SOURCE_TERMS) as [Hpos | Hneg].
  - apply (for_range_inv (fun _ cs => length cs = length compute_source));
      [lia | reflexivity |].
    intros i t Hi Ht. exists (<[Z.to_nat i := None]> t). split.
    + apply wr_Done. lia.
    + now rewrite length_insert.
  - exists compute_source. split; [apply for_range_empty; lia | reflexivity].
Qed.

(** What the loop on the source terms leaves when it returns: a handle for
    each term, the one of the table, and the need of a mask when a term
    is not full-domain. *)
Lemma init_loop_Done `{Env} (scheme : cs_space_scheme_t) (n : Z)
    (sts : list cs_source_term_t)
    (cs0 cs : list (option cs_source_term_cellwise_t)) (sf0 sf : Z)
    (need_mask : bool) :
  0 <= n ->
  for_range 0 n (init_term scheme sts) (cs0, sf0, false) = Done (cs, sf, need_mask) ->
  length cs = length cs0 /\
  (forall i st, term_at n sts i st ->
     exists h, term_evaluator scheme st = Some h /\
               cs !! Z.to_nat i = Some (Some h)) /\
  (need_mask = true <->
   exists i st, term_at n sts i st /\ full_domain st = false).
Proof.
  intros Hn Hloop.
  pose (P := fun (k : Z) (s : list (option cs_source_term_cellwise_t) * Z * bool) =>
    length s.1.1 = length cs0 /\
    (forall i st, term_at k sts i st ->
       exists h, term_evaluator scheme st = Some h /\
                 s.1.1 !! Z.to_nat i = Some (Some h)) /\
    (s.2 = true <-> exists i st, term_at k sts i st /\ full_domain st = false)).
  apply (for_range_Done_inv P _ 0 n _ _ Hn Hloop).
  - split; [reflexivity |]. split.
    + intros i st [Hi _]. lia.
    + split; [discriminate |]. intros (i & st & [Hi _] & _). lia.
  - intros k [[c f] nm] t' Hk (Hlen & Hh & Hnm). cbn in Hlen, Hh, Hnm.
    unfold init_term.
    destruct (rd sts k) as [st | | |] eqn:Hst; cbn [mbind outcome_bind]; try discriminate.
    apply rd_inv in Hst as [_ Hst].
    destruct (init_dispatch scheme st) as [h | | |] eqn:Hd;
      cbn [mbind outcome_bind]; try discriminate.
    apply init_dispatch_Done in Hd.
    destruct (wr c k (Some h)) as [c' | | |] eqn:Hw;
      cbn [mbind outcome_bind]; try discriminate.
    apply wr_inv in Hw as [Hkc ->]. intros [= <-]. unfold P. cbv beta iota delta [fst snd]. split; [| split].
    + now rewrite length_insert.
    + intros i st' [Hi Hst']. destruct (decide (i = k)) as [-> | Hne].
      * exists h. rewrite Hst in Hst'. injection Hst' as <-.
        split; [exact Hd |]. apply list_lookup_insert_eq. lia.
      * destruct (Hh i st') as (h' & Hh1 & Hh2); [split; [lia | exact Hst'] |].
        exists h'. split; [exact Hh1 |].
        rewrite list_lookup_insert_ne by lia. exact Hh2.
    + unfold full_domain in *. split.
      * destruct (flag_on (flag st) CS_FLAG_FULL_LOC) eqn:Hfull.
        -- intros Hnm'. apply Hnm in Hnm' as (i & st' & [Hi Hst'] & Hf).
           exists i, st'. split; [split; [lia | exact Hst'] | exact Hf].
        -- intros _. exists k, st. split; [split; [lia | exact Hst] | exact Hfull].
      * intros (i & st' & [Hi Hst'] & Hf).
        destruct (decide (i = k)) as [-> | Hne].
        -- rewrite Hst in Hst'. injection Hst' as <-. now rewrite Hf.
        -- destruct (flag_on (flag st) CS_FLAG_FULL_LOC); [| reflexivity].
           apply Hnm. exists i, st'. split; [split; [lia | exact Hst'] | exact Hf].
Qed.

(** The loop on the source terms returns when each term has an evaluator
    in the table. *)
Lemma init_loop_total `{Env} (scheme : cs_space_scheme_t) (n : Z)
    (sts : list cs_source_term_t)
    (cs0 : list (option cs_source_term_cellwise_t)) (sf0 : Z) :
  0 <= n <= Z.of_nat (length sts) ->
  n <= Z.of_nat (length cs0) ->
  (forall i st, term_at n sts i st ->
     support_declared st /\ is_Some (term_evaluator scheme st)) ->
  exists cs sf need_mask,
    for_range 0 n (init_term scheme sts) (cs0, sf0, false) = Done (cs, sf, need_mask).
Proof.
  intros Hn Hcs Hres.
  destruct (for_range_inv
              (fun _ (s : list (option cs_source_term_cellwise_t) * Z * bool) =>
                 length s.1.1 = length cs0)
              (init_term scheme sts) 0 n (cs0, sf0, false))
    as ([[cs sf] nm] & Hloop & _); [lia | reflexivity | |].
  - intros k [[c f] nm] Hk Hlen. cbn in Hlen. unfold init_term.
    destruct (lookup_lt_is_Some_2 sts (Z.to_nat k)) as [st Hst]; [lia |].
    rewrite (rd_Done sts k st) by (lia || exact Hst). cbn [mbind outcome_bind].
    destruct (Hres k st) as [Hsup [h Hh]]; [split; [lia | exact Hst] |].
    rewrite (init_dispatch_Some scheme st h Hsup Hh). cbn [mbind outcome_bind].
    rewrite wr_Done by lia. cbn [mbind outcome_bind].
    eexists. split; [reflexivity |]. cbv beta iota delta [fst snd].
    now rewrite length_insert.
  - exists cs, sf, nm. exact Hloop.
Qed.

(** C6.  For a registry of at most the maximal number of terms, each with
    a declared support: when some term has no evaluator in the decision
    table, [cs_source_term_init] stops on an error of the class of the
    unsupported configurations; when it returns, every term has a handle
    that is not NULL, the evaluator of the table.  The table has no
    evaluator for a density under the vertex+cell scheme, for a definition
    that is neither by value nor by analytic function, and for a density
    by analytic function with a quadrature that is not one of the four. *)
Theorem unsupported_combination_is_fatal `{Env} (scheme : cs_space_scheme_t)
    (n : Z) (sts : list cs_source_term_t)
    (compute_source : list (option cs_source_term_cellwise_t)) (sys_flag : Z) :
  registry_sized n sts compute_source ->
  (forall i st, term_at n sts i st -> support_declared st) ->
  ((exists i st, term_at n sts i st /\ term_evaluator scheme st = None) ->
   exists m, cs_source_term_init scheme n sts compute_source sys_flag = Fatal m /\
             kind_of m = UnsupportedConfiguration) /\
  (forall cs sf mask,
     cs_source_term_init scheme n sts compute_source sys_flag = Done (cs, sf, mask) ->
     forall i st, term_at n sts i st ->
       exists h, term_evaluator scheme st = Some h /\
                 cs !! Z.to_nat i = Some (Some h)) /\
  (forall d q, evaluator_of CS_SPACE_SCHEME_CDOVCB Density d q = None) /\
  (forall s k d q, d <> CS_PARAM_DEF_BY_VALUE ->
                   d <> CS_PARAM_DEF_BY_ANALYTIC_FUNCTION ->
                   evaluator_of s k d q = None) /\
  (forall code, evaluator_of CS_SPACE_SCHEME_CDOVB Density
                  CS_PARAM_DEF_BY_ANALYTIC_FUNCTION (CS_QUADRATURE_OTHER code)
                = None).
Proof.
  intros (Hn & Hsts & Hcs & Hshort) Hsup.
  split; [| split; [| split; [| split]]].
  - intros (i & st & [Hi Hst] & Hnone). unfold cs_source_term_init.
    destruct (Z.ltb_spec CS_N_MAX_SOURCE_TERMS n) as [Hlt | _]; [lia |].
    destruct (null_handles_Done compute_source Hcs Hshort) as (cs1 & Hnull & Hlen1).
    rewrite Hnull. cbn [mbind outcome_bind].
    destruct (Z.eqb_spec n 0) as [Hn0 | Hn0]; [lia |].
    destruct (for_loop_first_error
                (fun s : list (option cs_source_term_cellwise_t) * Z * bool =>
                   length s.1.1 = length cs1)
                (fun m => kind_of m = UnsupportedConfiguration)
                (init_term scheme sts) (Z.to_nat (n - 0)) 0 (cs1, sys_flag, false))
      as (m & Hloop & Hm).
    + reflexivity.
    + intros k [[c f] nm] Hk Hlen. cbv beta iota delta [fst snd] in Hlen.
      unfold init_term.
      destruct (lookup_lt_is_Some_2 sts (Z.to_nat k)) as [stk Hstk]; [lia |].
      rewrite (rd_Done sts k stk) by (lia || exact Hstk). cbn [mbind outcome_bind].
      assert (Hsupk : support_declared stk) by (apply (Hsup k); split; [lia | exact Hstk]).
      destruct (term_evaluator scheme stk) as [h |] eqn:Hev.
      * left. rewrite (init_dispatch_Some scheme stk h Hsupk Hev).
        cbn [mbind outcome_bind]. rewrite wr_Done by lia. cbn [mbind outcome_bind].
        eexists. split; [reflexivity |]. cbv beta iota delta [fst snd].
        now rewrite length_insert.
      * right. destruct (init_dispatch_None scheme stk Hsupk Hev) as (m & Hd & Hm).
        exists m. rewrite Hd. split; [reflexivity | exact Hm].
    + exists i. split; [lia |]. intros [[c f] nm] _. unfold init_term.
      rewrite (rd_Done sts i st) by (lia || exact Hst). cbn [mbind outcome_bind].
      assert (Hsupi : support_declared st) by (apply (Hsup i); split; [lia | exact Hst]).
      destruct (init_dispatch_None scheme st Hsupi Hnone) as (m & Hd & Hm).
      exists m. rewrite Hd. split; [reflexivity | exact Hm].
    + exists m. unfold for_range. rewrite Hloop. split; [reflexivity | exact Hm].
  - intros cs sf mask. unfold cs_source_term_init.
    destruct (CS_N_MAX_SOURCE_TERMS <? n); [discriminate |].
    bind_case cs1 Hnull.
    destruct (Z.eqb_spec n 0) as [Hn0 | Hn0].
    { intros _ i st [Hi _]. lia. }
    bind_case s Hloop. destruct s as [[cs2 sf2] nm]. cbv beta iota.
    destruct (init_loop_Done scheme n sts cs1 cs2 sys_flag sf2 nm) as (_ & Hh & _);
      [lia | exact Hloop |].
    destruct nm.
    + bind_case mask' Hmask. intros [= <- <- <-]. exact Hh.
    + intros [= <- <- <-]. exact Hh.
  - intros d q. destruct d; reflexivity.
  - intros s k d q Hv Ha. destruct s, k, d; try reflexivity; congruence.
  - reflexivity.
Qed.

Lemma unsupported_combination_is_fatal_witness :
  exists m,
    @cs_source_term_init Example.env CS_SPACE_SCHEME_CDOVB 2
       Example.registry_array Example.no_handles 0 = Fatal m /\
    kind_of m = UnsupportedConfiguration.
Proof.
  apply (@unsupported_combination_is_fatal Example.env CS_SPACE_SCHEME_CDOVB 2
           Example.registry_array Example.no_handles 0).
  - repeat split; cbn; lia.
  - intros i st [Hi Hst]. left.
    assert (Hc : i = 0 \/ i = 1) by lia.
    destruct Hc as [-> | ->]; cbn in Hst; injection Hst as <-; reflexivity.
  - exists 1, Example.density_array. repeat split; cbn; lia.
Defined.

(* ================================================================== *)
(** ** The cell mask *)

Lemma to_mask_range `{Env} (z : Z) :
  0 <= cs_mask_bits -> 0 <= to_mask z < 2 ^ cs_mask_bits.
Proof.
  intros Hb. unfold to_mask. apply Z.mod_pos_bound. apply Z.pow_pos_nonneg; lia.
Qed.

(** The bits of a word of the mask after the bit of term [k] is set. *)
Lemma set_bit_testbit `{Env} (w k b : Z) :
  0 <= k < cs_mask_bits -> 0 <= w < 2 ^ cs_mask_bits -> 0 <= b ->
  Z.testbit (to_mask (Z.lor w (to_mask (Z.shiftl 1 k)))) b =
  Z.testbit w b || (b =? k).
Proof.
  intros Hk Hw Hb. unfold to_mask. rewrite Z.shiftl_1_l.
  rewrite (Z.mod_small (2 ^ k))
    by (split; [apply Z.pow_nonneg; lia | apply Z.pow_lt_mono_r; lia]).
  destruct (Z.lt_ge_cases b cs_mask_bits) as [Hlow | Hhigh].
  - rewrite Z.mod_pow2_bits_low by lia.
    rewrite Z.lor_spec, Z.pow2_bits_eqb by lia. now rewrite (Z.eqb_sym k b).
  - rewrite Z.mod_pow2_bits_high by lia.
    rewrite <- (Z.mod_small w (2 ^ cs_mask_bits)) by lia.
    rewrite Z.mod_pow2_bits_high by lia.
    destruct (Z.eqb_spec b k); [lia | reflexivity].
Qed.

Lemma bool_decide_elem_snoc (x y : Z) (l : list Z) :
  bool_decide (x ∈ l ++ [y]) = bool_decide (x ∈ l) || bool_decide (x = y).
Proof.
  destruct (decide (x ∈ l)) as [Hl | Hl], (decide (x = y)) as [Hy | Hy];
    rewrite ?(bool_decide_true (x ∈ l)), ?(bool_decide_false (x ∈ l)),
            ?(bool_decide_true (x = y)), ?(bool_decide_false (x = y)) by assumption;
    cbn; [apply bool_decide_true | apply bool_decide_true
         | apply bool_decide_true | apply bool_decide_false];
    rewrite elem_of_app, list_elem_of_singleton; tauto.
Qed.

(** A loop that sets the bit of term [k] in the word of each cell of a
    list sets it in the words of these cells and leaves the other bits and
    the other words as they were. *)
Lemma mark_cells `{Env} (k : Z) (cells : list Z)
    (body : Z -> list Z -> outcome (list Z)) (mask : list Z) :
  0 <= k < cs_mask_bits ->
  (forall i t c, 0 <= i -> cells !! Z.to_nat i = Some c ->
     body i t = upd t c (fun w => to_mask (Z.lor w (to_mask (Z.shiftl 1 k))))) ->
  Forall (fun c => 0 <= c < Z.of_nat (length mask)) cells ->
  Forall (fun w => 0 <= w < 2 ^ cs_mask_bits) mask ->
  exists mask',
    for_loop (length cells) 0 body mask = Done mask' /\
    length mask' = length mask /\
    Forall (fun w => 0 <= w < 2 ^ cs_mask_bits) mask' /\
    forall (c : nat) (w0 : Z), mask !! c = Some w0 ->
      exists w, mask' !! c = Some w /\
        forall b, 0 <= b ->
          Z.testbit w b =
          Z.testbit w0 b || ((b =? k) && bool_decide (Z.of_nat c ∈ cells)).
Proof.
  intros Hk Hbody Hcells Hmask.
  pose (P := fun (i : Z) (t : list Z) =>
    length t = length mask /\
    Forall (fun w => 0 <= w < 2 ^ cs_mask_bits) t /\
    forall (c : nat) (w0 : Z), mask !! c = Some w0 ->
      exists w, t !! c = Some w /\
        forall b, 0 <= b ->
          Z.testbit w b =
          Z.testbit w0 b ||
          ((b =? k) && bool_decide (Z.of_nat c ∈ take (Z.to_nat i) cells))).
  destruct (for_loop_inv P body (length cells) 0 mask) as (mask' & Hloop & HP).
  - split; [reflexivity |]. split; [exact Hmask |].
    intros c w0 Hc. exists w0. split; [exact Hc |]. intros b Hb.
    cbn. rewrite bool_decide_false by apply not_elem_of_nil.
    now rewrite andb_false_r, orb_false_r.
  - intros i t Hi (Hlen & Hrange & Hbits).
    destruct (lookup_lt_is_Some_2 cells (Z.to_nat i)) as [ci Hci]; [lia |].
    pose proof (proj1 (Forall_lookup _ _) Hcells _ _ Hci) as Hcir. cbv beta in Hcir.
    destruct (lookup_lt_is_Some_2 t (Z.to_nat ci)) as [wi Hwi]; [lia |].
    rewrite (Hbody i t ci) by (lia || exact Hci).
    rewrite (upd_Done t ci _ wi) by (lia || exact Hwi).
    eexists. split; [reflexivity |]. split; [now rewrite length_insert |].
    split.
    + apply Forall_insert; [exact Hrange |]. apply to_mask_range. lia.
    + intros c w0 Hc. destruct (Hbits c w0 Hc) as (w & Hw & Hwb).
      replace (Z.to_nat (i + 1)) with (S (Z.to_nat i)) by lia.
      rewrite (take_S_r _ _ _ Hci).
      destruct (decide (c = Z.to_nat ci)) as [-> | Hne].
      * rewrite Hwi in Hw. injection Hw as <-.
        eexists. split; [apply list_lookup_insert_eq; lia |].
        intros b Hb. rewrite set_bit_testbit; [| lia | | lia].
        -- rewrite Hwb by lia. rewrite bool_decide_elem_snoc.
           rewrite (bool_decide_true (Z.of_nat (Z.to_nat ci) = ci)) by lia.
           destruct (Z.testbit w0 b), (b =? k),
             (bool_decide (Z.of_nat (Z.to_nat ci) ∈ take (Z.to_nat i) cells));
             reflexivity.
        -- exact (proj1 (Forall_lookup _ _) Hrange _ _ Hwi).
      * exists w. split; [rewrite list_lookup_insert_ne by congruence; exact Hw |].
        intros b Hb. rewrite Hwb by lia. rewrite bool_decide_elem_snoc.
        rewrite (bool_decide_false (Z.of_nat c = ci)) by lia.
        now rewrite orb_false_r.
  - destruct HP as (Hlen & Hrange & Hbits).
    exists mask'. split; [exact Hloop |]. split; [exact Hlen |].
    split; [exact Hrange |].
    intros c w0 Hc. destruct (Hbits c w0 Hc) as (w & Hw & Hwb).
    exists w. split; [exact Hw |]. intros b Hb. rewrite Hwb by lia.
    now rewrite take_ge by lia.
Qed.

(** [_set_mask] for a term that is full-domain or has a valid subset:
    the bit of the term is set in the words of the cells to which the
    term applies. *)
Lemma set_mask_spec `{Env} (st : cs_source_term_t) (k : Z) (mask : list Z) :
  0 <= k < cs_mask_bits -> k < 31 ->
  length mask = Z.to_nat (n_cells cs_cdo_quant) ->
  Forall (fun w => 0 <= w < 2 ^ cs_mask_bits) mask ->
  subset_valid st ->
  exists mask',
    _set_mask (Some st) k mask = Done mask' /\
    length mask' = length mask /\
    Forall (fun w => 0 <= w < 2 ^ cs_mask_bits) mask' /\
    forall (c : nat) (w0 : Z), mask !! c = Some w0 ->
      exists w, mask' !! c = Some w /\
        forall b, 0 <= b ->
          Z.testbit w b =
          Z.testbit w0 b || ((b =? k) && term_applies st (Z.of_nat c)).
Proof.
  intros Hk Hint Hlen Hrange Hvalid. unfold _set_mask, term_applies, full_domain.
  rewrite mask_of_id_Done by lia. cbn [mbind outcome_bind].
  destruct (flag_on (flag st) CS_FLAG_FULL_LOC) eqn:Hfull.
  - destruct (mark_cells k (seqZ 0 (n_cells cs_cdo_quant))
                (fun i cell_mask => upd cell_mask i
                   (fun w => to_mask (Z.lor w (to_mask (Z.shiftl 1 k))))) mask)
      as (mask' & Hloop & Hlen' & Hrange' & Hbits); [exact Hk | | | exact Hrange |].
    + intros i t c Hi Hc. apply lookup_seqZ in Hc as [-> _].
      now replace (0 + Z.of_nat (Z.to_nat i)) with i by lia.
    + apply Forall_forall. intros c Hc. apply elem_of_seqZ in Hc. lia.
    + exists mask'. rewrite length_seqZ in Hloop. unfold for_range.
      rewrite Z.sub_0_r. split; [exact Hloop |]. split; [exact Hlen' |].
      split; [exact Hrange' |].
      intros c w0 Hc. destruct (Hbits c w0 Hc) as (w & Hw & Hwb).
      exists w. split; [exact Hw |]. intros b Hb. rewrite Hwb by lia.
      rewrite bool_decide_true; [reflexivity |].
      apply elem_of_seqZ. apply lookup_lt_Some in Hc. lia.
  - destruct Hvalid as [Hf | [(ids & Hids & Hn) Hin]];
      [unfold full_domain in Hf; congruence |].
    assert (Hcells : subset_cells st =
                     take (Z.to_nat (cs_mesh_location_get_n_elts (ml_id st))) ids)
      by (unfold subset_cells; now rewrite Hids).
    rewrite Hids. cbn [is_some]. rewrite assert_true. cbn [mbind outcome_bind].
    destruct (mark_cells k (subset_cells st)
                (fun i cell_mask => ids' ← deref (Some ids); c ← rd ids' i;
                   upd cell_mask c
                     (fun w => to_mask (Z.lor w (to_mask (Z.shiftl 1 k))))) mask)
      as (mask' & Hloop & Hlen' & Hrange' & Hbits); [exact Hk | | | exact Hrange |].
    + intros i t c Hi Hc. cbn [deref mbind outcome_bind].
      rewrite Hcells in Hc. apply lookup_take_Some in Hc as [Hc _].
      now rewrite (rd_Done ids i c Hi Hc).
    + apply Forall_forall. intros c Hc. apply Hin in Hc. lia.
    + exists mask'. unfold for_range. rewrite Z.sub_0_r.
      rewrite Hcells, length_take in Hloop.
      replace (Z.to_nat (cs_mesh_location_get_n_elts (ml_id st)) `min` length ids)%nat
        with (Z.to_nat (cs_mesh_location_get_n_elts (ml_id st))) in Hloop by lia.
      split; [exact Hloop |]. split; [exact Hlen' |]. split; [exact Hrange' |].
      exact Hbits.
Qed.

(** The loop of [cs_source_term_init] that builds the mask, for terms
    that are full-domain or have a valid subset. *)
Lemma mask_loop_spec `{Env} (n : Z) (sts : list cs_source_term_t) :
  0 <= n <= Z.of_nat (length sts) ->
  n <= cs_mask_bits -> n <= 31 ->
  (forall i st, term_at n sts i st -> subset_valid st) ->
  exists mask,
    for_range 0 n (fun st_id mask => st ← rd sts st_id; _set_mask (Some st) st_id mask)
      (replicate (Z.to_nat (n_cells cs_cdo_quant)) 0) = Done mask /\
    length mask = Z.to_nat (n_cells cs_cdo_quant) /\
    forall c, 0 <= c < n_cells cs_cdo_quant ->
      exists w, mask !! Z.to_nat c = Some w /\
        forall i, 0 <= i ->
          (Z.testbit w i = true <->
           exists st, term_at n sts i st /\ term_applies st c = true).
Proof.
  intros Hn Hbits Hint Hsub.
  pose (P := fun (k : Z) (t : list Z) =>
    length t = Z.to_nat (n_cells cs_cdo_quant) /\
    Forall (fun w => 0 <= w < 2 ^ cs_mask_bits) t /\
    forall c : nat, Z.of_nat c < n_cells cs_cdo_quant ->
      exists w, t !! c = Some w /\
        forall b, 0 <= b ->
          (Z.testbit w b = true <->
           exists st, term_at k sts b st /\ term_applies st (Z.of_nat c) = true)).
  destruct (for_range_inv P
              (fun st_id mask => st ← rd sts st_id; _set_mask (Some st) st_id mask)
              0 n (replicate (Z.to_nat (n_cells cs_cdo_quant)) 0))
    as (mask & Hloop & Hlen & _ & Hmask); [lia | | |].
  - split; [apply length_replicate |]. split.
    + apply Forall_replicate. split; [lia |]. apply Z.pow_pos_nonneg; lia.
    + intros c Hc. exists 0. split; [apply lookup_replicate_2; lia |].
      intros b Hb. rewrite Z.bits_0. split; [discriminate |].
      intros (st & [Hi _] & _). lia.
  - intros k t Hk (Hlen & Hrange & Hbitsk).
    destruct (lookup_lt_is_Some_2 sts (Z.to_nat k)) as [st Hst]; [lia |].
    rewrite (rd_Done sts k st) by (lia || exact Hst). cbn [mbind outcome_bind].
    assert (Hvalid : subset_valid st) by (apply (Hsub k); split; [lia | exact Hst]).
    destruct (set_mask_spec st k t) as (t' & Hset & Hlen' & Hrange' & Hbits');
      [lia | lia | exact Hlen | exact Hrange | exact Hvalid |].
    exists t'. split; [exact Hset |]. split; [congruence |]. split; [exact Hrange' |].
    intros c Hc. destruct (Hbitsk c Hc) as (w0 & Hw0 & Hold).
    destruct (Hbits' c w0 Hw0) as (w & Hw & Hnew).
    exists w. split; [exact Hw |]. intros b Hb. rewrite Hnew by exact Hb.
    rewrite orb_true_iff, andb_true_iff, Z.eqb_eq, (Hold b Hb). split.
    + intros [(st' & [Hi Hst'] & Happ) | [-> Happ]].
      * exists st'. split; [split; [lia | exact Hst'] | exact Happ].
      * exists st. split; [split; [lia | exact Hst] | exact Happ].
    + intros (st' & [Hi Hst'] & Happ).
      destruct (decide (b = k)) as [-> | Hne].
      * right. rewrite Hst in Hst'. injection Hst' as <-. auto.
      * left. exists st'. split; [split; [lia | exact Hst'] | exact Happ].
  - exists mask. split; [exact Hloop |]. split; [exact Hlen |].
    intros c Hc. destruct (Hmask (Z.to_nat c)) as (w & Hw & Hb); [lia |].
    exists w. split; [exact Hw |].
    intros i Hi. rewrite (Hb i Hi). now replace (Z.of_nat (Z.to_nat c)) with c by lia.
Qed.

(** C3.  For a registry whose terms have an evaluator and a subset that
    lies in the mesh, and of which one term at least is not full-domain,
    [cs_source_term_init] returns a mask of one word per cell in which,
    for every cell [c] and every bit [i], the bit is set if and only if
    [i] is the id of a term that applies to [c] (the term is full-domain,
    or [c] is in its subset). *)
Theorem cell_mask_bits `{Env} (scheme : cs_space_scheme_t) (n : Z)
    (sts : list cs_source_term_t)
    (compute_source : list (option cs_source_term_cellwise_t)) (sys_flag : Z) :
  registry_sized n sts compute_source ->
  mask_fits ->
  (forall i st, term_at n sts i st ->
     support_declared st /\ is_Some (term_evaluator scheme st) /\
     subset_valid st) ->
  (exists i st, term_at n sts i st /\ full_domain st = false) ->
  exists cs sf mask,
    cs_source_term_init scheme n sts compute_source sys_flag
      = Done (cs, sf, Some mask) /\
    length mask = Z.to_nat (n_cells cs_cdo_quant) /\
    forall c, 0 <= c < n_cells cs_cdo_quant ->
      exists w, mask !! Z.to_nat c = Some w /\
        forall i, 0 <= i ->
          (Z.testbit w i = true <->
           exists st, term_at n sts i st /\ term_applies st c = true).
Proof.
  intros (Hn & Hsts & Hcs & Hshort) [Hbits Hint] Hterms Hpartial.
  unfold cs_source_term_init.
  destruct (Z.ltb_spec CS_N_MAX_SOURCE_TERMS n) as [Hlt | _]; [lia |].
  destruct (null_handles_Done compute_source Hcs Hshort) as (cs1 & Hnull & Hlen1).
  rewrite Hnull. cbn [mbind outcome_bind].
  destruct (Z.eqb_spec n 0) as [Hn0 | Hn0].
  { destruct Hpartial as (i & st & [Hi _] & _). lia. }
  destruct (init_loop_total scheme n sts cs1 sys_flag) as (cs & sf & nm & Hloop);
    [lia | lia | |].
  { intros i st Hi. destruct (Hterms i st Hi) as (Hs & He & _). auto. }
  rewrite Hloop. cbn [mbind outcome_bind]. cbv beta iota.
  destruct (init_loop_Done scheme n sts cs1 cs sys_flag sf nm) as (_ & _ & Hnm);
    [lia | exact Hloop |].
  rewrite (proj2 Hnm Hpartial).
  destruct (mask_loop_spec n sts) as (mask & Hmask & Hlen & Hw); [lia | lia | lia | |].
  { intros i st Hi. destruct (Hterms i st Hi) as (_ & _ & Hv). exact Hv. }
  rewrite Hmask. cbn [mbind outcome_bind].
  exists cs, sf, mask. split; [reflexivity |]. split; [exact Hlen | exact Hw].
Qed.

Lemma cell_mask_bits_witness :
  exists cs sf mask,
    @cs_source_term_init Example.env CS_SPACE_SCHEME_CDOVB 2 Example.registry
       Example.no_handles 0 = Done (cs, sf, Some mask) /\
    length mask = Z.to_nat (n_cells (@cs_cdo_quant Example.env)) /\
    forall c, 0 <= c < n_cells (@cs_cdo_quant Example.env) ->
      exists w, mask !! Z.to_nat c = Some w /\
        forall i, 0 <= i ->
          (Z.testbit w i = true <->
           exists st, term_at 2 Example.registry i st /\
                      @term_applies Example.env st c = true).
Proof.
  apply (@cell_mask_bits Example.env CS_SPACE_SCHEME_CDOVB 2 Example.registry
           Example.no_handles 0).
  - repeat split; cbn; lia.
  - split; cbn; lia.
  - intros i st [Hi Hst].
    assert (Hc : i = 0 \/ i = 1) by lia.
    destruct Hc as [-> | ->]; cbn in Hst; injection Hst as <-.
    + split; [left; reflexivity |]. split; [eexists; reflexivity |].
      right. split.
      * exists [0; 2]. split; [reflexivity | cbn; lia].
      * intros c Hc. cbn in Hc.
        apply elem_of_cons in Hc as [-> | Hc]; [cbn; lia |].
        apply elem_of_cons in Hc as [-> | Hc]; [cbn; lia |].
        now apply elem_of_nil in Hc.
    + split; [left; reflexivity |]. split; [eexists; reflexivity |].
      left. reflexivity.
  - exists 0, (Example.density_on 1). repeat split; cbn; lia.
Defined.









(* ================================================================== *)
(** ** Terms on the whole mesh: no mask *)

(** C4.  When every term of the registry is full-domain (and has an
    evaluator), [cs_source_term_init] returns the NULL mask; and with the
    handles it returns, for every cell, the cellwise driver gives the same
    outcome, builder and buffer through the NULL mask as through any mask
    in which the bits of all the terms are set in every word. *)
Theorem full_domain_no_mask `{Env} (scheme : cs_space_scheme_t) (n : Z)
    (sts : list cs_source_term_t)
    (compute_source : list (option cs_source_term_cellwise_t)) (sys_flag : Z) :
  registry_sized n sts compute_source ->
  mask_fits ->
  (forall i st, term_at n sts i st ->
     support_declared st /\ is_Some (term_evaluator scheme st) /\
     full_domain st = true) ->
  exists cs sf,
    cs_source_term_init scheme n sts compute_source sys_flag = Done (cs, sf, None) /\
    forall (cm : cs_cell_mesh_t) (flag_sys : Z) (cb : cs_cell_builder_t)
           (csys : cs_cell_sys_t) (mask : list Z),
      0 <= c_id cm < Z.of_nat (length mask) ->
      Forall (fun w => forall i, 0 <= i < n -> Z.testbit w i = true) mask ->
      cs_source_term_compute_cellwise n sts cm flag_sys None cs cb csys =
      cs_source_term_compute_cellwise n sts cm flag_sys (Some mask) cs cb csys.
Proof.
  intros (Hn & Hsts & Hcs & Hshort) [Hbits Hint] Hterms.
  assert (Hequiv : forall cs (cm : cs_cell_mesh_t) (flag_sys : Z)
                     (cb : cs_cell_builder_t) (csys : cs_cell_sys_t)
                     (mask : list Z),
    0 <= c_id cm < Z.of_nat (length mask) ->
    Forall (fun w => forall i, 0 <= i < n -> Z.testbit w i = true) mask ->
    cs_source_term_compute_cellwise n sts cm flag_sys None cs cb csys =
    cs_source_term_compute_cellwise n sts cm flag_sys (Some mask) cs cb csys).
  { intros cs cm flag_sys cb csys mask Hc Hones.
    unfold cs_source_term_compute_cellwise.
    destruct (for_short (n_dofs csys) _ (source csys)) as [src | | |];
      cbn [mbind outcome_bind]; try reflexivity.
    destruct (flag_on flag_sys CS_FLAG_SYS_SOURCETERM); [| reflexivity].
    f_equal. rewrite !for_short_range by lia.
    unfold for_range. apply for_loop_ext. intros i t Hi.
    destruct (lookup_lt_is_Some_2 mask (Z.to_nat (c_id cm))) as [w Hw]; [lia |].
    rewrite mask_of_id_Done by lia. cbn [mbind outcome_bind].
    rewrite (rd_Done mask (c_id cm) w) by (lia || exact Hw).
    cbn [mbind outcome_bind]. rewrite mask_bit_test by lia.
    rewrite (proj1 (Forall_lookup _ _) Hones _ _ Hw) by lia. reflexivity. }
  unfold cs_source_term_init.
  destruct (Z.ltb_spec CS_N_MAX_SOURCE_TERMS n) as [Hlt | _]; [lia |].
  destruct (null_handles_Done compute_source Hcs Hshort) as (cs1 & Hnull & Hlen1).
  rewrite Hnull. cbn [mbind outcome_bind].
  destruct (Z.eqb_spec n 0) as [Hn0 | Hn0].
  { exists cs1, sys_flag. split; [reflexivity | apply Hequiv]. }
  destruct (init_loop_total scheme n sts cs1 sys_flag) as (cs & sf & nm & Hloop);
    [lia | lia | |].
  { intros i st Hi. destruct (Hterms i st Hi) as (Hs & He & _). auto. }
  rewrite Hloop. cbn [mbind outcome_bind]. cbv beta iota.
  destruct (init_loop_Done scheme n sts cs1 cs sys_flag sf nm) as (_ & _ & Hnm);
    [lia | exact Hloop |].
  destruct nm.
  - destruct (proj1 Hnm eq_refl) as (i & st & Hi & Hf).
    destruct (Hterms i st Hi) as (_ & _ & Hfull). congruence.
  - exists cs, sf. split; [reflexivity | apply Hequiv].
Qed.

Lemma full_domain_no_mask_witness :
  exists cs sf,
    @cs_source_term_init Example.env CS_SPACE_SCHEME_CDOVB 2
       Example.registry_full Example.no_handles 0 = Done (cs, sf, None) /\
    forall (cm : cs_cell_mesh_t) (flag_sys : Z) (cb : cs_cell_builder_t)
           (csys : cs_cell_sys_t) (mask : list Z),
      0 <= c_id cm < Z.of_nat (length mask) ->
      Forall (fun w => forall i, 0 <= i < 2 -> Z.testbit w i = true) mask ->
      @cs_source_term_compute_cellwise Example.env 2 Example.registry_full cm
         flag_sys None cs cb csys =
      @cs_source_term_compute_cellwise Example.env 2 Example.registry_full cm
         flag_sys (Some mask) cs cb csys.
Proof.
  apply (@full_domain_no_mask Example.env CS_SPACE_SCHEME_CDOVB 2
           Example.registry_full Example.no_handles 0).
  - repeat split; cbn; lia.
  - split; cbn; lia.
  - intros i st [Hi Hst].
    assert (Hc : i = 0 \/ i = 1) by lia.
    destruct Hc as [-> | ->]; cbn in Hst; injection Hst as <-;
      (split; [left; reflexivity |]; split; [eexists; reflexivity | reflexivity]).
Defined.


(* ================================================================== *)
(** ** Destruction of the registry *)

Lemma BFT_FREE_live (p : block) (heap : gset block) :
  p ∈ heap -> BFT_FREE (Some p) heap = Done (heap ∖ {[p]}).
Proof. intros Hp. unfold BFT_FREE. now rewrite decide_True by exact Hp. Qed.

(** The released blocks: the names, and the arrays of the terms that own
    them. *)
Lemma elem_of_released `{Env} (l : list cs_source_term_t) (p : block) :
  p ∈ released l <->
  exists st, st ∈ l /\
    (name st = Some p \/
     (flag_on (state (array_desc st)) CS_FLAG_STATE_OWNER = true /\
      array st = Some p)).
Proof.
  unfold released. rewrite list_elem_of_In, in_flat_map. split.
  - intros (st & Hst & Hp). exists st. split; [now apply list_elem_of_In |].
    apply list_elem_of_In, elem_of_app in Hp as [Hp | Hp].
    + left. destruct (name st) as [b |]; [| now apply elem_of_nil in Hp].
      apply list_elem_of_singleton in Hp. now subst.
    + right. destruct (flag_on _ _); [| now apply elem_of_nil in Hp].
      split; [reflexivity |].
      destruct (array st) as [b |]; [| now apply elem_of_nil in Hp].
      apply list_elem_of_singleton in Hp. now subst.
  - intros (st & Hst & Hp). exists st. split; [now apply list_elem_of_In |].
    apply list_elem_of_In, elem_of_app. destruct Hp as [Hp | [Ho Hp]].
    + left. rewrite Hp. now apply list_elem_of_singleton.
    + right. rewrite Ho, Hp. now apply list_elem_of_singleton.
Qed.

(** The loop of the destruction releases the blocks of the terms it goes
    through, when these are distinct blocks of the heap. *)
Lemma destroy_loop `{Env} (pre mid post : list cs_source_term_t)
    (heap : gset block) :
  NoDup (released mid) ->
  (forall p, p ∈ released mid -> p ∈ heap) ->
  for_loop (length mid) (Z.of_nat (length pre))
    (fun st_id heap =>
       st ← rd (pre ++ mid ++ post) st_id;
       heap ← BFT_FREE (name st) heap;
       if flag_on (state (array_desc st)) CS_FLAG_STATE_OWNER then
         if is_some (array st) then BFT_FREE (array st) heap else Done heap
       else Done heap) heap
  = Done (heap ∖ list_to_set (released mid)).
Proof.
  revert pre heap. induction mid as [| st mid IH]; intros pre heap Hnd Hlive.
  - cbn. f_equal. set_solver.
  - cbn [length for_loop].
    rewrite (rd_Done (pre ++ (st :: mid) ++ post) (Z.of_nat (length pre)) st);
      [| lia | rewrite Nat2Z.id; now apply list_lookup_middle].
    cbn [mbind outcome_bind].
    assert (Hshift : forall h,
      for_loop (length mid) (Z.of_nat (length pre) + 1)
        (fun st_id heap =>
           st ← rd (pre ++ (st :: mid) ++ post) st_id;
           heap ← BFT_FREE (name st) heap;
           if flag_on (state (array_desc st)) CS_FLAG_STATE_OWNER then
             if is_some (array st) then BFT_FREE (array st) heap else Done heap
           else Done heap) h
      = for_loop (length mid) (Z.of_nat (length (pre ++ [st])))
        (fun st_id heap =>
           st ← rd ((pre ++ [st]) ++ mid ++ post) st_id;
           heap ← BFT_FREE (name st) heap;
           if flag_on (state (array_desc st)) CS_FLAG_STATE_OWNER then
             if is_some (array st) then BFT_FREE (array st) heap else Done heap
           else Done heap) h).
    { intros h. rewrite length_app. cbn [length].
      replace (Z.of_nat (length pre + 1)) with (Z.of_nat (length pre) + 1) by lia.
      now rewrite <- (app_assoc pre [st]). }
    unfold released in Hnd, Hlive |- *. cbn [flat_map] in Hnd, Hlive |- *.
    fold (released mid) in Hnd, Hlive |- *.
    destruct (name st) as [p |], (flag_on (state (array_desc st)) CS_FLAG_STATE_OWNER),
      (array st) as [q |]; cbn [app is_some] in Hnd, Hlive |- *.
    + apply NoDup_cons in Hnd as [Hp Hnd]. apply NoDup_cons in Hnd as [Hq Hnd].
      rewrite BFT_FREE_live by (apply Hlive; set_solver).
      cbn [mbind outcome_bind].
      rewrite BFT_FREE_live by (pose proof (Hlive q); set_solver).
      cbn [mbind outcome_bind]. rewrite Hshift, IH; [f_equal; set_solver | exact Hnd |].
      intros r Hr. pose proof (Hlive r). set_solver.
    + apply NoDup_cons in Hnd as [Hp Hnd].
      rewrite BFT_FREE_live by (apply Hlive; set_solver).
      cbn [mbind outcome_bind]. rewrite Hshift, IH; [f_equal; set_solver | exact Hnd |].
      intros r Hr. pose proof (Hlive r). set_solver.
    + apply NoDup_cons in Hnd as [Hp Hnd].
      rewrite BFT_FREE_live by (apply Hlive; set_solver).
      cbn [mbind outcome_bind]. rewrite Hshift, IH; [f_equal; set_solver | exact Hnd |].
      intros r Hr. pose proof (Hlive r). set_solver.
    + apply NoDup_cons in Hnd as [Hp Hnd].
      rewrite BFT_FREE_live by (apply Hlive; set_solver).
      cbn [mbind outcome_bind]. rewrite Hshift, IH; [f_equal; set_solver | exact Hnd |].
      intros r Hr. pose proof (Hlive r). set_solver.
    + apply NoDup_cons in Hnd as [Hq Hnd].
      change (BFT_FREE None heap) with (Done heap). cbn [mbind outcome_bind].
      rewrite BFT_FREE_live by (apply Hlive; set_solver).
      cbn [mbind outcome_bind]. rewrite Hshift, IH; [f_equal; set_solver | exact Hnd |].
      intros r Hr. pose proof (Hlive r). set_solver.
    + cbn [BFT_FREE mbind outcome_bind].
      rewrite Hshift, IH; [f_equal; set_solver | exact Hnd | exact Hlive].
    + cbn [BFT_FREE mbind outcome_bind].
      rewrite Hshift, IH; [f_equal; set_solver | exact Hnd | exact Hlive].
    + cbn [BFT_FREE mbind outcome_bind].
      rewrite Hshift, IH; [f_equal; set_solver | exact Hnd | exact Hlive].
Qed.

(** C8.  For an array of [n] source terms whose names and owned arrays
    are distinct blocks of the heap, [cs_source_term_destroy] returns NULL
    and leaves the heap without the block of the array of terms, without
    the names, and without the arrays of the terms whose descriptor has the
    owner flag: any other block, the array of a term that borrows it among
    them, is still there.  On a NULL array of terms it returns NULL and
    leaves the heap as it is. *)
Theorem destroy_releases_owned `{Env} (n : Z) (b : block)
    (sts : list cs_source_term_t) (heap : gset block) :
  0 <= n <= Z.of_nat (length sts) ->
  NoDup (b :: released (take (Z.to_nat n) sts)) ->
  (forall p, p ∈ b :: released (take (Z.to_nat n) sts) -> p ∈ heap) ->
  (exists heap',
     cs_source_term_destroy n (Some (b, sts)) heap = Done (None, heap') /\
     forall p, p ∈ heap' <->
       p ∈ heap /\ p <> b /\
       forall i st, term_at n sts i st ->
         name st <> Some p /\ (array st = Some p -> borrowed st)) /\
  cs_source_term_destroy n None heap = Done (None, heap).
Proof.
  intros Hn Hnd Hlive. split; [| reflexivity].
  apply NoDup_cons in Hnd as [Hb Hnd].
  exists (heap ∖ list_to_set (released (take (Z.to_nat n) sts)) ∖ {[b]}). split.
  - unfold cs_source_term_destroy, for_range.
    pose proof (destroy_loop [] (take (Z.to_nat n) sts) (drop (Z.to_nat n) sts)
                  heap Hnd) as Hloop.
    rewrite length_take in Hloop.
    replace (Z.to_nat n `min` length sts)%nat with (Z.to_nat (n - 0)) in Hloop by lia.
    cbn [app length] in Hloop. change (Z.of_nat 0) with 0 in Hloop.
    rewrite take_drop in Hloop.
    rewrite Hloop by (intros p Hp; apply Hlive; now apply elem_of_cons; right).
    cbn [mbind outcome_bind]. rewrite BFT_FREE_live; [reflexivity |].
    apply elem_of_difference. split.
    + apply Hlive. apply elem_of_cons. now left.
    + rewrite elem_of_list_to_set. exact Hb.
  - intros p. rewrite !elem_of_difference, elem_of_list_to_set, elem_of_singleton.
    rewrite elem_of_released. split.
    + intros [[Hp Hrel] Hpb]. split; [exact Hp |]. split; [exact Hpb |].
      intros i st [Hi Hst].
      assert (Hin : st ∈ take (Z.to_nat n) sts).
      { apply list_elem_of_lookup. exists (Z.to_nat i).
        apply lookup_take_Some. split; [exact Hst | lia]. }
      split.
      * intros Hname. apply Hrel. exists st. auto.
      * intros Harr. unfold borrowed.
        destruct (flag_on (state (array_desc st)) CS_FLAG_STATE_OWNER) eqn:Ho;
          [| reflexivity].
        destruct Hrel. exists st. auto.
    + intros (Hp & Hpb & Hterms). split; [split; [exact Hp |] | exact Hpb].
      intros (st & Hin & Hcase).
      apply list_elem_of_lookup in Hin as [j Hj].
      apply lookup_take_Some in Hj as [Hj Hjn].
      destruct (Hterms (Z.of_nat j) st) as [Hname Harr].
      { split; [lia | now rewrite Nat2Z.id]. }
      destruct Hcase as [Hc | [Ho Hc]]; [contradiction |].
      specialize (Harr Hc). unfold borrowed in Harr. congruence.
Qed.

Lemma destroy_releases_owned_witness :
  (exists heap',
     @cs_source_term_destroy Example.env 2
        (Some (1%positive, Example.owned_and_borrowed)) Example.heap
     = Done (None, heap') /\
     forall p, p ∈ heap' <->
       p ∈ Example.heap /\ p <> 1%positive /\
       forall i st, term_at 2 Example.owned_and_borrowed i st ->
         name st <> Some p /\ (array st = Some p -> @borrowed Example.env st)) /\
  @cs_source_term_destroy Example.env 2 None Example.heap = Done (None, Example.heap).
Proof.
  apply (@destroy_releases_owned Example.env 2 1%positive
           Example.owned_and_borrowed Example.heap).
  - cbn. lia.
  - replace (@released Example.env (take (Z.to_nat 2) Example.owned_and_borrowed))
      with [2%positive; 3%positive; 4%positive] by (vm_compute; reflexivity).
    repeat (apply NoDup_cons; split;
            [rewrite ?elem_of_cons, elem_of_nil; intuition discriminate |]).
    apply NoDup_nil_2.
  - replace (@released Example.env (take (Z.to_nat 2) Example.owned_and_borrowed))
      with [2%positive; 3%positive; 4%positive] by (vm_compute; reflexivity).
    intros p Hp. unfold Example.heap.
    rewrite !elem_of_cons, elem_of_nil in Hp.
    rewrite !elem_of_union, !elem_of_singleton. intuition.
Defined.

(** On the registry of the examples: the blocks 1 to 4 are released and
    block 5, the borrowed array, is still in the heap. *)
Lemma destroy_example :
  @cs_source_term_destroy Example.env 2
     (Some (1%positive, Example.owned_and_borrowed)) Example.heap
  = Done (None, {[ 5%positive ]}).
Proof. vm_compute. reflexivity. Qed.

(* ================================================================== *)
(** ** More on the initialization *)

(** A loop that stores one value in the first [n] entries. *)
Lemma for_range_fill {A : Type} (n : Z) (x : A) (l : list A) :
  0 <= n <= Z.of_nat (length l) ->
  for_range 0 n (fun i l => wr l i x) l
  = Done (replicate (Z.to_nat n) x ++ drop (Z.to_nat n) l).
Proof.
  intros Hn.
  pose (P := fun (i : Z) (t : list A) =>
    length t = length l /\
    forall v : nat, t !! v = if decide (Z.of_nat v < i) then Some x else l !! v).
  destruct (for_range_inv P (fun i l => wr l i x) 0 n l)
    as (t & Hloop & Hlen & Hval).
  - lia.
  - split; [reflexivity |]. intros v.
    destruct (decide (Z.of_nat v < 0)); [lia | reflexivity].
  - intros i t Hi [Hlt Ht]. exists (<[Z.to_nat i := x]> t). split.
    + apply wr_Done. lia.
    + split; [now rewrite length_insert |]. intros v.
      destruct (decide (v = Z.to_nat i)) as [-> | Hne].
      * rewrite list_lookup_insert_eq by lia.
        destruct (decide (Z.of_nat (Z.to_nat i) < i + 1)); [reflexivity | lia].
      * rewrite list_lookup_insert_ne by congruence. rewrite Ht.
        destruct (decide (Z.of_nat v < i)), (decide (Z.of_nat v < i + 1));
          try reflexivity; lia.
  - rewrite Hloop. f_equal. apply list_eq. intros v. rewrite Hval.
    destruct (decide (Z.of_nat v < n)) as [Hv | Hv].
    + rewrite lookup_app_l by (rewrite length_replicate; lia).
      symmetry. apply lookup_replicate_2. lia.
    + rewrite lookup_app_r by (rewrite length_replicate; lia).
      rewrite length_replicate, lookup_drop. f_equal. lia.
Qed.

(** When the loop that sets the handles to NULL returns, the table had
    room for them. *)
Lemma null_handles_inv `{Env}
    (cs0 cs1 : list (option cs_source_term_cellwise_t)) :
  for_short CS_N_MAX_SOURCE_TERMS (fun i cs => wr cs i None) cs0 = Done cs1 ->
  cs1 = nulled CS_N_MAX_SOURCE_TERMS cs0 /\
  CS_N_MAX_SOURCE_TERMS <= 32767 /\
  (CS_N_MAX_SOURCE_TERMS <= 0 \/
   CS_N_MAX_SOURCE_TERMS <= Z.of_nat (length cs0)).
Proof.
  unfold for_short.
  destruct (Z.ltb_spec 32767 CS_N_MAX_SOURCE_TERMS) as [| Hshort]; [discriminate |].
  intros Hloop.
  destruct (Z.le_gt_cases CS_N_MAX_SOURCE_TERMS 0) as [Hneg | Hpos].
  - rewrite for_range_empty in Hloop by lia. injection Hloop as <-.
    split; [| split; [exact Hshort | now left]].
    unfold nulled. replace (Z.to_nat CS_N_MAX_SOURCE_TERMS) with O by lia.
    reflexivity.
  - assert (Hroom : CS_N_MAX_SOURCE_TERMS <= Z.of_nat (length cs0)).
    { apply (for_range_Done_inv
               (fun i (t : list (option cs_source_term_cellwise_t)) =>
                  length t = length cs0 /\ i <= Z.of_nat (length cs0))
               (fun i cs => wr cs i None) 0 CS_N_MAX_SOURCE_TERMS cs0 cs1);
        [lia | exact Hloop | |].
      - split; [reflexivity | lia].
      - intros i t t' Hi [Hlen _] Hw. apply wr_inv in Hw as [Hin ->].
        rewrite length_insert. split; [exact Hlen | lia]. }
    rewrite for_range_fill in Hloop by lia. injection Hloop as <-.
    split; [reflexivity | split; [exact Hshort | now right]].
Qed.

Lemma nulled_length (n : Z) (cs : list (option cs_source_term_cellwise_t)) :
  n <= 0 \/ n <= Z.of_nat (length cs) -> length (nulled n cs) = length cs.
Proof.
  intros Hn. unfold nulled. rewrite length_app, length_replicate, length_drop. lia.
Qed.

Lemma nulled_lookup (n : Z) (cs : list (option cs_source_term_cellwise_t))
    (i : nat) :
  n <= 0 \/ n <= Z.of_nat (length cs) ->
  nulled n cs !! i = if decide (Z.of_nat i < n) then Some None else cs !! i.
Proof.
  intros Hn. unfold nulled. destruct (decide (Z.of_nat i < n)) as [Hi | Hi].
  - rewrite lookup_app_l by (rewrite length_replicate; lia).
    apply lookup_replicate_2. lia.
  - rewrite lookup_app_r by (rewrite length_replicate; lia).
    rewrite length_replicate, lookup_drop. f_equal. lia.
Qed.

(** The first turn of a loop. *)
Lemma for_range_head {St : Type} (body : Z -> St -> outcome St) (lo hi : Z)
    (s : St) :
  lo < hi ->
  for_range lo hi body s = body lo s ≫= for_range (lo + 1) hi body.
Proof.
  intros Hlt. unfold for_range.
  replace (Z.to_nat (hi - lo)) with (S (Z.to_nat (hi - (lo + 1)))) by lia.
  reflexivity.
Qed.

(** X1.  With no source term, [cs_source_term_init] returns for every
    space scheme, also those for which no evaluator exists: the
    [CS_N_MAX_SOURCE_TERMS] handles are NULL, the rest of the table, the
    flag of the system and the registry are not looked at, and there is no
    mask. *)
Theorem init_no_terms `{Env} (scheme : cs_space_scheme_t)
    (sts : list cs_source_term_t)
    (compute_source : list (option cs_source_term_cellwise_t)) (sys_flag : Z) :
  0 <= CS_N_MAX_SOURCE_TERMS <= Z.of_nat (length compute_source) ->
  CS_N_MAX_SOURCE_TERMS <= 32767 ->
  cs_source_term_init scheme 0 sts compute_source sys_flag
  = Done (nulled CS_N_MAX_SOURCE_TERMS compute_source, sys_flag, None).
Proof.
  intros Hmax Hshort. unfold cs_source_term_init.
  destruct (Z.ltb_spec CS_N_MAX_SOURCE_TERMS 0) as [| _]; [lia |].
  rewrite for_short_range by exact Hshort. rewrite for_range_fill by lia.
  reflexivity.
Qed.

Lemma init_no_terms_witness :
  @cs_source_term_init Example.env CS_SPACE_SCHEME_HHO 0 [] Example.no_handles 5
  = Done (nulled (@CS_N_MAX_SOURCE_TERMS Example.env) Example.no_handles, 5, None).
Proof.
  apply (@init_no_terms Example.env CS_SPACE_SCHEME_HHO [] Example.no_handles 5);
    cbn; lia.
Defined.

(** X2.  Under the face-based and the HHO schemes, [cs_source_term_init]
    stops on the error of the invalid space scheme as soon as the registry
    has a term, whatever the term is. *)
Theorem init_rejects_other_schemes `{Env} (scheme : cs_space_scheme_t) (n : Z)
    (sts : list cs_source_term_t)
    (compute_source : list (option cs_source_term_cellwise_t)) (sys_flag : Z) :
  scheme = CS_SPACE_SCHEME_CDOFB \/ scheme = CS_SPACE_SCHEME_HHO ->
  registry_sized n sts compute_source ->
  1 <= n ->
  cs_source_term_init scheme n sts compute_source sys_flag
  = Fatal err_invalid_scheme.
Proof.
  intros Hscheme (Hn & Hsts & Hcs & Hshort) Hpos. unfold cs_source_term_init.
  destruct (Z.ltb_spec CS_N_MAX_SOURCE_TERMS n) as [| _]; [lia |].
  rewrite for_short_range by exact Hshort. rewrite for_range_fill by lia.
  cbn [mbind outcome_bind].
  destruct (Z.eqb_spec n 0) as [| _]; [lia |].
  rewrite (for_range_head (init_term scheme sts)) by lia.
  destruct (lookup_lt_is_Some_2 sts (Z.to_nat 0)) as [st Hst]; [lia |].
  assert (Hturn : forall s, init_term scheme sts 0 s = Fatal err_invalid_scheme).
  { intros [[c f] nm]. unfold init_term.
    rewrite (rd_Done sts 0 st) by (lia || exact Hst). cbn [mbind outcome_bind].
    destruct Hscheme as [-> | ->]; reflexivity. }
  rewrite Hturn. reflexivity.
Qed.

Lemma init_rejects_other_schemes_witness :
  @cs_source_term_init Example.env CS_SPACE_SCHEME_CDOFB 2 Example.registry_full
     Example.no_handles 0
  = Fatal err_invalid_scheme.
Proof.
  apply (@init_rejects_other_schemes Example.env CS_SPACE_SCHEME_CDOFB 2
           Example.registry_full Example.no_handles 0).
  - now left.
  - repeat split; cbn; lia.
  - lia.
Defined.

Lemma primal_terms_succ `{Env} (k : Z) (sts : list cs_source_term_t)
    (st : cs_source_term_t) :
  0 <= k -> sts !! Z.to_nat k = Some st ->
  primal_terms (k + 1) sts
  = primal_terms k sts || flag_on (flag st) CS_FLAG_PRIMAL.
Proof.
  intros Hk Hst. unfold primal_terms.
  replace (Z.to_nat (k + 1)) with (S (Z.to_nat k)) by lia.
  rewrite (take_S_r _ _ st) by exact Hst. rewrite existsb_app. cbn [existsb].
  now rewrite orb_false_r.
Qed.

Lemma system_flag_idem `{Env} (n : Z) (sts : list cs_source_term_t) (f : Z) :
  system_flag n sts (system_flag n sts f) = system_flag n sts f.
Proof.
  unfold system_flag. destruct (primal_terms n sts); [| reflexivity].
  now rewrite <- Z.lor_assoc, Z.lor_diag.
Qed.

(** What the loop on the terms leaves of its state: the flag of the
    system, and the handles from [n] on. *)
Lemma init_loop_frame `{Env} (scheme : cs_space_scheme_t) (n : Z)
    (sts : list cs_source_term_t)
    (cs0 cs : list (option cs_source_term_cellwise_t)) (sf0 sf : Z)
    (nm0 nm : bool) :
  for_range 0 n (init_term scheme sts) (cs0, sf0, nm0) = Done (cs, sf, nm) ->
  sf = system_flag n sts sf0 /\
  (forall i : nat, n <= Z.of_nat i -> cs !! i = cs0 !! i) /\
  (0 <= n -> n <= Z.of_nat (length sts)).
Proof.
  intros Hloop. destruct (Z.le_gt_cases 0 n) as [Hn | Hn].
  - pose (P := fun (k : Z) (s : list (option cs_source_term_cellwise_t) * Z * bool) =>
      s.1.2 = system_flag k sts sf0 /\
      (forall i : nat, k <= Z.of_nat i -> s.1.1 !! i = cs0 !! i) /\
      k <= Z.of_nat (length sts)).
    destruct (for_range_Done_inv P (init_term scheme sts) 0 n _ _ Hn Hloop)
      as (Hsf & Hframe & Hlen).
    + unfold P. cbv beta iota delta [fst snd]. split; [reflexivity |].
      split; [reflexivity | lia].
    + intros k [[c f] b] t' Hk (Hf & Hc & _). cbn in Hf, Hc. unfold init_term.
      destruct (rd sts k) as [st | | |] eqn:Hst; cbn [mbind outcome_bind];
        try discriminate.
      apply rd_inv in Hst as [_ Hst].
      destruct (init_dispatch scheme st) as [h | | |];
        cbn [mbind outcome_bind]; try discriminate.
      destruct (wr c k (Some h)) as [c' | | |] eqn:Hw;
        cbn [mbind outcome_bind]; try discriminate.
      apply wr_inv in Hw as [Hkc ->]. intros [= <-]. unfold P.
      cbv beta iota delta [fst snd]. split; [| split].
      * unfold system_flag. rewrite (primal_terms_succ k sts st) by (lia || exact Hst).
        rewrite Hf. unfold system_flag.
        destruct (primal_terms k sts), (flag_on (flag st) CS_FLAG_PRIMAL);
          cbn [orb]; try reflexivity.
        now rewrite <- Z.lor_assoc, Z.lor_diag.
      * intros i Hi. rewrite list_lookup_insert_ne by lia. apply Hc. lia.
      * apply lookup_lt_Some in Hst. lia.
    + split; [exact Hsf | split; [exact Hframe | intros _; exact Hlen]].
  - rewrite for_range_empty in Hloop by lia. injection Hloop as <- <- <-.
    split; [| split; [reflexivity | lia]].
    unfold system_flag, primal_terms. now replace (Z.to_nat n) with O by lia.
Qed.

(** The loop on the terms does not read the flag of the system. *)
Lemma init_loop_flag_indep `{Env} (scheme : cs_space_scheme_t) (n : Z)
    (sts : list cs_source_term_t)
    (cs0 cs : list (option cs_source_term_cellwise_t)) (sf0 sf sf0' : Z)
    (nm0 nm : bool) :
  for_range 0 n (init_term scheme sts) (cs0, sf0, nm0) = Done (cs, sf, nm) ->
  for_range 0 n (init_term scheme sts) (cs0, sf0', nm0)
  = Done (cs, system_flag n sts sf0', nm).
Proof.
  intros Hloop.
  destruct (for_loop_rel
              (fun _ (s1 s2 : list (option cs_source_term_cellwise_t) * Z * bool) =>
                 s1.1.1 = s2.1.1 /\ s1.2 = s2.2)
              (init_term scheme sts) (Z.to_nat (n - 0)) 0
              (cs0, sf0, nm0) (cs0, sf0', nm0) (cs, sf, nm) Hloop)
    as ([[c' f'] b'] & Hloop' & Hc & Hb).
  - split; reflexivity.
  - intros k [[c1 f1] b1] [[c2 f2] b2] t1' _ [Hc Hb]. cbn in Hc, Hb. subst c2 b2.
    unfold init_term.
    destruct (rd sts k) as [st | | |]; cbn [mbind outcome_bind]; try discriminate.
    destruct (init_dispatch scheme st) as [h | | |];
      cbn [mbind outcome_bind]; try discriminate.
    destruct (wr c1 k (Some h)) as [c' | | |];
      cbn [mbind outcome_bind]; try discriminate.
    intros [= <-]. eexists. split; [reflexivity |]. split; reflexivity.
  - cbn in Hc, Hb. subst c' b'.
    destruct (init_loop_frame scheme n sts cs0 cs sf0' f' nm0 nm Hloop')
      as (-> & _). exact Hloop'.
Qed.

(** The steps of a run of [cs_source_term_init] that returns. *)
Lemma init_run_inv `{Env} (scheme : cs_space_scheme_t) (n : Z)
    (sts : list cs_source_term_t)
    (cs0 cs : list (option cs_source_term_cellwise_t)) (sf0 sf : Z)
    (m : option (list Z)) :
  cs_source_term_init scheme n sts cs0 sf0 = Done (cs, sf, m) ->
  n <= CS_N_MAX_SOURCE_TERMS /\ CS_N_MAX_SOURCE_TERMS <= 32767 /\
  (CS_N_MAX_SOURCE_TERMS <= 0 \/
   CS_N_MAX_SOURCE_TERMS <= Z.of_nat (length cs0)) /\
  exists nm,
    for_range 0 n (init_term scheme sts)
      (nulled CS_N_MAX_SOURCE_TERMS cs0, sf0, false) = Done (cs, sf, nm) /\
    if nm : bool
    then exists mask,
           for_range 0 n
             (fun st_id mask => st ← rd sts st_id; _set_mask (Some st) st_id mask)
             (replicate (Z.to_nat (n_cells cs_cdo_quant)) 0) = Done mask /\
           m = Some mask
    else m = None.
Proof.
  unfold cs_source_term_init.
  destruct (Z.ltb_spec CS_N_MAX_SOURCE_TERMS n) as [| Hmax]; [discriminate |].
  destruct (for_short CS_N_MAX_SOURCE_TERMS _ cs0) as [cs1 | | |] eqn:Hnull;
    cbn [mbind outcome_bind]; try discriminate.
  apply null_handles_inv in Hnull as (-> & Hshort & Hroom).
  enough (Hrest : (if n =? 0
                   then Done (nulled CS_N_MAX_SOURCE_TERMS cs0, sf0, None)
                   else
                     '(compute_source, sys_flag, need_mask) ←
                       for_range 0 n (init_term scheme sts)
                         (nulled CS_N_MAX_SOURCE_TERMS cs0, sf0, false);
                     if need_mask : bool then
                       mask ← for_range 0 n (fun st_id mask =>
                                st ← rd sts st_id;
                                _set_mask (Some st) st_id mask)
                              (replicate (Z.to_nat (n_cells cs_cdo_quant)) 0);
                       Done (compute_source, sys_flag, Some mask)
                     else Done (compute_source, sys_flag, None))
                  = Done (cs, sf, m) ->
                  exists nm,
                    for_range 0 n (init_term scheme sts)
                      (nulled CS_N_MAX_SOURCE_TERMS cs0, sf0, false)
                    = Done (cs, sf, nm) /\
                    if nm : bool
                    then exists mask,
                           for_range 0 n
                             (fun st_id mask =>
                                st ← rd sts st_id; _set_mask (Some st) st_id mask)
                             (replicate (Z.to_nat (n_cells cs_cdo_quant)) 0)
                           = Done mask /\
                           m = Some mask
                    else m = None).
  { intros Hrun. split; [exact Hmax |]. split; [exact Hshort |].
    split; [exact Hroom | exact (Hrest Hrun)]. }
  destruct (Z.eqb_spec n 0) as [-> | Hn0].
  - intros [= <- <- <-]. exists false. split; [| reflexivity].
    apply for_range_empty. lia.
  - destruct (for_range 0 n (init_term scheme sts) _) as [[[c f] nm] | | |];
      cbn [mbind outcome_bind]; try discriminate.
    destruct nm.
    + destruct (for_range 0 n _ (replicate _ 0)) as [mask | | |];
        cbn [mbind outcome_bind]; try discriminate.
      intros [= <- <- <-]. exists true. split; [reflexivity |].
      exists mask. split; reflexivity.
    + intros [= <- <- <-]. exists false. split; reflexivity.
Qed.

Lemma null_handles_run `{Env} (cs0 : list (option cs_source_term_cellwise_t)) :
  CS_N_MAX_SOURCE_TERMS <= 32767 ->
  CS_N_MAX_SOURCE_TERMS <= 0 \/
  CS_N_MAX_SOURCE_TERMS <= Z.of_nat (length cs0) ->
  for_short CS_N_MAX_SOURCE_TERMS (fun i cs => wr cs i None) cs0
  = Done (nulled CS_N_MAX_SOURCE_TERMS cs0).
Proof.
  intros Hshort Hroom. rewrite for_short_range by exact Hshort.
  destruct (Z.le_gt_cases CS_N_MAX_SOURCE_TERMS 0) as [Hneg | Hpos].
  - rewrite for_range_empty by lia. unfold nulled.
    now replace (Z.to_nat CS_N_MAX_SOURCE_TERMS) with O by lia.
  - apply for_range_fill. lia.
Qed.

(** X3.  When [cs_source_term_init] returns, the flag of the system is the
    one it was given, with the two bits of the local Hodge operator added
    if and only if one of the [n] terms is a potential; no bit is
    cleared and no other bit is set. *)
Theorem init_system_flag `{Env} (scheme : cs_space_scheme_t) (n : Z)
    (sts : list cs_source_term_t)
    (cs0 cs : list (option cs_source_term_cellwise_t)) (sf0 sf : Z)
    (m : option (list Z)) :
  cs_source_term_init scheme n sts cs0 sf0 = Done (cs, sf, m) ->
  sf = if primal_terms n sts
       then Z.lor sf0 (Z.lor CS_FLAG_SYS_HLOC_CONF CS_FLAG_SYS_SOURCES_HLOC)
       else sf0.
Proof.
  intros Hrun. apply init_run_inv in Hrun as (_ & _ & _ & nm & Hloop & _).
  now apply init_loop_frame in Hloop as [-> _].
Qed.

Lemma init_system_flag_witness :
  7 = (if @primal_terms Example.env 2 Cases.registry_mixed
       then Z.lor 1 (Z.lor (@CS_FLAG_SYS_HLOC_CONF Example.env)
                           (@CS_FLAG_SYS_SOURCES_HLOC Example.env))
       else 1).
Proof.
  refine (@init_system_flag Example.env CS_SPACE_SCHEME_CDOVB 2
            Cases.registry_mixed Example.no_handles _ 1 7 _ _).
  vm_compute. reflexivity.
Defined.

(** X4.  The table of handles that [cs_source_term_init] returns: the
    entry of each of the [n] terms is the evaluator of the decision table
    for it, the entries from [n] up to [CS_N_MAX_SOURCE_TERMS] are NULL,
    and what the caller's table holds beyond is left as it was. *)
Theorem init_handles_table `{Env} (scheme : cs_space_scheme_t) (n : Z)
    (sts : list cs_source_term_t)
    (cs0 cs : list (option cs_source_term_cellwise_t)) (sf0 sf : Z)
    (m : option (list Z)) :
  cs_source_term_init scheme n sts cs0 sf0 = Done (cs, sf, m) ->
  length cs = length cs0 /\
  forall i : nat,
    cs !! i =
      if decide (Z.of_nat i < n)
      then st ← sts !! i; Some (term_evaluator scheme st)
      else if decide (Z.of_nat i < CS_N_MAX_SOURCE_TERMS) then Some None
           else cs0 !! i.
Proof.
  intros Hrun.
  apply init_run_inv in Hrun as (Hmax & Hshort & Hroom & nm & Hloop & _).
  destruct (Z.le_gt_cases n 0) as [Hn | Hn].
  - rewrite for_range_empty in Hloop by lia. injection Hloop as <- _ _.
    split; [now apply nulled_length |]. intros i.
    destruct (decide (Z.of_nat i < n)); [lia |]. now apply nulled_lookup.
  - destruct (init_loop_frame _ _ _ _ _ _ _ _ _ Hloop) as (_ & Hframe & Hsts).
    destruct (init_loop_Done _ _ _ _ _ _ _ _ (Z.lt_le_incl _ _ Hn) Hloop) as (Hlen & Hh & _).
    split; [rewrite Hlen; now apply nulled_length |]. intros i.
    destruct (decide (Z.of_nat i < n)) as [Hi | Hi].
    + destruct (lookup_lt_is_Some_2 sts i) as [st Hst]; [lia |].
      destruct (Hh (Z.of_nat i) st) as (h & He & Hc).
      { split; [lia |]. now rewrite Nat2Z.id. }
      rewrite Nat2Z.id in Hc. rewrite Hc, Hst. cbn. now rewrite He.
    + rewrite Hframe by lia. now apply nulled_lookup.
Qed.

Lemma init_handles_table_witness :
  exists cs,
    length cs = length Example.no_handles /\
    forall i : nat,
      cs !! i =
        if decide (Z.of_nat i < 2)
        then st ← Cases.registry_mixed !! i;
             Some (@term_evaluator Example.env CS_SPACE_SCHEME_CDOVB st)
        else if decide (Z.of_nat i < @CS_N_MAX_SOURCE_TERMS Example.env)
             then Some None
             else Example.no_handles !! i.
Proof.
  eexists.
  refine (@init_handles_table Example.env CS_SPACE_SCHEME_CDOVB 2
            Cases.registry_mixed Example.no_handles _ 1 7 None _).
  vm_compute. reflexivity.
Defined.

(** X5.  [cs_source_term_init] can be run again on what it returned: the
    table of handles, the flag of the system and the mask come out the
    same. *)
Theorem init_twice `{Env} (scheme : cs_space_scheme_t) (n : Z)
    (sts : list cs_source_term_t)
    (cs0 cs : list (option cs_source_term_cellwise_t)) (sf0 sf : Z)
    (m : option (list Z)) :
  cs_source_term_init scheme n sts cs0 sf0 = Done (cs, sf, m) ->
  cs_source_term_init scheme n sts cs sf = Done (cs, sf, m).
Proof.
  intros Hrun.
  apply init_run_inv in Hrun as (Hmax & Hshort & Hroom & nm & Hloop & Hmask).
  pose proof (init_loop_frame _ _ _ _ _ _ _ _ _ Hloop) as (Hsf & Hframe & Hsts).
  assert (Hlen : length cs = length cs0).
  { destruct (Z.le_gt_cases n 0) as [Hn | Hn].
    - rewrite for_range_empty in Hloop by lia. injection Hloop as <- _ _.
      now apply nulled_length.
    - destruct (init_loop_Done _ _ _ _ _ _ _ _ (Z.lt_le_incl _ _ Hn) Hloop) as (-> & _).
      now apply nulled_length. }
  assert (Hnull : nulled CS_N_MAX_SOURCE_TERMS cs = nulled CS_N_MAX_SOURCE_TERMS cs0).
  { apply list_eq. intros i. rewrite !nulled_lookup by (rewrite ?Hlen; exact Hroom).
    destruct (decide (Z.of_nat i < CS_N_MAX_SOURCE_TERMS)) as [Hi | Hi];
      [reflexivity |].
    rewrite Hframe by lia. rewrite nulled_lookup by exact Hroom.
    destruct (decide (Z.of_nat i < CS_N_MAX_SOURCE_TERMS)); [lia | reflexivity]. }
  unfold cs_source_term_init.
  destruct (Z.ltb_spec CS_N_MAX_SOURCE_TERMS n) as [| _]; [lia |].
  rewrite null_handles_run by (rewrite ?Hlen; assumption).
  cbn [mbind outcome_bind]. rewrite Hnull.
  destruct (Z.eqb_spec n 0) as [-> | Hn0].
  - rewrite for_range_empty in Hloop by lia. injection Hloop as <- <- <-.
    rewrite Hmask. reflexivity.
  - rewrite (init_loop_flag_indep scheme n sts _ cs sf0 sf sf false nm Hloop).
    cbn [mbind outcome_bind]. rewrite Hsf, system_flag_idem.
    destruct nm.
    + destruct Hmask as (mask & -> & ->). reflexivity.
    + rewrite Hmask. reflexivity.
Qed.

Lemma init_twice_witness :
  exists cs sf m,
    @cs_source_term_init Example.env CS_SPACE_SCHEME_CDOVB 2 Example.registry
      Example.no_handles 1 = Done (cs, sf, m) /\
    @cs_source_term_init Example.env CS_SPACE_SCHEME_CDOVB 2 Example.registry
      cs sf = Done (cs, sf, m).
Proof.
  eexists _, _, _. split; [vm_compute; reflexivity |].
  apply (@init_twice Example.env CS_SPACE_SCHEME_CDOVB 2 Example.registry
           Example.no_handles _ 1 _ _).
  vm_compute. reflexivity.
Defined.

(* ================================================================== *)
(** ** The set-up followed by the assembly *)

Lemma filter_ext_elem {A : Type} (P Q : A -> Prop)
    `{forall x, Decision (P x)} `{forall x, Decision (Q x)} (l : list A) :
  (forall x, x ∈ l -> (P x <-> Q x)) -> filter P l = filter Q l.
Proof.
  induction l as [| a l IH]; intros Hext; [reflexivity |].
  rewrite !filter_cons.
  assert (Ha : P a <-> Q a) by (apply Hext; left).
  rewrite IH by (intros x Hx; apply Hext; now right).
  destruct (decide (P a)), (decide (Q a)); tauto.
Qed.

Lemma filter_all {A : Type} (P : A -> Prop) `{forall x, Decision (P x)}
    (l : list A) :
  Forall P l -> filter P l = l.
Proof.
  induction 1 as [| a l Ha _ IH]; [reflexivity |].
  rewrite filter_cons, IH. now destruct (decide (P a)).
Qed.

(** X6.  With the handles and the mask that [cs_source_term_init]
    returns, [cs_source_term_compute_cellwise] resets the buffer of the
    cell and then, for the ids of exactly the terms that apply to the
    cell (the full-domain ones and those whose subset holds the cell), in
    increasing order, fetches the handle of that rank in the table and
    applies it to the term of that rank, to the cell, to the builder and
    to the buffer that the previous handle returned. *)
Theorem init_then_compute_cellwise `{Env} (scheme : cs_space_scheme_t) (n : Z)
    (sts : list cs_source_term_t)
    (cs0 cs : list (option cs_source_term_cellwise_t)) (sf0 sf : Z)
    (m : option (list Z)) (cm : cs_cell_mesh_t) (flag_sys : Z)
    (cb : cs_cell_builder_t) (csys : cs_cell_sys_t) :
  cs_source_term_init scheme n sts cs0 sf0 = Done (cs, sf, m) ->
  mask_fits ->
  (forall i st, term_at n sts i st -> subset_valid st) ->
  0 <= c_id cm < n_cells cs_cdo_quant ->
  0 <= n_dofs csys <= Z.of_nat (length (source csys)) ->
  n_dofs csys <= 32767 ->
  flag_on flag_sys CS_FLAG_SYS_SOURCETERM = true ->
  cs_source_term_compute_cellwise n sts cm flag_sys m cs cb csys =
    '(cb', src) ← run_terms sts cm cs (applying_terms n sts (c_id cm))
                    (cb, zeroed (n_dofs csys) (source csys));
    Done (cb', {| n_dofs := n_dofs csys; source := src |}).
Proof.
  intros Hrun [Hbits Hint] Hvalid Hc Hdofs Hdshort Hflag.
  apply init_run_inv in Hrun as (Hmax & Hshort & Hroom & nm & Hloop & Hmask).
  unfold cs_source_term_compute_cellwise.
  rewrite reset_short by assumption. cbn [mbind outcome_bind]. rewrite Hflag.
  f_equal. unfold applying_terms.
  destruct (Z.le_gt_cases n 0) as [Hn | Hn].
  { replace (seqZ 0 n) with (@nil Z) by (unfold seqZ; now replace (Z.to_nat n) with O by lia).
    destruct m; rewrite for_short_range by lia; now rewrite for_range_empty by lia. }
  pose proof (init_loop_frame _ _ _ _ _ _ _ _ _ Hloop) as (_ & _ & Hsts).
  specialize (Hsts ltac:(lia)).
  destruct (init_loop_Done _ _ _ _ _ _ _ _ (Z.lt_le_incl _ _ Hn) Hloop) as (_ & _ & Hnm).
  destruct nm.
  - destruct Hmask as (mask & Hml & ->).
    destruct (mask_loop_spec n sts) as (mask' & Hml' & Hlen & Hw);
      [lia | lia | lia | exact Hvalid |].
    rewrite Hml in Hml'. injection Hml' as <-.
    destruct (Hw (c_id cm) Hc) as (w & Hlw & Hbit).
    rewrite for_short_range by lia. unfold for_range.
    rewrite (for_loop_ext _
               (fun i s => if Z.testbit w i
                           then call_compute sts cm cs i s
                           else Done s)).
    + rewrite for_loop_run_selected by lia.
      rewrite Z.sub_0_r, <- (seqZ_to_nat 0 n).
      f_equal. apply filter_ext_elem. intros i Hi. apply elem_of_seqZ in Hi.
      rewrite Hbit by lia. unfold applies_at, term_at. split.
      * intros (st & [_ ->] & Ha). exact Ha.
      * destruct (sts !! Z.to_nat i) as [st |] eqn:Hst; [| discriminate].
        intros Ha. exists st. split; [split; [lia | reflexivity] | exact Ha].
    + intros i t Hi. rewrite mask_of_id_Done by lia. cbn [mbind outcome_bind].
      rewrite (rd_Done mask (c_id cm) w) by (lia || exact Hlw).
      cbn [mbind outcome_bind]. rewrite mask_bit_test by lia. reflexivity.
  - subst m. rewrite for_short_range by lia. unfold for_range.
    rewrite for_loop_run_terms by lia.
    rewrite Z.sub_0_r, <- (seqZ_to_nat 0 n).
    f_equal. symmetry. apply filter_all. apply Forall_forall. intros i Hi.
    apply elem_of_seqZ in Hi. unfold applies_at.
    destruct (lookup_lt_is_Some_2 sts (Z.to_nat i)) as [st Hst]; [lia |].
    rewrite Hst. unfold term_applies.
    destruct (full_domain st) eqn:Hfull; [reflexivity |].
    assert (Hpartial : false = true); [| discriminate].
    apply Hnm. exists i, st. split; [split; [lia | exact Hst] | exact Hfull].
Qed.

Lemma init_then_compute_cellwise_witness :
  exists cs sf m,
    @cs_source_term_init Example.env CS_SPACE_SCHEME_CDOVB 2 Example.registry
      Example.no_handles 8 = Done (cs, sf, m) /\
    @cs_source_term_compute_cellwise Example.env 2 Example.registry Example.cell
      sf m cs Example.builder Example.csys =
    '(cb', src) ← run_terms Example.registry Example.cell cs
                    (@applying_terms Example.env 2 Example.registry
                       (c_id Example.cell))
                    (Example.builder,
                     zeroed (n_dofs Example.csys) (source Example.csys));
    Done (cb', {| n_dofs := n_dofs Example.csys; source := src |}).
Proof.
  eexists _, _, _. split; [vm_compute; reflexivity |].
  eapply (@init_then_compute_cellwise Example.env CS_SPACE_SCHEME_CDOVB 2
            Example.registry Example.no_handles _ 8 _ _ Example.cell 8
            Example.builder Example.csys).
  - vm_compute. reflexivity.
  - split; cbn; lia.
  - intros i st [Hi Hst].
    assert (Hcases : i = 0 \/ i = 1) by lia.
    destruct Hcases as [-> | ->]; cbn in Hst; injection Hst as <-.
    + right. split.
      * eexists. split; [reflexivity | cbn; lia].
      * intros c Hc. vm_compute in Hc. cbn.
        apply elem_of_cons in Hc as [-> | Hc]; [lia |].
        apply elem_of_cons in Hc as [-> | Hc]; [lia |].
        now apply elem_of_nil in Hc.
    + left. reflexivity.
  - cbn. lia.
  - cbn. lia.
  - cbn. lia.
  - reflexivity.
Defined.

(* ================================================================== *)
(** ** More on the destruction *)

Lemma free_all_app (l1 l2 : list block) (heap : gset block) :
  free_all (l1 ++ l2) heap = free_all l1 heap ≫= free_all l2.
Proof.
  revert heap. induction l1 as [| p l1 IH]; intros heap; [reflexivity |].
  cbn [app free_all]. destruct (BFT_FREE (Some p) heap); cbn [mbind outcome_bind];
    [apply IH | reflexivity ..].
Qed.

(** Releasing blocks one after the other succeeds exactly when they are
    distinct blocks of the heap. *)
Lemma free_all_outcome (l : list block) (heap : gset block) :
  free_all l heap =
  if decide (NoDup l /\ Forall (fun p => p ∈ heap) l)
  then Done (heap ∖ list_to_set l) else Undefined.
Proof.
  revert heap. induction l as [| p l IH]; intros heap.
  - cbn [free_all]. rewrite decide_True by (split; constructor).
    f_equal. set_solver.
  - cbn [free_all]. unfold BFT_FREE. destruct (decide (p ∈ heap)) as [Hp | Hp].
    + cbn [mbind outcome_bind]. rewrite IH.
      destruct (decide (NoDup l /\ Forall (fun q => q ∈ heap ∖ {[p]}) l))
        as [[Hnd Hall] | Hno].
      * rewrite decide_True; [f_equal; set_solver |].
        rewrite Forall_forall in Hall. split.
        -- apply NoDup_cons. split; [| exact Hnd].
           intros Hin. specialize (Hall p Hin). set_solver.
        -- apply Forall_cons. split; [exact Hp |]. apply Forall_forall.
           intros q Hq. specialize (Hall q Hq). set_solver.
      * rewrite decide_False; [reflexivity |]. intros [Hnd Hall]. apply Hno.
        apply NoDup_cons in Hnd as [Hnp Hnd]. apply Forall_cons in Hall as [_ Hall].
        split; [exact Hnd |]. rewrite Forall_forall in Hall |- *.
        intros q Hq. specialize (Hall q Hq).
        assert (q <> p) by (intros ->; contradiction). set_solver.
    + cbn [mbind outcome_bind]. rewrite decide_False; [reflexivity |].
      intros [_ Hall]. now apply Forall_cons in Hall as [Hp' _].
Qed.

Lemma released_cons `{Env} (st : cs_source_term_t) (l : list cs_source_term_t) :
  released (st :: l) = released [st] ++ released l.
Proof. unfold released. cbn [flat_map]. now rewrite app_nil_r. Qed.

(** The loop of the destruction releases the blocks of the terms it goes
    through, in their order. *)
Lemma destroy_loop_frees `{Env} (pre mid post : list cs_source_term_t)
    (heap : gset block) :
  for_loop (length mid) (Z.of_nat (length pre))
    (fun st_id heap =>
       st ← rd (pre ++ mid ++ post) st_id;
       heap ← BFT_FREE (name st) heap;
       if flag_on (state (array_desc st)) CS_FLAG_STATE_OWNER then
         if is_some (array st) then BFT_FREE (array st) heap else Done heap
       else Done heap) heap
  = free_all (released mid) heap.
Proof.
  revert pre heap. induction mid as [| st mid IH]; intros pre heap; [reflexivity |].
  cbn [length for_loop].
  rewrite (rd_Done (pre ++ (st :: mid) ++ post) (Z.of_nat (length pre)) st);
    [| lia | rewrite Nat2Z.id; now apply list_lookup_middle].
  cbn [mbind outcome_bind].
  rewrite released_cons, free_all_app.
  assert (Hstep :
    (heap ← BFT_FREE (name st) heap;
     if flag_on (state (array_desc st)) CS_FLAG_STATE_OWNER then
       if is_some (array st) then BFT_FREE (array st) heap else Done heap
     else Done heap) = free_all (released [st]) heap).
  { unfold released. cbn [flat_map]. rewrite app_nil_r.
    destruct (name st) as [p |],
      (flag_on (state (array_desc st)) CS_FLAG_STATE_OWNER),
      (array st) as [q |];
      cbn [app is_some free_all BFT_FREE mbind outcome_bind];
      repeat match goal with
             | |- context [decide (?x ∈ ?h)] =>
                 destruct (decide (x ∈ h)); cbn [mbind outcome_bind]
             end;
      reflexivity. }
  rewrite <- Hstep.
  destruct (BFT_FREE (name st) heap ≫= _) as [h | | |]; cbn [mbind outcome_bind];
    try reflexivity.
  rewrite <- (IH (pre ++ [st]) h). rewrite length_app. cbn [length].
  replace (Z.of_nat (length pre + 1)) with (Z.of_nat (length pre) + 1) by lia.
  now rewrite <- (app_assoc pre [st]).
Qed.

(** The destruction releases the blocks of the [n] terms, then the array
    of terms. *)
Lemma destroy_frees `{Env} (n : Z) (b : block)
    (sts : list cs_source_term_t) (heap : gset block) :
  n <= Z.of_nat (length sts) ->
  cs_source_term_destroy n (Some (b, sts)) heap =
  h ← free_all (released (take (Z.to_nat n) sts) ++ [b]) heap;
  Done (@None (block * list cs_source_term_t), h).
Proof.
  intros Hn. unfold cs_source_term_destroy, for_range. rewrite free_all_app.
  pose proof (destroy_loop_frees [] (take (Z.to_nat n) sts)
                (drop (Z.to_nat n) sts) heap) as Hloop.
  rewrite app_nil_l, take_drop, length_take in Hloop. cbn [length] in Hloop.
  replace (Z.to_nat n `min` length sts)%nat with (Z.to_nat (n - 0)) in Hloop by lia.
  change (Z.of_nat 0) with 0 in Hloop. rewrite Hloop.
  destruct (free_all (released (take (Z.to_nat n) sts)) heap) as [h | | |];
    cbn [mbind outcome_bind free_all]; try reflexivity.
  destruct (BFT_FREE (Some b) h); reflexivity.
Qed.

(** X7.  [cs_source_term_destroy] on an array of terms releases the names
    and the owned arrays of the [n] terms in their order, then the array
    of terms.  It returns, with the heap less these blocks, exactly when
    they are distinct blocks of the heap; otherwise, as when two terms
    own the same array, a block is released twice or is not one of the
    heap, which is undefined.  No error is ever reported. *)
Theorem destroy_outcome `{Env} (n : Z) (b : block)
    (sts : list cs_source_term_t) (heap : gset block) :
  n <= Z.of_nat (length sts) ->
  cs_source_term_destroy n (Some (b, sts)) heap =
  if decide (NoDup (released (take (Z.to_nat n) sts) ++ [b]) /\
             Forall (fun p => p ∈ heap) (released (take (Z.to_nat n) sts) ++ [b]))
  then Done (None, heap ∖ list_to_set (released (take (Z.to_nat n) sts) ++ [b]))
  else Undefined.
Proof.
  intros Hn. rewrite destroy_frees by exact Hn. rewrite free_all_outcome.
  now destruct (decide _).
Qed.

Lemma destroy_outcome_witness :
  @cs_source_term_destroy Example.env 2 (Some (1%positive, Cases.shared_array))
    Example.heap = Undefined.
Proof.
  eapply eq_trans;
    [apply (@destroy_outcome Example.env 2 1%positive Cases.shared_array
              Example.heap); cbn; lia |].
  apply decide_False. intros [Hnd _]. vm_compute in Hnd.
  apply NoDup_cons in Hnd as [_ Hnd]. apply NoDup_cons in Hnd as [Hnd _].
  apply Hnd. set_solver.
Defined.

(* ================================================================== *)
(** ** Potentials and the local Hodge operator *)

Lemma bind_Undefined {A B : Type} (o : outcome A) (f : A -> outcome B) :
  done_or_undefined o -> (forall a, f a = Undefined) -> o ≫= f = Undefined.
Proof. destruct o; cbn; intros Ho Hf; try contradiction; [apply Hf | reflexivity]. Qed.

Lemma dou_bind {A B : Type} (o : outcome A) (f : A -> outcome B) :
  done_or_undefined o -> (forall a, done_or_undefined (f a)) ->
  done_or_undefined (o ≫= f).
Proof. destruct o; cbn; intros Ho Hf; try contradiction; [apply Hf | exact I]. Qed.

Lemma dou_for_loop {St : Type} (body : Z -> St -> outcome St)
    (count : nat) (i0 : Z) (s : St) :
  (forall i t, done_or_undefined (body i t)) ->
  done_or_undefined (for_loop count i0 body s).
Proof.
  intros Hb. revert i0 s. induction count as [| k IH]; intros i0 s; [exact I |].
  cbn [for_loop]. apply dou_bind; [apply Hb | intros t; apply IH].
Qed.

Lemma dou_rd {A : Type} (a : list A) (i : Z) : done_or_undefined (rd a i).
Proof. unfold rd. destruct (i <? 0); [exact I |]. now destruct (a !! Z.to_nat i). Qed.

Lemma dou_wr {A : Type} (a : list A) (i : Z) (x : A) :
  done_or_undefined (wr a i x).
Proof.
  unfold wr. destruct (i <? 0); [exact I |].
  now destruct (i <? Z.of_nat (length a)).
Qed.

Lemma dou_ana_n (d : cs_def_t) (tcur : float) (n_pts : Z)
    (xyz : Z -> outcome cs_real_3_t) (dst : list float) (off : Z) :
  (forall p, done_or_undefined (xyz p)) ->
  done_or_undefined (ana_n d tcur n_pts xyz dst off).
Proof.
  intros Hx. unfold ana_n. destruct d; [exact I |]. unfold for_range.
  apply dou_for_loop. intros i t. apply dou_bind; [apply Hx |].
  intros x. apply dou_wr.
Qed.

Lemma dou_rd3 (xyz : list float) (off : Z) : done_or_undefined (rd3 xyz off).
Proof.
  unfold rd3. repeat (apply dou_bind; [apply dou_rd | intros ?]). exact I.
Qed.

(** X8.  An evaluator of a potential needs the local Hodge operator of
    the builder: when [cb->hdg] is NULL its assertion fails, and with the
    assertions compiled out the NULL operator is dereferenced, whatever
    the term, the cell and the buffers are.  No evaluator of a potential
    returns in that case. *)
Theorem potential_needs_hodge `{Env} (f : cs_source_term_cellwise_t)
    (st : cs_source_term_t) (cm : cs_cell_mesh_t) (cb : cs_cell_builder_t)
    (values : list float) :
  f ∈ potential_evaluators ->
  cb_hdg cb = None ->
  f (Some st) cm cb values = if NDEBUG then Undefined else Aborted.
Proof.
  intros Hf Hh. unfold potential_evaluators in Hf.
  repeat (apply elem_of_cons in Hf as [-> | Hf]); [| | | | now apply elem_of_nil in Hf].
  - unfold cs_source_term_pvsp_by_value, assert_. rewrite Hh. cbn [is_some].
    rewrite orb_false_r. destruct NDEBUG; [| reflexivity]. cbn [mbind outcome_bind].
    apply bind_Undefined; [unfold get_val; now destruct (def st) | intros pot].
    apply bind_Undefined; [| reflexivity].
    apply dou_for_loop. intros i t. apply dou_wr.
  - unfold cs_source_term_pvsp_by_analytic, assert_. rewrite Hh. cbn [is_some].
    rewrite orb_false_r. destruct NDEBUG; [| reflexivity]. cbn [mbind outcome_bind].
    apply bind_Undefined; [| reflexivity].
    apply dou_ana_n. intros p. apply dou_rd3.
  - unfold cs_source_term_vcsp_by_value, assert_. rewrite Hh. cbn [is_some].
    rewrite orb_false_r. destruct NDEBUG; [| reflexivity]. cbn [mbind outcome_bind].
    apply bind_Undefined; [unfold get_val; now destruct (def st) | intros pot].
    apply bind_Undefined; [| intros sv].
    { apply dou_for_loop. intros i t. apply dou_wr. }
    apply bind_Undefined; [apply dou_wr | reflexivity].
  - unfold cs_source_term_vcsp_by_analytic, assert_. rewrite Hh. cbn [is_some].
    rewrite orb_false_r. destruct NDEBUG; [| reflexivity]. cbn [mbind outcome_bind].
    apply bind_Undefined; [| intros sv].
    { apply dou_ana_n. intros p. apply dou_rd3. }
    apply bind_Undefined; [| reflexivity].
    apply dou_ana_n. intros p. exact I.
Qed.

Lemma potential_needs_hodge_witness :
  @cs_source_term_vcsp_by_value Example.env (Some Example.potential_one)
    Example.cell Cases.builder_no_hodge [0%float; 0%float; 0%float; 0%float]
  = Aborted.
Proof.
  apply (@potential_needs_hodge Example.env
           (@cs_source_term_vcsp_by_value Example.env) Example.potential_one
           Example.cell Cases.builder_no_hodge
           [0%float; 0%float; 0%float; 0%float]).
  - unfold potential_evaluators. set_solver.
  - reflexivity.
Defined.

(* ================================================================== *)
(** ** Names of the source terms *)

Lemma length_append (s1 s2 : string) :
  String.length (s1 +:+ s2) = (String.length s1 + String.length s2)%nat.
Proof. induction s1 as [| c s1 IH]; simpl; [reflexivity | f_equal; exact IH]. Qed.

Lemma length_spaces (n : nat) : String.length (spaces n) = n.
Proof. induction n as [| n IH]; simpl; [reflexivity | f_equal; exact IH]. Qed.

Lemma length_string_of_uint (d : Decimal.uint) :
  String.length (NilEmpty.string_of_uint d) = Decimal.nb_digits d.
Proof. induction d; simpl; congruence. Qed.

(** A number of one digit is below 10, one of two digits at most is below
    100. *)
Lemma of_uint_one_digit (d : Decimal.uint) :
  (Decimal.nb_digits d <= 1)%nat -> (Pos.of_uint d <= 9)%N.
Proof.
  intros Hd.
  destruct d as [| d | d | d | d | d | d | d | d | d | d]; cbn in Hd;
    [now vm_compute | ..];
    (destruct d; cbn in Hd; [now vm_compute | lia ..]).
Qed.

Lemma of_uint_two_digits (d : Decimal.uint) :
  (Decimal.nb_digits d <= 2)%nat -> (Pos.of_uint d <= 99)%N.
Proof.
  intros Hd.
  destruct d as [| d | d | d | d | d | d | d | d | d | d]; cbn in Hd;
    [now vm_compute | ..];
    (destruct d as [| d | d | d | d | d | d | d | d | d | d]; cbn in Hd;
     [now vm_compute | ..];
     (destruct d; cbn in Hd; [now vm_compute | lia ..])).
Qed.

Lemma length_digits_pos (p : positive) :
  String.length (NilZero.string_of_uint (Pos.to_uint p))
  = Decimal.nb_digits (Pos.to_uint p).
Proof.
  pose proof (Unsigned.to_uint_nonnil p) as Hnil. unfold NilZero.string_of_uint.
  destruct (Pos.to_uint p) eqn:Hd; [contradiction | ..];
    rewrite <- Hd; apply length_string_of_uint.
Qed.

(** The digits of an [id], sign included, are two characters at most
    exactly from -9 to 99. *)
Lemma digits_of_id (id : Z) :
  (String.length (NilZero.string_of_int (Z.to_int id)) <= 2)%nat <->
  -9 <= id <= 99.
Proof.
  split.
  - pose proof (fun p => Unsigned.of_to p) as Hp.
    destruct id as [| p | p]; [lia | |]; specialize (Hp p);
      unfold Z.to_int, NilZero.string_of_int; cbn [String.length];
      rewrite length_digits_pos; intros Hlen.
    + apply of_uint_two_digits in Hlen. lia.
    + assert (Hone : (Decimal.nb_digits (Pos.to_uint p) <= 1)%nat) by lia.
      apply of_uint_one_digit in Hone. lia.
  - intros Hid.
    assert (Hall : forallb
              (fun id => (String.length (NilZero.string_of_int (Z.to_int id)) <=? 2)%nat)
              (seqZ (-9) 109) = true) by (vm_compute; reflexivity).
    rewrite forallb_forall in Hall. apply Nat.leb_le, Hall.
    apply list_elem_of_In, elem_of_seqZ. lia.
Qed.

(** The conversion of an [id] takes two characters exactly from -9 to
    99, and more otherwise. *)
Lemma length_format_2d (id : Z) :
  String.length (format_2d id)
  = Nat.max 2 (String.length (NilZero.string_of_int (Z.to_int id))).
Proof. unfold format_2d. rewrite length_append, length_spaces. lia. Qed.

(** X9.  A name by default fits its buffer for the ids -9 to 99, which
    the ids 0 to 99 of the source terms are among: [_get_name] returns a
    block that was not allocated, now allocated, that holds the base
    name, an underscore and the id on two characters, which with the
    final NUL fill the buffer exactly; the rest of the heap is as before.
    An id of one digit is written after a space, not after a zero. *)
Theorem default_name_fits `{Env} (base_name : string) (id : Z) (m : cs_heap) :
  -9 <= id <= 99 ->
  Z.of_nat (String.length base_name) + 4 <= INT_MAX ->
  exists n,
    (n ∉ live m) /\
    _get_name None base_name id m
    = Done (n, {| live := {[n]} ∪ live m;
                  chars := <[n := base_name +:+ "_" +:+ format_2d id]> (chars m) |}) /\
    Z.of_nat (String.length (base_name +:+ "_" +:+ format_2d id)) + 1
    = Z.of_nat (String.length base_name) + 4 /\
    (0 <= id <= 9 ->
     format_2d id
     = String " " (String (ascii_of_nat (48 + Z.to_nat id)) EmptyString)).
Proof.
  intros Hid Hlen.
  assert (Htext : Z.of_nat (String.length (base_name +:+ "_" +:+ format_2d id)) + 1
                  = Z.of_nat (String.length base_name) + 4).
  { rewrite !length_append, length_format_2d.
    apply digits_of_id in Hid. cbn [String.length]. lia. }
  exists (BFT_MALLOC m). split; [unfold BFT_MALLOC; apply is_fresh |]. split; [| split; [exact Htext |]].
  - unfold _get_name, assert_, int_of_size.
    destruct (Z.ltb_spec id 100) as [_ |]; [| lia]. rewrite orb_true_r.
    cbn [mbind outcome_bind].
    destruct (Z.leb_spec (Z.of_nat (String.length base_name) + 4) INT_MAX) as [_ |];
      [| lia].
    cbn [mbind outcome_bind]. rewrite Htext.
    destruct (Z.ltb_spec (Z.of_nat (String.length base_name) + 4)
                (Z.of_nat (String.length base_name) + 4)); [lia | reflexivity].
  - intros Hdigit.
    assert (Hcases : id = 0 \/ id = 1 \/ id = 2 \/ id = 3 \/ id = 4 \/ id = 5 \/
                     id = 6 \/ id = 7 \/ id = 8 \/ id = 9) by lia.
    repeat destruct Hcases as [-> | Hcases]; try subst id; reflexivity.
Qed.

Lemma default_name_fits_witness :
  exists n,
    (n ∉ live Cases.heap0) /\
    @_get_name Example.env None sourceterm 3 Cases.heap0
    = Done (n, {| live := {[n]} ∪ live Cases.heap0;
                  chars := <[n := sourceterm +:+ "_" +:+ format_2d 3]>
                             (chars Cases.heap0) |}) /\
    Z.of_nat (String.length (sourceterm +:+ "_" +:+ format_2d 3)) + 1
    = Z.of_nat (String.length sourceterm) + 4 /\
    (0 <= 3 <= 9 ->
     format_2d 3
     = String " " (String (ascii_of_nat (48 + Z.to_nat 3)) EmptyString)).
Proof.
  apply (@default_name_fits Example.env sourceterm 3 Cases.heap0).
  - lia.
  - vm_compute. discriminate.
Defined.

(** X10.  Outside of -9 to 99 a name by default does not fit: from 100
    on the assertion on the id fails, and with the assertions compiled
    out [sprintf] writes past the end of the buffer; an id of -10 or less
    passes the assertion and overflows the buffer as well. *)
Theorem default_name_overflow `{Env} (base_name : string) (id : Z) (m : cs_heap) :
  id < -9 \/ 99 < id ->
  _get_name None base_name id m
  = if (id <? 100) || NDEBUG then Undefined else Aborted.
Proof.
  intros Hid.
  assert (Hdigits : (2 < String.length (NilZero.string_of_int (Z.to_int id)))%nat).
  { destruct (le_lt_dec (String.length (NilZero.string_of_int (Z.to_int id))) 2)
      as [Hle | Hlt]; [| exact Hlt].
    apply digits_of_id in Hle. lia. }
  unfold _get_name, assert_. rewrite orb_comm.
  destruct ((id <? 100) || NDEBUG); [| reflexivity]. cbn [mbind outcome_bind].
  unfold int_of_size.
  destruct (Z.of_nat (String.length base_name) + 4 <=? INT_MAX); [| reflexivity].
  cbn [mbind outcome_bind].
  destruct (Z.ltb_spec (Z.of_nat (String.length base_name) + 4)
              (Z.of_nat (String.length (base_name +:+ "_" +:+ format_2d id)) + 1))
    as [_ | Hfit]; [reflexivity |].
  rewrite !length_append, length_format_2d in Hfit. cbn [String.length] in Hfit. lia.
Qed.

Lemma default_name_overflow_witness :
  @_get_name Example.env None sourceterm 100 Cases.heap0 = Aborted /\
  @_get_name Example.env None sourceterm (-10) Cases.heap0 = Undefined.
Proof.
  split.
  - apply (@default_name_overflow Example.env sourceterm 100 Cases.heap0). lia.
  - apply (@default_name_overflow Example.env sourceterm (-10) Cases.heap0). lia.
Defined.

(* ================================================================== *)
(** ** Definition of a term, and its destruction *)

Lemma get_name_inv `{Env} (nm : option string) (base_name : string) (id : Z)
    (m m' : cs_heap) (n : block) :
  _get_name nm base_name id m = Done (n, m') ->
  (n ∉ live m) /\
  m' = {| live := {[n]} ∪ live m;
          chars := <[n := match nm with
                          | Some text => text
                          | None => base_name +:+ "_" +:+ format_2d id
                          end]> (chars m) |}.
Proof.
  unfold _get_name. destruct nm as [text |].
  - destruct (int_of_size _); cbn [mbind outcome_bind]; try discriminate.
    intros [= <- <-]. split; [unfold BFT_MALLOC; apply is_fresh | reflexivity].
  - destruct (assert_ _) as [[] | | |]; cbn [mbind outcome_bind]; try discriminate.
    destruct (int_of_size _); cbn [mbind outcome_bind]; try discriminate.
    destruct (_ <? _); try discriminate.
    intros [= <- <-]. split; [unfold BFT_MALLOC; apply is_fresh | reflexivity].
Qed.

(** What a definition that returns has done. *)
Lemma define_inv `{SetupEnv} (how : definition) (st0 : option cs_source_term_t)
    (id : Z) (nm : option string) (vt : cs_param_var_type_t) (ml fl : Z)
    (m m' : cs_heap) (st : cs_source_term_t) :
  define how st0 id nm vt ml fl m = Ret (st, m') ->
  exists n,
    (n ∉ live m) /\
    m' = {| live := {[n]} ∪ live m;
            chars := <[n := name_text nm id]> (chars m) |} /\
    name st = Some n /\ ml_id st = ml /\ quad_type st = CS_QUADRATURE_BARY /\
    var_type_flag vt (location_flag ml fl) = Ret (flag st) /\
    match how with
    | by_value val =>
        def_type st = CS_PARAM_DEF_BY_VALUE /\
        def st = def_get (cs_param_set_get vt val) /\
        array st = None /\ array_desc st = {| location := 0; state := 0 |}
    | by_analytic func =>
        def_type st = CS_PARAM_DEF_BY_ANALYTIC_FUNCTION /\
        def st = def_analytic func /\
        array st = None /\ array_desc st = {| location := 0; state := 0 |}
    | by_array desc arr =>
        def_type st = CS_PARAM_DEF_BY_ARRAY /\
        def st = def_get 0 /\
        array st = arr /\
        array_desc st = {| location := location desc; state := state desc |}
    end.
Proof.
  destruct how; cbn [define];
    unfold cs_source_term_def_by_value, cs_source_term_def_by_analytic,
      cs_source_term_def_by_array;
    (destruct st0 as [old |]; [| discriminate]);
    (destruct (assert_ (negb _)) as [[] | | |]; cbn [lift mbind setup_bind];
       try discriminate);
    (destruct (assert_ (_ =? _)) as [[] | | |]; cbn [lift mbind setup_bind];
       try discriminate);
    (destruct (_get_name nm sourceterm id m) as [[n m1] | | |] eqn:Hn;
       cbn [lift mbind setup_bind]; try discriminate);
    (destruct (var_type_flag vt (location_flag ml fl)) as [tfl | | |] eqn:Hvt;
       cbn [mbind setup_bind]; try discriminate);
    intros [= <- <-]; apply get_name_inv in Hn as [Hfresh ->];
    exists n; cbn; repeat split; auto.
Qed.

(** X11.  The name of a term that one of the three definitions returns:
    [cs_source_term_get_name] gives a block that was not allocated
    before, that is allocated now, and whose text is the name given or,
    for no name, the base "sourceterm", an underscore and the id on two
    characters; no other block is allocated or released, and no other
    text changes. *)
Theorem defined_term_name `{SetupEnv} (how : definition)
    (st0 : option cs_source_term_t) (id : Z) (nm : option string)
    (vt : cs_param_var_type_t) (ml fl : Z) (m m' : cs_heap)
    (st : cs_source_term_t) :
  define how st0 id nm vt ml fl m = Ret (st, m') ->
  exists n,
    cs_source_term_get_name (Some st) = Some n /\
    (n ∉ live m) /\
    live m' = {[n]} ∪ live m /\
    chars m' !! n = Some (name_text nm id) /\
    forall k, k <> n -> chars m' !! k = chars m !! k.
Proof.
  intros Hdef. apply define_inv in Hdef as (n & Hfresh & -> & Hname & _).
  exists n. cbn. split; [exact Hname |]. split; [exact Hfresh |].
  split; [reflexivity |]. split; [apply lookup_insert_eq |].
  intros k Hk. now apply lookup_insert_ne.
Qed.

Lemma defined_term_name_witness :
  exists st m' n,
    @define Example.env Cases.setup_env (by_value (Some "2.5"%string))
      (Some Cases.blank) 3 None CS_PARAM_VAR_SCAL 0 1040 Cases.heap0
    = Ret (st, m') /\
    cs_source_term_get_name (Some st) = Some n /\
    (n ∉ live Cases.heap0) /\
    live m' = {[n]} ∪ live Cases.heap0 /\
    chars m' !! n = Some "sourceterm_ 3"%string /\
    forall k, k <> n -> chars m' !! k = chars Cases.heap0 !! k.
Proof.
  destruct (@define Example.env Cases.setup_env (by_value (Some "2.5"%string))
              (Some Cases.blank) 3 None CS_PARAM_VAR_SCAL 0 1040 Cases.heap0)
    as [[st m'] | | |] eqn:Hdef; try (vm_compute in Hdef; discriminate).
  destruct (@defined_term_name Example.env Cases.setup_env _ _ _ _ _ _ _ _ _ _ Hdef)
    as (n & Hn).
  exists st, m', n. split; [reflexivity | exact Hn].
Defined.

Lemma released_one `{Env} (st : cs_source_term_t) (n : block) :
  name st = Some n ->
  released [st] =
  n :: (if flag_on (state (array_desc st)) CS_FLAG_STATE_OWNER
        then match array st with Some a => [a] | None => [] end
        else []).
Proof.
  intros Hn. unfold released. cbn [flat_map]. rewrite Hn, app_nil_r. reflexivity.
Qed.

(** The owned array of a term that a definition returns. *)
Lemma defined_term_released `{SetupEnv} (how : definition)
    (st0 : option cs_source_term_t) (id : Z) (nm : option string)
    (vt : cs_param_var_type_t) (ml fl : Z) (m m' : cs_heap)
    (st : cs_source_term_t) (n : block) :
  define how st0 id nm vt ml fl m = Ret (st, m') ->
  name st = Some n ->
  exists l, released [st] = n :: l /\ NoDup l /\
            forall p, p ∈ l <-> p ∈ owned_array how.
Proof.
  intros Hdef Hn. rewrite (released_one st n Hn).
  apply define_inv in Hdef as (_ & _ & _ & _ & _ & _ & _ & Hhow).
  eexists. split; [reflexivity |].
  destruct how as [val | func | desc arr]; destruct Hhow as (_ & _ & -> & ->);
    cbn [state owned_array].
  - destruct (flag_on 0 CS_FLAG_STATE_OWNER);
      (split; [apply NoDup_nil_2 | set_solver]).
  - destruct (flag_on 0 CS_FLAG_STATE_OWNER);
      (split; [apply NoDup_nil_2 | set_solver]).
  - destruct (flag_on (state desc) CS_FLAG_STATE_OWNER), arr as [a |];
      (split; [| set_solver]);
      first [apply NoDup_nil_2 | apply NoDup_singleton].
Qed.

(** X12.  A term that one of the three definitions returns, destroyed in
    an array of one term: the destruction returns and leaves the heap as
    it was before the definition, less the array of terms and less the
    array that the definition handed over with the owner flag.  The name
    that the definition allocated is released; an array that the term
    borrows stays. *)
Theorem define_then_destroy `{SetupEnv} (how : definition)
    (st0 : option cs_source_term_t) (id : Z) (nm : option string)
    (vt : cs_param_var_type_t) (ml fl : Z) (m m' : cs_heap)
    (st : cs_source_term_t) (b : block) :
  define how st0 id nm vt ml fl m = Ret (st, m') ->
  b ∈ live m ->
  b ∉ owned_array how ->
  owned_array how ⊆ live m ->
  cs_source_term_destroy 1 (Some (b, [st])) (live m')
  = Done (None, live m ∖ ({[b]} ∪ owned_array how)).
Proof.
  intros Hdef Hb Hbo Ho.
  pose proof (define_inv _ _ _ _ _ _ _ _ _ _ Hdef) as (n & Hfresh & -> & Hn & _).
  destruct (defined_term_released _ _ _ _ _ _ _ _ _ _ n Hdef Hn)
    as (l & Hrel & Hnd & Hl).
  rewrite destroy_frees by (cbn; lia).
  change (take (Z.to_nat 1) [st]) with [st]. rewrite Hrel, free_all_outcome.
  cbn [live]. rewrite decide_True.
  - cbn [mbind outcome_bind]. do 2 f_equal. apply set_eq. intros p.
    rewrite elem_of_difference, elem_of_list_to_set.
    cbn [app]. rewrite elem_of_cons, elem_of_app, list_elem_of_singleton, Hl.
    set_solver.
  - split.
    + cbn [app]. apply NoDup_cons. split.
      * rewrite elem_of_app, list_elem_of_singleton, Hl. set_solver.
      * apply NoDup_app. split; [exact Hnd |]. split; [| apply NoDup_singleton].
        intros p Hp. rewrite list_elem_of_singleton. intros ->.
        apply Hl in Hp. contradiction.
    + apply Forall_forall. intros p. cbn [app].
      rewrite elem_of_cons, elem_of_app, list_elem_of_singleton, Hl. set_solver.
Qed.

Lemma define_then_destroy_witness :
  exists st m',
    @define Example.env Cases.setup_env
      (by_array {| location := 0; state := 128 |} (Some 5%positive))
      (Some Cases.blank) 0 (Some "heat"%string) CS_PARAM_VAR_SCAL 0 1040
      Cases.heap0 = Ret (st, m') /\
    @cs_source_term_destroy Example.env 1 (Some (1%positive, [st])) (live m')
    = Done (None, live Cases.heap0 ∖
                  ({[1%positive]} ∪
                   @owned_array Example.env
                     (by_array {| location := 0; state := 128 |}
                        (Some 5%positive)))).
Proof.
  destruct (@define Example.env Cases.setup_env
              (by_array {| location := 0; state := 128 |} (Some 5%positive))
              (Some Cases.blank) 0 (Some "heat"%string) CS_PARAM_VAR_SCAL 0 1040
              Cases.heap0)
    as [[st m'] | | |] eqn:Hdef; try (vm_compute in Hdef; discriminate).
  exists st, m'. split; [reflexivity |].
  apply (@define_then_destroy Example.env Cases.setup_env _ _ _ _ _ _ _ _ _ _ _ Hdef).
  - cbn. set_solver.
  - cbn. set_solver.
  - cbn. set_solver.
Defined.

(** X13.  A definition does not release the name that the structure had:
    when a term is defined a second time and then destroyed, the
    destruction releases the second name only, and the block of the
    first name stays allocated, with no structure that holds it. *)
Theorem redefinition_leaks_name `{SetupEnv} (how1 how2 : definition)
    (st0 : option cs_source_term_t) (id1 id2 : Z) (nm1 nm2 : option string)
    (vt1 vt2 : cs_param_var_type_t) (ml1 ml2 fl1 fl2 : Z) (m m1 m2 : cs_heap)
    (st1 st2 : cs_source_term_t) (b : block) (h : gset block) :
  define how1 st0 id1 nm1 vt1 ml1 fl1 m = Ret (st1, m1) ->
  define how2 (Some st1) id2 nm2 vt2 ml2 fl2 m1 = Ret (st2, m2) ->
  b ∈ live m ->
  owned_array how2 ⊆ live m ->
  cs_source_term_destroy 1 (Some (b, [st2])) (live m2) = Done (None, h) ->
  exists n1, name st1 = Some n1 /\ n1 ∈ h /\ name st2 <> Some n1.
Proof.
  intros Hdef1 Hdef2 Hb Ho Hdestroy.
  pose proof (define_inv _ _ _ _ _ _ _ _ _ _ Hdef1) as (n1 & Hfresh1 & -> & Hn1 & _).
  pose proof (define_inv _ _ _ _ _ _ _ _ _ _ Hdef2) as (n2 & Hfresh2 & -> & Hn2 & _).
  destruct (defined_term_released _ _ _ _ _ _ _ _ _ _ n2 Hdef2 Hn2)
    as (l & Hrel & Hnd & Hl).
  cbn [live] in Hfresh2, Hdestroy.
  rewrite destroy_frees in Hdestroy by (cbn; lia).
  change (take (Z.to_nat 1) [st2]) with [st2] in Hdestroy.
  rewrite Hrel, free_all_outcome in Hdestroy.
  destruct (decide _) as [_ |]; [| discriminate].
  cbn [mbind outcome_bind] in Hdestroy. injection Hdestroy as <-.
  exists n1. split; [exact Hn1 |]. split.
  - apply elem_of_difference. split; [set_solver |].
    intros Hin. apply elem_of_union in Hin as [Hin | Hin]; [set_solver |].
    apply elem_of_list_to_set, elem_of_app in Hin as [Hin | Hin].
    + apply Hl in Hin. set_solver.
    + apply list_elem_of_singleton in Hin. set_solver.
  - rewrite Hn2. intros [= ->]. set_solver.
Qed.

Lemma redefinition_leaks_name_witness :
  exists st1 m1 st2 m2 h n1,
    @define Example.env Cases.setup_env (by_value (Some "1.0"%string))
      (Some Cases.blank) 0 None CS_PARAM_VAR_SCAL 0 1040 Cases.heap0
    = Ret (st1, m1) /\
    @define Example.env Cases.setup_env (by_value (Some "2.5"%string))
      (Some st1) 0 None CS_PARAM_VAR_SCAL 0 1040 m1 = Ret (st2, m2) /\
    @cs_source_term_destroy Example.env 1 (Some (1%positive, [st2])) (live m2)
    = Done (None, h) /\
    name st1 = Some n1 /\ n1 ∈ h /\ name st2 <> Some n1.
Proof.
  destruct (@define Example.env Cases.setup_env (by_value (Some "1.0"%string))
              (Some Cases.blank) 0 None CS_PARAM_VAR_SCAL 0 1040 Cases.heap0)
    as [[st1 m1] | | |] eqn:Hdef1; try (vm_compute in Hdef1; discriminate).
  destruct (@define Example.env Cases.setup_env (by_value (Some "2.5"%string))
              (Some st1) 0 None CS_PARAM_VAR_SCAL 0 1040 m1)
    as [[st2 m2] | | |] eqn:Hdef2;
    try (vm_compute in Hdef1; injection Hdef1 as <- <-;
         vm_compute in Hdef2; discriminate).
  destruct (@cs_source_term_destroy Example.env 1 (Some (1%positive, [st2]))
              (live m2)) as [[r h] | | |] eqn:Hd;
    try (vm_compute in Hdef1; injection Hdef1 as <- <-;
         vm_compute in Hdef2; injection Hdef2 as <- <-;
         vm_compute in Hd; discriminate).
  assert (Hr : r = None).
  { vm_compute in Hdef1; injection Hdef1 as <- <-.
    vm_compute in Hdef2; injection Hdef2 as <- <-.
    vm_compute in Hd. now injection Hd as <- _. }
  subst r.
  destruct (@redefinition_leaks_name Example.env Cases.setup_env _ _ _ _ _ _ _ _ _
              _ _ _ _ _ _ _ _ _ 1%positive h Hdef1 Hdef2) as (n1 & Hn1);
    [cbn; set_solver | cbn; set_solver | exact Hd |].
  exists st1, m1, st2, m2, h, n1. repeat split; tauto.
Defined.

(* ================================================================== *)
(** ** Flags of the source terms *)

Lemma flag_on_lor (a b m : Z) :
  flag_on (Z.lor a b) m = flag_on a m || flag_on b m.
Proof.
  unfold flag_on. rewrite Z.land_lor_distr_l.
  destruct (Z.eqb_spec (Z.land a m) 0) as [-> | Ha].
  - now rewrite Z.lor_0_l.
  - cbn. destruct (Z.eqb_spec (Z.lor (Z.land a m) (Z.land b m)) 0) as [H0 |];
      [| reflexivity].
    apply Z.lor_eq_0_iff in H0 as [H0 _]. contradiction.
Qed.

Lemma flag_on_0 (m : Z) : flag_on 0 m = false.
Proof. reflexivity. Qed.

(** A flag of the list is on in another one when it is the same one. *)
Lemma flag_on_bits `{SetupEnv} (Hd : flags_distinct) (i j : nat) (a b : Z) :
  flag_bits !! i = Some a -> flag_bits !! j = Some b ->
  flag_on a b = Nat.eqb i j.
Proof.
  intros Ha Hb. destruct Hd as [Hnz Hdisj]. unfold flag_on.
  destruct (Nat.eqb_spec i j) as [-> | Hne].
  - rewrite Ha in Hb. injection Hb as <-. rewrite Z.land_diag.
    rewrite Forall_lookup in Hnz. specialize (Hnz _ _ Ha).
    now destruct (Z.eqb_spec a 0).
  - now rewrite (Hdisj i j a b Ha Hb Hne).
Qed.

(** Rank of a flag in the list. *)
Ltac flag_rank a :=
  lazymatch a with
  | @CS_FLAG_BORDER _ _ => constr:(0%nat)
  | @CS_FLAG_SCALAR _ _ => constr:(1%nat)
  | @CS_FLAG_VECTOR _ _ => constr:(2%nat)
  | @CS_FLAG_TENSOR _ _ => constr:(3%nat)
  | @CS_FLAG_BY_CELL _ _ => constr:(4%nat)
  | @CS_FLAG_FULL_LOC _ => constr:(5%nat)
  | @CS_FLAG_PRIMAL _ => constr:(6%nat)
  | @CS_FLAG_DUAL _ => constr:(7%nat)
  | @CS_FLAG_VERTEX _ _ => constr:(8%nat)
  | @CS_FLAG_CELL _ _ => constr:(9%nat)
  end.

(** Evaluation of the tests of named flags in a disjunction of named
    flags. *)
Ltac named_flags Hd :=
  rewrite ?flag_on_lor, ?flag_on_0;
  repeat match goal with
         | |- context [flag_on ?a ?b] =>
             let i := flag_rank a in
             let j := flag_rank b in
             rewrite (flag_on_bits Hd i j a b eq_refl eq_refl)
         end;
  cbn [Nat.eqb orb andb negb].

(** The flag of a term that a definition returns: the reduction bits of
    the flag given, and the bit of the whole mesh. *)
Lemma defined_term_flags `{SetupEnv} (Hd : flags_distinct) (how : definition)
    (st0 : option cs_source_term_t) (id : Z) (nm : option string)
    (vt : cs_param_var_type_t) (ml fl : Z) (m m' : cs_heap)
    (st : cs_source_term_t) :
  define how st0 id nm vt ml fl m = Ret (st, m') ->
  flag_on (flag st) CS_FLAG_DUAL = flag_on fl CS_FLAG_DUAL /\
  flag_on (flag st) CS_FLAG_PRIMAL = flag_on fl CS_FLAG_PRIMAL /\
  flag_on (flag st) CS_FLAG_FULL_LOC
  = flag_on fl CS_FLAG_FULL_LOC
    || negb (is_some (cs_mesh_location_get_elt_list ml)).
Proof.
  intros Hdef. apply define_inv in Hdef as (n & _ & _ & _ & _ & _ & Hfl & _).
  unfold var_type_flag, location_flag in Hfl.
  destruct vt; try discriminate; injection Hfl as <-;
    destruct (cs_mesh_location_get_elt_list ml); cbn [is_some];
    named_flags Hd; rewrite ?orb_false_r, ?orb_true_r; repeat split; reflexivity.
Qed.

(** X14.  The support of a term that one of the three definitions
    returns: the reduction bits are those of the flag given, and the term
    is full-domain exactly when the flag given says so or the mesh
    location has no list of elements.  With a flag that does not have
    [CS_FLAG_FULL_LOC], the term applies to a cell exactly when the
    location is the whole mesh or the cell is among its [n_elts] first
    elements. *)
Theorem defined_term_support `{SetupEnv} (how : definition)
    (st0 : option cs_source_term_t) (id : Z) (nm : option string)
    (vt : cs_param_var_type_t) (ml fl : Z) (m m' : cs_heap)
    (st : cs_source_term_t) :
  flags_distinct ->
  define how st0 id nm vt ml fl m = Ret (st, m') ->
  flag_on (flag st) CS_FLAG_DUAL = flag_on fl CS_FLAG_DUAL /\
  flag_on (flag st) CS_FLAG_PRIMAL = flag_on fl CS_FLAG_PRIMAL /\
  full_domain st
  = flag_on fl CS_FLAG_FULL_LOC || negb (is_some (cs_mesh_location_get_elt_list ml)) /\
  (flag_on fl CS_FLAG_FULL_LOC = false ->
   forall c, term_applies st c = true <->
     match cs_mesh_location_get_elt_list ml with
     | None => True
     | Some ids => c ∈ take (Z.to_nat (cs_mesh_location_get_n_elts ml)) ids
     end).
Proof.
  intros Hd Hdef.
  destruct (defined_term_flags Hd _ _ _ _ _ _ _ _ _ _ Hdef)
    as (Hdual & Hprimal & Hfull).
  apply define_inv in Hdef as (n & _ & _ & _ & Hml & _).
  split; [exact Hdual |]. split; [exact Hprimal |]. split; [exact Hfull |].
  intros Hnot c. unfold term_applies, subset_cells, full_domain.
  rewrite Hfull, Hnot, Hml. cbn [orb].
  destruct (cs_mesh_location_get_elt_list ml) as [ids |]; cbn [is_some negb orb].
  - now rewrite bool_decide_eq_true.
  - tauto.
Qed.

(** The flags of the example are distinct bits. *)
Lemma example_flags_distinct : @flags_distinct Example.env Cases.setup_env.
Proof.
  split.
  - repeat constructor; discriminate.
  - intros i j a b Hi Hj Hne.
    do 10 (destruct i as [| i];
           [ do 10 (destruct j as [| j];
                    [ first [ lia
                            | cbn in Hi, Hj; injection Hi as <-; injection Hj as <-;
                              reflexivity ] | ]);
             cbn in Hj; discriminate | ]).
    cbn in Hi. discriminate.
Qed.

Lemma defined_term_support_witness :
  exists st m',
    @define Example.env Cases.setup_env (by_value (Some "2.5"%string))
      (Some Cases.blank) 0 None CS_PARAM_VAR_SCAL 1 1024 Cases.heap0
    = Ret (st, m') /\
    flag_on (flag st) 1024 = true /\
    flag_on (flag st) 512 = false /\
    @full_domain Example.env st = false /\
    (flag_on 1024 32 = false ->
     forall c, @term_applies Example.env st c = true <-> c ∈ [0; 2]).
Proof.
  destruct (@define Example.env Cases.setup_env (by_value (Some "2.5"%string))
              (Some Cases.blank) 0 None CS_PARAM_VAR_SCAL 1 1024 Cases.heap0)
    as [[st m'] | | |] eqn:Hdef; try (vm_compute in Hdef; discriminate).
  exists st, m'. split; [reflexivity |].
  exact (@defined_term_support Example.env Cases.setup_env _ _ _ _ _ _ _ _ _ _
           example_flags_distinct Hdef).
Defined.

(** X15.  The default flag of a scheme and the definitions: a term
    defined with the flag that [cs_source_term_set_default_flag] gives
    for the vertex-based scheme is dispatched to the evaluator of a
    density, by value or by analytic function at the barycentric
    quadrature; with the one of the vertex+cell scheme, to the evaluator
    of a potential.  A term defined by array has no evaluator, and the
    default flags of the two other schemes lead to the error on the
    scheme. *)
Theorem default_flag_dispatch `{SetupEnv} (scheme : cs_space_scheme_t)
    (how : definition) (st0 : option cs_source_term_t) (id : Z)
    (nm : option string) (vt : cs_param_var_type_t) (ml fl : Z)
    (m m' : cs_heap) (st : cs_source_term_t) :
  flags_distinct ->
  cs_source_term_set_default_flag scheme = Ret fl ->
  define how st0 id nm vt ml fl m = Ret (st, m') ->
  init_dispatch scheme st =
  match scheme, how with
  | CS_SPACE_SCHEME_CDOVB, by_value _ => Done cs_source_term_dcsd_by_value
  | CS_SPACE_SCHEME_CDOVB, by_analytic _ =>
      Done cs_source_term_dcsd_bary_by_analytic
  | CS_SPACE_SCHEME_CDOVCB, by_value _ => Done cs_source_term_vcsp_by_value
  | CS_SPACE_SCHEME_CDOVCB, by_analytic _ =>
      Done cs_source_term_vcsp_by_analytic
  | CS_SPACE_SCHEME_CDOVB, by_array _ _
  | CS_SPACE_SCHEME_CDOVCB, by_array _ _ => Fatal err_invalid_definition
  | _, _ => Fatal err_invalid_scheme
  end.
Proof.
  intros Hd Hfl Hdef.
  destruct (defined_term_flags Hd _ _ _ _ _ _ _ _ _ _ Hdef)
    as (Hdual & Hprimal & _).
  apply define_inv in Hdef as (n & _ & _ & _ & _ & Hq & _ & Hhow).
  unfold init_dispatch. rewrite Hdual, Hprimal, Hq.
  destruct scheme; cbn in Hfl; injection Hfl as <-; named_flags Hd;
    try reflexivity;
    rewrite ?assert_true; cbn [mbind outcome_bind];
    destruct how; destruct Hhow as (-> & _); reflexivity.
Qed.

Lemma default_flag_dispatch_witness :
  exists fl st m',
    @cs_source_term_set_default_flag Example.env Cases.setup_env
      CS_SPACE_SCHEME_CDOVCB = Ret fl /\
    @define Example.env Cases.setup_env (by_analytic (fun _ x => v3 x 0))
      (Some Cases.blank) 1 (Some "ramp"%string) CS_PARAM_VAR_SCAL 0 fl
      Cases.heap0 = Ret (st, m') /\
    @init_dispatch Example.env CS_SPACE_SCHEME_CDOVCB st
    = Done (@cs_source_term_vcsp_by_analytic Example.env).
Proof.
  destruct (@define Example.env Cases.setup_env (by_analytic (fun _ x => v3 x 0))
              (Some Cases.blank) 1 (Some "ramp"%string) CS_PARAM_VAR_SCAL 0 512
              Cases.heap0)
    as [[st m'] | | |] eqn:Hdef; try (vm_compute in Hdef; discriminate).
  exists 512, st, m'. split; [reflexivity |]. split; [exact Hdef |].
  exact (@default_flag_dispatch Example.env Cases.setup_env
           CS_SPACE_SCHEME_CDOVCB _ _ _ _ _ _ _ _ _ _
           example_flags_distinct eq_refl Hdef).
Defined.

(** X16.  The quadrature of a term only matters for a density by
    analytic function under the vertex-based scheme: after
    [cs_source_term_set_quadrature] such a term is dispatched to the
    evaluator of the quadrature set, or to the error on the quadrature
    for a type that is not one of the four; any other term, a potential
    by analytic function among them, is dispatched as before. *)
Theorem set_quadrature_dispatch `{Env} (scheme : cs_space_scheme_t)
    (st st' : cs_source_term_t) (q : cs_quadra_type_t) :
  cs_source_term_set_quadrature (Some st) q = Ret st' ->
  init_dispatch scheme st' =
  match scheme, flag_on (flag st) CS_FLAG_DUAL, def_type st with
  | CS_SPACE_SCHEME_CDOVB, true, CS_PARAM_DEF_BY_ANALYTIC_FUNCTION =>
      match q with
      | CS_QUADRATURE_BARY => Done cs_source_term_dcsd_bary_by_analytic
      | CS_QUADRATURE_BARY_SUBDIV => Done cs_source_term_dcsd_q1o1_by_analytic
      | CS_QUADRATURE_HIGHER => Done cs_source_term_dcsd_q10o2_by_analytic
      | CS_QUADRATURE_HIGHEST => Done cs_source_term_dcsd_q5o3_by_analytic
      | CS_QUADRATURE_OTHER _ => Fatal err_invalid_quadrature
      end
  | _, _, _ => init_dispatch scheme st
  end.
Proof.
  intros [= <-]. unfold init_dispatch. cbn [with_quad_type flag def_type quad_type].
  destruct scheme, (flag_on (flag st) CS_FLAG_DUAL), (def_type st);
    try reflexivity.
Qed.

Lemma set_quadrature_dispatch_witness :
  @init_dispatch Example.env CS_SPACE_SCHEME_CDOVB
    (with_quad_type (Example.density_x CS_QUADRATURE_BARY) CS_QUADRATURE_HIGHEST)
  = Done (@cs_source_term_dcsd_q5o3_by_analytic Example.env).
Proof.
  apply (@set_quadrature_dispatch Example.env CS_SPACE_SCHEME_CDOVB
           (Example.density_x CS_QUADRATURE_BARY)
           (with_quad_type (Example.density_x CS_QUADRATURE_BARY)
              CS_QUADRATURE_HIGHEST)
           CS_QUADRATURE_HIGHEST).
  reflexivity.
Defined.

(* ================================================================== *)
(** ** Change of reduction *)

Lemma with_flag_same (st : cs_source_term_t) : with_flag st (flag st) = st.
Proof. now destruct st. Qed.

(** The parts kept by a change of reduction, tested against a flag of
    the list: the first six are as they were, the four others are off. *)
Lemma unchanged_parts_on `{SetupEnv} (Hd : flags_distinct) (f : Z) (j : nat)
    (x : Z) :
  flag_bits !! j = Some x ->
  flag_on (unchanged_parts f) x = if (j <? 6)%nat then flag_on f x else false.
Proof.
  intros Hj. unfold unchanged_parts. cbv zeta.
  do 10 (destruct j as [| j];
         [ cbn in Hj; injection Hj as <-;
           destruct (flag_on f CS_FLAG_SCALAR), (flag_on f CS_FLAG_VECTOR),
             (flag_on f CS_FLAG_TENSOR), (flag_on f CS_FLAG_BORDER),
             (flag_on f CS_FLAG_BY_CELL), (flag_on f CS_FLAG_FULL_LOC);
           named_flags Hd; reflexivity | ]).
  cbn in Hj. discriminate.
Qed.

(** The parts kept have no bit outside of the flags of the list. *)
Lemma unchanged_parts_off `{SetupEnv} (f x : Z) :
  (forall a, a ∈ flag_bits -> Z.land a x = 0) ->
  flag_on (unchanged_parts f) x = false.
Proof.
  intros Hx.
  assert (Hoff : forall a, a ∈ flag_bits -> flag_on a x = false).
  { intros a Ha. unfold flag_on. now rewrite (Hx a Ha). }
  unfold unchanged_parts, flag_bits in *. cbv zeta.
  destruct (flag_on f CS_FLAG_SCALAR), (flag_on f CS_FLAG_VECTOR),
    (flag_on f CS_FLAG_TENSOR), (flag_on f CS_FLAG_BORDER),
    (flag_on f CS_FLAG_BY_CELL), (flag_on f CS_FLAG_FULL_LOC);
    rewrite ?flag_on_lor, ?flag_on_0,
      ?(Hoff CS_FLAG_SCALAR), ?(Hoff CS_FLAG_VECTOR), ?(Hoff CS_FLAG_TENSOR),
      ?(Hoff CS_FLAG_BORDER), ?(Hoff CS_FLAG_BY_CELL), ?(Hoff CS_FLAG_FULL_LOC);
    try reflexivity; set_solver.
Qed.

(** The flag after a change of reduction that was not already there. *)
Lemma set_reduction_inv `{SetupEnv} (Hd : flags_distinct)
    (st st' : cs_source_term_t) (to_dual : bool) :
  let fl := if to_dual then CS_FLAG_DUAL else CS_FLAG_PRIMAL in
  let opposite := if to_dual then CS_FLAG_PRIMAL else CS_FLAG_DUAL in
  let from_loc := if to_dual then CS_FLAG_VERTEX else CS_FLAG_CELL in
  let to_loc := if to_dual then CS_FLAG_CELL else CS_FLAG_VERTEX in
  flag_on (flag st) fl = false ->
  cs_source_term_set_reduction (Some st) fl = Ret st' ->
  flag_on (flag st) from_loc = true /\
  (NDEBUG = false -> flag_on (flag st) opposite = true) /\
  st' = with_flag st (Z.lor (unchanged_parts (flag st)) (Z.lor fl to_loc)).
Proof.
  intros fl opposite from_loc to_loc Hoff. unfold cs_source_term_set_reduction.
  rewrite Hoff. subst fl opposite from_loc to_loc.
  destruct to_dual; named_flags Hd; unfold assert_.
  - destruct NDEBUG, (flag_on (flag st) CS_FLAG_PRIMAL);
      cbn [orb lift mbind setup_bind]; try discriminate;
      (destruct (flag_on (flag st) CS_FLAG_VERTEX); [| discriminate]);
      intros [= <-]; repeat split; try reflexivity; discriminate.
  - destruct NDEBUG, (flag_on (flag st) CS_FLAG_DUAL);
      cbn [orb lift mbind setup_bind]; try discriminate;
      (destruct (flag_on (flag st) CS_FLAG_CELL); [| discriminate]);
      intros [= <-]; repeat split; try reflexivity; discriminate.
Qed.

(** X17.  What [cs_source_term_set_reduction] keeps: when it returns
    for [CS_FLAG_DUAL] or [CS_FLAG_PRIMAL], the flag that
    [cs_source_term_get_flag] then gives has the reduction asked for;
    the bits of the type of variable, of the border, of the definition by
    cell and of the whole mesh are as they were; and nothing but the
    flag of the structure has changed. *)
Theorem set_reduction_keeps `{SetupEnv} (st st' : cs_source_term_t) (fl : Z) :
  flags_distinct ->
  fl = CS_FLAG_DUAL \/ fl = CS_FLAG_PRIMAL ->
  cs_source_term_set_reduction (Some st) fl = Ret st' ->
  exists f,
    cs_source_term_get_flag (Some st') = Ret f /\
    flag_on f fl = true /\
    (forall x,
       x ∈ [ CS_FLAG_BORDER; CS_FLAG_SCALAR; CS_FLAG_VECTOR; CS_FLAG_TENSOR;
             CS_FLAG_BY_CELL; CS_FLAG_FULL_LOC ] ->
       flag_on f x = flag_on (flag st) x) /\
    st' = with_flag st f.
Proof.
  intros Hd Hfl Hset. exists (flag st'). split; [reflexivity |].
  destruct (flag_on (flag st) fl) eqn:Hon.
  - unfold cs_source_term_set_reduction in Hset. rewrite Hon in Hset.
    injection Hset as <-. split; [exact Hon |]. split; [reflexivity |].
    symmetry. apply with_flag_same.
  - assert (Hinv : exists to_dual : bool,
              fl = (if to_dual then CS_FLAG_DUAL else CS_FLAG_PRIMAL)).
    { destruct Hfl as [-> | ->]; [now exists true | now exists false]. }
    destruct Hinv as [to_dual ->].
    destruct (set_reduction_inv Hd st st' to_dual Hon Hset) as (_ & _ & ->).
    cbn [with_flag flag]. split; [| split; [| reflexivity]].
    + destruct to_dual; named_flags Hd; apply orb_true_r.
    + intros x Hx. rewrite !flag_on_lor.
      assert (Hrank : exists j, (j < 6)%nat /\ flag_bits !! j = Some x).
      { repeat (apply elem_of_cons in Hx as [-> | Hx]);
          [ exists 0%nat | exists 1%nat | exists 2%nat | exists 3%nat
          | exists 4%nat | exists 5%nat | now apply elem_of_nil in Hx ];
          (split; [lia | reflexivity]). }
      destruct Hrank as (j & Hj & Hjx).
      rewrite (unchanged_parts_on Hd _ j x Hjx).
      destruct (Nat.ltb_spec j 6) as [_ |]; [| lia].
      assert (Hoffs : forall i a, (6 <= i)%nat -> flag_bits !! i = Some a ->
                                  flag_on a x = false).
      { intros i a Hi Ha. rewrite (flag_on_bits Hd i j a x Ha Hjx).
        apply Nat.eqb_neq. lia. }
      destruct to_dual;
        rewrite ?(Hoffs 7%nat CS_FLAG_DUAL), ?(Hoffs 6%nat CS_FLAG_PRIMAL),
          ?(Hoffs 9%nat CS_FLAG_CELL), ?(Hoffs 8%nat CS_FLAG_VERTEX)
          by (lia || reflexivity);
        rewrite ?orb_false_r; reflexivity.
Qed.

Lemma set_reduction_keeps_witness :
  exists st' f,
    @cs_source_term_set_reduction Example.env Cases.setup_env
      (Some Cases.density_flagged) 512 = Ret st' /\
    cs_source_term_get_flag (Some st') = Ret f /\
    flag_on f 512 = true /\
    (forall x, x ∈ [1; 2; 4; 8; 16; 32] ->
               flag_on f x = flag_on (flag Cases.density_flagged) x) /\
    st' = with_flag Cases.density_flagged f.
Proof.
  destruct (@cs_source_term_set_reduction Example.env Cases.setup_env
              (Some Cases.density_flagged) 512) as [st' | | |] eqn:Hset;
    try (vm_compute in Hset; discriminate).
  destruct (@set_reduction_keeps Example.env Cases.setup_env
              Cases.density_flagged st' 512 example_flags_distinct
              (or_intror eq_refl) Hset) as (f & Hf).
  exists st', f. split; [reflexivity | exact Hf].
Defined.

(** X18.  A change of reduction that is not already there: when
    [cs_source_term_set_reduction] returns, the term had the location of
    the other reduction (the vertices for a change to dual, the cells for
    a change to primal) and, unless assertions are compiled out, the
    other reduction; the new flag has the reduction asked for and its
    location, has neither the other reduction nor the other location,
    and has lost every bit that is not of a flag of the source terms. *)
Theorem set_reduction_switch `{SetupEnv} (st st' : cs_source_term_t)
    (dual : bool) :
  flags_distinct ->
  flag_on (flag st) (reduction_flag dual) = false ->
  cs_source_term_set_reduction (Some st) (reduction_flag dual) = Ret st' ->
  flag_on (flag st) (reduction_location (negb dual)) = true /\
  (NDEBUG = false -> flag_on (flag st) (reduction_flag (negb dual)) = true) /\
  flag_on (flag st') (reduction_flag dual) = true /\
  flag_on (flag st') (reduction_location dual) = true /\
  flag_on (flag st') (reduction_flag (negb dual)) = false /\
  flag_on (flag st') (reduction_location (negb dual)) = false /\
  forall x, (forall a, a ∈ flag_bits -> Z.land a x = 0) ->
            flag_on (flag st') x = false.
Proof.
  intros Hd Hoff Hset.
  destruct (set_reduction_inv Hd st st' dual Hoff Hset) as (Hloc & Hopp & ->).
  assert (Hup : forall j x, flag_bits !! j = Some x -> (6 <= j)%nat ->
                            flag_on (unchanged_parts (flag st)) x = false).
  { intros j x Hx Hj. rewrite (unchanged_parts_on Hd _ j x Hx).
    destruct (Nat.ltb_spec j 6); [lia | reflexivity]. }
  unfold reduction_flag, reduction_location in *. cbn [with_flag flag].
  destruct dual; cbn [negb] in *;
    (split; [exact Hloc |]; split; [exact Hopp |]);
    rewrite !flag_on_lor,
      ?(Hup 6%nat CS_FLAG_PRIMAL), ?(Hup 7%nat CS_FLAG_DUAL),
      ?(Hup 8%nat CS_FLAG_VERTEX), ?(Hup 9%nat CS_FLAG_CELL)
      by (reflexivity || lia);
    named_flags Hd; repeat split; try reflexivity;
    intros x Hx; rewrite !flag_on_lor, (unchanged_parts_off _ x Hx);
    unfold flag_on; rewrite !Hx by (unfold flag_bits; set_solver); reflexivity.
Qed.

Lemma set_reduction_switch_witness :
  exists st',
    @cs_source_term_set_reduction Example.env Cases.setup_env
      (Some Cases.density_flagged) 512 = Ret st' /\
    flag_on (flag Cases.density_flagged) 16384 = true /\
    flag_on (flag st') 512 = true /\ flag_on (flag st') 2048 = true /\
    flag_on (flag st') 1024 = false /\ flag_on (flag st') 16384 = false /\
    flag_on (flag st') 4096 = false.
Proof.
  destruct (@cs_source_term_set_reduction Example.env Cases.setup_env
              (Some Cases.density_flagged) 512) as [st' | | |] eqn:Hset;
    try (vm_compute in Hset; discriminate).
  destruct (@set_reduction_switch Example.env Cases.setup_env
              Cases.density_flagged st' false example_flags_distinct
              eq_refl Hset) as (H1 & _ & H3 & H4 & H5 & H6 & H7).
  exists st'. split; [reflexivity |].
  repeat split; try assumption. apply H7. intros a Ha.
  unfold flag_bits in Ha. cbn in Ha.
  repeat (apply elem_of_cons in Ha as [-> | Ha]; [reflexivity |]).
  now apply elem_of_nil in Ha.
Defined.

(** X19.  There and back: a term that has a reduction and its location,
    and neither the other reduction nor the other location, can be
    changed to the other reduction and back; both calls return, and the
    flags of the source terms are then as they were at the start.
    Nothing but the flag of the structure has changed. *)
Theorem set_reduction_round_trip `{SetupEnv} (st : cs_source_term_t)
    (dual : bool) :
  flags_distinct ->
  flag_on (flag st) (reduction_flag dual) = true ->
  flag_on (flag st) (reduction_location dual) = true ->
  flag_on (flag st) (reduction_flag (negb dual)) = false ->
  flag_on (flag st) (reduction_location (negb dual)) = false ->
  exists st1 st2,
    cs_source_term_set_reduction (Some st) (reduction_flag (negb dual)) = Ret st1 /\
    cs_source_term_set_reduction (Some st1) (reduction_flag dual) = Ret st2 /\
    (forall x, x ∈ flag_bits -> flag_on (flag st2) x = flag_on (flag st) x) /\
    st2 = with_flag st (flag st2).
Proof.
  intros Hd Hred Hloc Hnred Hnloc.
  assert (Hup : forall f j x, flag_bits !! j = Some x ->
                  flag_on (unchanged_parts f) x
                  = if (j <? 6)%nat then flag_on f x else false).
  { intros f j x. apply (unchanged_parts_on Hd). }
  unfold reduction_flag, reduction_location in *.
  destruct dual; cbn [negb] in *; (eexists _, _; split; [| split]).
  all: try (unfold cs_source_term_set_reduction; cbn [with_flag flag];
            rewrite ?flag_on_lor,
              ?(Hup _ 6%nat CS_FLAG_PRIMAL), ?(Hup _ 7%nat CS_FLAG_DUAL),
              ?(Hup _ 8%nat CS_FLAG_VERTEX), ?(Hup _ 9%nat CS_FLAG_CELL)
              by reflexivity;
            cbn [Nat.ltb Nat.leb]; rewrite ?Hnred, ?Hred, ?Hloc;
            named_flags Hd; rewrite ?Hnred, ?Hred, ?Hloc, ?assert_true;
            reflexivity).
  all: cbn [with_flag flag]; (split; [| reflexivity]);
    intros x Hx; unfold flag_bits in Hx;
    repeat (apply elem_of_cons in Hx as [-> | Hx]);
    [ .. | now apply elem_of_nil in Hx ];
    rewrite !flag_on_lor,
      ?(Hup _ 0%nat CS_FLAG_BORDER), ?(Hup _ 1%nat CS_FLAG_SCALAR),
      ?(Hup _ 2%nat CS_FLAG_VECTOR), ?(Hup _ 3%nat CS_FLAG_TENSOR),
      ?(Hup _ 4%nat CS_FLAG_BY_CELL), ?(Hup _ 5%nat CS_FLAG_FULL_LOC),
      ?(Hup _ 6%nat CS_FLAG_PRIMAL), ?(Hup _ 7%nat CS_FLAG_DUAL),
      ?(Hup _ 8%nat CS_FLAG_VERTEX), ?(Hup _ 9%nat CS_FLAG_CELL)
      by reflexivity;
    cbn [Nat.ltb Nat.leb];
    rewrite ?flag_on_lor,
      ?(Hup _ 0%nat CS_FLAG_BORDER), ?(Hup _ 1%nat CS_FLAG_SCALAR),
      ?(Hup _ 2%nat CS_FLAG_VECTOR), ?(Hup _ 3%nat CS_FLAG_TENSOR),
      ?(Hup _ 4%nat CS_FLAG_BY_CELL), ?(Hup _ 5%nat CS_FLAG_FULL_LOC)
      by reflexivity;
    cbn [Nat.ltb Nat.leb]; named_flags Hd;
    rewrite ?orb_false_r, ?Hred, ?Hloc, ?Hnred, ?Hnloc; reflexivity.
Qed.

Lemma set_reduction_round_trip_witness :
  exists st1 st2,
    @cs_source_term_set_reduction Example.env Cases.setup_env
      (Some Cases.density_flagged) 512 = Ret st1 /\
    @cs_source_term_set_reduction Example.env Cases.setup_env (Some st1) 1024
    = Ret st2 /\
    (forall x, x ∈ @flag_bits Example.env Cases.setup_env ->
               flag_on (flag st2) x = flag_on (flag Cases.density_flagged) x) /\
    st2 = with_flag Cases.density_flagged (flag st2).
Proof.
  apply (@set_reduction_round_trip Example.env Cases.setup_env
           Cases.density_flagged true example_flags_distinct);
    reflexivity.
Defined.

(* ================================================================== *)
(** ** Comparisons of [double] values *)

Lemma SFcompare_refl (x : SpecFloat.spec_float) :
  x <> SpecFloat.S754_nan -> SpecFloat.SFcompare x x = Some Eq.
Proof.
  destruct x as [s | s | | s m e]; intros Hx; cbn; try congruence.
  - now destruct s.
  - rewrite Z.compare_refl, Pos.compare_cont_refl. now destruct s.
Qed.

(** No value is below itself. *)
Lemma ltb_irrefl (x : float) : PrimFloat.ltb x x = false.
Proof.
  rewrite FloatAxioms.ltb_spec. unfold SpecFloat.SFltb.
  destruct (Prim2SF x) eqn:Hx; try reflexivity;
    rewrite <- Hx, SFcompare_refl by (rewrite Hx; discriminate); reflexivity.
Qed.

(** A NaN is the value that is not equal to itself; it is neither below
    nor above any value. *)
Lemma is_nan_spec (x : float) :
  is_nan x = true <-> Prim2SF x = SpecFloat.S754_nan.
Proof.
  unfold is_nan. rewrite FloatAxioms.eqb_spec. unfold SpecFloat.SFeqb. split.
  - intros Hx. destruct (Prim2SF x) eqn:Ex; try reflexivity;
      rewrite <- Ex, SFcompare_refl in Hx by (rewrite Ex; discriminate);
      discriminate.
  - intros ->. reflexivity.
Qed.

Lemma ltb_nan_l (x y : float) : is_nan x = true -> PrimFloat.ltb x y = false.
Proof.
  intros Hx. apply is_nan_spec in Hx.
  rewrite FloatAxioms.ltb_spec, Hx. reflexivity.
Qed.

Lemma ltb_nan_r (x y : float) : is_nan y = true -> PrimFloat.ltb x y = false.
Proof.
  intros Hy. apply is_nan_spec in Hy.
  rewrite FloatAxioms.ltb_spec, Hy. unfold SpecFloat.SFltb.
  now destruct (Prim2SF x).
Qed.

(* ================================================================== *)
(** ** Wall temperature: the clipping and the counters *)

(** The clipped temperature is not below [tmin] and not above [tmax],
    when [tmax] is not below [tmin]. *)
Lemma clipping_bounds (tmin tmax t : float) (c : wall_counts) :
  PrimFloat.ltb tmax tmin = false ->
  PrimFloat.ltb (clipping tmin tmax t c).1 tmin = false /\
  PrimFloat.ltb tmax (clipping tmin tmax t c).1 = false.
Proof.
  intros Horder. unfold clipping.
  destruct (PrimFloat.ltb t tmin) eqn:Hlow.
  - rewrite Horder. cbn. split; [apply ltb_irrefl | exact Horder].
  - destruct (PrimFloat.ltb tmax t) eqn:Hhigh; cbn.
    + split; [exact Horder | apply ltb_irrefl].
    + split; [exact Hlow | exact Hhigh].
Qed.

Lemma clipping_counts (tmin tmax t : float) (c : wall_counts) :
  nrelax (clipping tmin tmax t c).2 = nrelax c /\
  nmoins (clipping tmin tmax t c).2 = nmoins c /\
  nplus (clipping tmin tmax t c).2 = nplus c /\
  rapmax (clipping tmin tmax t c).2 = rapmax c.
Proof.
  unfold clipping.
  destruct (PrimFloat.ltb t tmin); destruct (PrimFloat.ltb tmax _); cbn; auto.
Qed.

(** X20.  The clipping of the wall temperature does not catch a NaN: a
    temperature that is not a number passes the two tests, is stored as
    it is, and is counted neither as clipped to the minimum nor as
    clipped to the maximum. *)
Theorem clipping_keeps_nan (tmin tmax t : float) (c : wall_counts) :
  is_nan t = true ->
  clipping tmin tmax t c = (t, c).
Proof.
  intros Ht. unfold clipping.
  rewrite (ltb_nan_l t tmin Ht), (ltb_nan_r tmax t Ht). now destruct c.
Qed.

Lemma clipping_keeps_nan_witness :
  clipping 298 1000 (0 / 0)
    {| n1min := 0; n1max := 0; nrelax := 0; nmoins := 0; nplus := 0;
       rapmax := 0 |}
  = ((0 / 0)%float,
     {| n1min := 0; n1max := 0; nrelax := 0; nmoins := 0; nplus := 0;
        rapmax := 0 |}).
Proof. apply clipping_keeps_nan. reflexivity. Defined.

Lemma counts_step_refl (clipped : bool) (c : wall_counts) :
  counts_step clipped false c c.
Proof. repeat split; auto. Qed.

Lemma clipping_step (tmin tmax t : float) (c : wall_counts) :
  counts_step true false c (clipping tmin tmax t c).2.
Proof.
  unfold clipping.
  destruct (PrimFloat.ltb t tmin); destruct (PrimFloat.ltb tmax _); cbn;
    repeat split; auto.
Qed.

Lemma relaxation_spec `{RadEnv} (tx tmin tmax t detep : float)
    (c : wall_counts) :
  counts_step true true c (relaxation tx tmin tmax t detep c).2 /\
  (PrimFloat.ltb tmax tmin = false ->
   PrimFloat.ltb (relaxation tx tmin tmax t detep c).1 tmin = false /\
   PrimFloat.ltb tmax (relaxation tx tmin tmax t detep c).1 = false).
Proof.
  unfold relaxation.
  destruct (PrimFloat.leb tx _); destruct (PrimFloat.leb _ 0);
    (split; [| apply clipping_bounds]);
    unfold clipping;
    match goal with
    | |- context [PrimFloat.ltb ?a tmin] => destruct (PrimFloat.ltb a tmin)
    end;
    match goal with
    | |- context [PrimFloat.ltb tmax ?a] => destruct (PrimFloat.ltb tmax a)
    end;
    cbn; repeat split; auto.
Qed.

Ltac bind_in H :=
  repeat match type of H with
         | mbind _ ?o = Done _ =>
             let E := fresh "E" in
             destruct o eqn:E; cbn [mbind outcome_bind] in H;
             [| discriminate H ..]
         end.

Section wall_flux_facts.

Context `{RadEnv}.

Variables (nvar ivart : Z) (isothp : list Z) (tmin tmax tx : float)
  (rcodcl qincip textp tintp xlamp epap epsp hfconp flconp tempkp : list float).

(** What the branch of a face does to the wall temperature and to the
    counters. *)
Lemma wall_branch_spec (ircodcl ifac z iso : Z) (s s' : wall_state)
    (qc qr : float) :
  wall_branch tmin tmax tx rcodcl qincip textp tintp xlamp epap epsp hfconp
    flconp tempkp ircodcl ifac z iso s = Done (s', qc, qr) ->
  length (tparop s') = length (tparop s) /\
  (forall j : nat, j <> Z.to_nat ifac -> tparop s' !! j = tparop s !! j) /\
  (is_wall iso = false -> tparop s' = tparop s) /\
  ((iso =? itpimp) = true ->
   is_Some (tintp !! Z.to_nat ifac) /\
   tparop s' !! Z.to_nat ifac = tintp !! Z.to_nat ifac) /\
  (clipped_wall iso = true -> PrimFloat.ltb tmax tmin = false ->
   exists t, tparop s' !! Z.to_nat ifac = Some t /\
             PrimFloat.ltb t tmin = false /\ PrimFloat.ltb tmax t = false) /\
  counts_step (clipped_wall iso) (relaxed_wall iso) (counts s) (counts s').
Proof.
  unfold wall_branch, clipped_wall, relaxed_wall, is_wall.
  destruct (iso =? itpimp) eqn:E1; cbn [negb andb orb].
  { intros Hb. bind_in Hb. injection Hb as <- _ _. cbn [tparop counts].
    apply rd_inv in E0 as [Hi0 Hti]. apply wr_inv in E2 as [Hi ->].
    rewrite length_insert. split; [reflexivity |].
    split; [intros j Hj; now apply list_lookup_insert_ne |].
    split; [discriminate |].
    split; [intros _; split; [now rewrite Hti |];
            rewrite Hti; apply list_lookup_insert_eq; lia |].
    split; [discriminate | apply counts_step_refl]. }
  destruct (iso =? ipgrno) eqn:E2; cbn [negb andb orb].
  { intros Hb. bind_in Hb.
    match type of Hb with
    | context [relaxation ?a ?b ?c ?d ?e ?f] =>
        pose proof (relaxation_spec a b c d e f) as [Hc Hbound];
        destruct (relaxation a b c d e f) as [t' c'] eqn:Er
    end.
    bind_in Hb. injection Hb as <- _ _. cbn [tparop counts fst snd] in *.
    match goal with
    | E : wr (tparop s) ifac t' = Done _ |- _ => apply wr_inv in E as [Hi ->]
    end.
    rewrite length_insert. split; [reflexivity |].
    split; [intros j Hj; now apply list_lookup_insert_ne |].
    split; [discriminate |]. split; [discriminate |].
    split; [| exact Hc].
    intros _ Horder. exists t'. split; [apply list_lookup_insert_eq; lia |].
    now apply Hbound. }
  destruct (iso =? iprefl) eqn:E3; cbn [negb andb orb].
  { intros Hb. bind_in Hb.
    match type of Hb with
    | context [relaxation ?a ?b ?c ?d ?e ?f] =>
        pose proof (relaxation_spec a b c d e f) as [Hc Hbound];
        destruct (relaxation a b c d e f) as [t' c'] eqn:Er
    end.
    bind_in Hb. injection Hb as <- _ _. cbn [tparop counts fst snd] in *.
    match goal with
    | E : wr (tparop s) ifac t' = Done _ |- _ => apply wr_inv in E as [Hi ->]
    end.
    rewrite length_insert. split; [reflexivity |].
    split; [intros j Hj; now apply list_lookup_insert_ne |].
    split; [discriminate |]. split; [discriminate |].
    split; [| exact Hc].
    intros _ Horder. exists t'. split; [apply list_lookup_insert_eq; lia |].
    now apply Hbound. }
  destruct (iso =? ifgrno) eqn:E4; cbn [negb andb orb].
  { intros Hb. bind_in Hb.
    match type of Hb with
    | context [relaxation ?a ?b ?c ?d ?e ?f] =>
        pose proof (relaxation_spec a b c d e f) as [Hc Hbound];
        destruct (relaxation a b c d e f) as [t' c'] eqn:Er
    end.
    bind_in Hb. injection Hb as <- _ _. cbn [tparop counts fst snd] in *.
    match goal with
    | E : wr (tparop s) ifac t' = Done _ |- _ => apply wr_inv in E as [Hi ->]
    end.
    rewrite length_insert. split; [reflexivity |].
    split; [intros j Hj; now apply list_lookup_insert_ne |].
    split; [discriminate |]. split; [discriminate |].
    split; [| exact Hc].
    intros _ Horder. exists t'. split; [apply list_lookup_insert_eq; lia |].
    now apply Hbound. }
  destruct (iso =? ifrefl) eqn:E5; cbn [negb andb orb].
  { intros Hb. bind_in Hb.
    match type of Hb with
    | context [clipping ?a ?b ?c ?d] =>
        pose proof (clipping_bounds a b c d) as Hbound;
        pose proof (clipping_step a b c d) as Hc;
        destruct (clipping a b c d) as [t' c'] eqn:Er
    end.
    bind_in Hb. injection Hb as <- _ _. cbn [tparop counts fst snd] in *.
    repeat match goal with
           | E : wr _ ifac _ = Done _ |- _ => apply wr_inv in E as [? ->]
           end.
    rewrite !length_insert in *. split; [reflexivity |].
    split; [intros j Hj; now rewrite !list_lookup_insert_ne by congruence |].
    split; [discriminate |]. split; [discriminate |].
    split.
    - intros _ Horder. exists t'.
      split; [apply list_lookup_insert_eq; rewrite length_insert; lia |].
      now apply Hbound.
    - exact Hc. }
  intros [= <- _ _]. split; [reflexivity |]. split; [reflexivity |].
  split; [reflexivity |]. split; [discriminate |]. split; [discriminate |].
  apply counts_step_refl.
Qed.

Lemma max_min_frame (ifac z : Z) (qc qr : float) (s s' : wall_state) :
  max_min ifac z qc qr s = Done s' ->
  tparop s' = tparop s /\ counts s' = counts s.
Proof.
  unfold max_min. intros Hm. bind_in Hm. injection Hm as <-. now split.
Qed.

(** What the body of the loop does to the wall temperature and to the
    counters. *)
Lemma wall_face_spec (ircodcl ifac : Z) (s s' : wall_state) :
  wall_face isothp tmin tmax tx rcodcl qincip textp tintp xlamp epap epsp
    hfconp flconp tempkp ircodcl ifac s = Done s' ->
  exists iso,
    0 <= ifac /\ isothp !! Z.to_nat ifac = Some iso /\
    length (tparop s') = length (tparop s) /\
    (forall j : nat, j <> Z.to_nat ifac -> tparop s' !! j = tparop s !! j) /\
    (is_wall iso = false -> tparop s' = tparop s) /\
    ((iso =? itpimp) = true ->
     is_Some (tintp !! Z.to_nat ifac) /\
     tparop s' !! Z.to_nat ifac = tintp !! Z.to_nat ifac) /\
    (clipped_wall iso = true -> PrimFloat.ltb tmax tmin = false ->
     exists t, tparop s' !! Z.to_nat ifac = Some t /\
               PrimFloat.ltb t tmin = false /\ PrimFloat.ltb tmax t = false) /\
    counts_step (clipped_wall iso) (relaxed_wall iso) (counts s) (counts s').
Proof.
  unfold wall_face. intros Hf. bind_in Hf.
  match goal with
  | E : rd isothp ifac = Done ?i |- _ =>
      apply rd_inv in E as [Hi Hiso]; exists i
  end.
  split; [exact Hi |]. split; [exact Hiso |].
  match goal with
  | E : wall_branch _ _ _ _ _ _ _ _ _ _ _ _ _ _ _ _ _ _ = Done ?r |- _ =>
      destruct r as [[s1 qc] qr]; apply wall_branch_spec in E as Hb
  end.
  destruct (is_wall _); [| injection Hf as <-; exact Hb].
  apply max_min_frame in Hf as [-> ->]. exact Hb.
Qed.

Lemma count_below_succ (p : Z -> bool) (k iso : Z) :
  0 <= k -> isothp !! Z.to_nat k = Some iso ->
  count_below p (k + 1) isothp
  = count_below p k isothp + (if p iso then 1 else 0).
Proof.
  intros Hk Hiso. unfold count_below.
  replace (Z.to_nat (k + 1)) with (S (Z.to_nat k)) by lia.
  rewrite (take_S_r _ _ iso Hiso), filter_app, length_app.
  rewrite filter_cons, filter_nil.
  destruct (p iso); [rewrite decide_True by reflexivity
                    | rewrite decide_False by discriminate]; cbn [length]; lia.
Qed.

Lemma count_below_bounds (p : Z -> bool) (k : Z) :
  0 <= k -> 0 <= count_below p k isothp <= k.
Proof.
  intros Hk. unfold count_below. split; [lia |].
  pose proof (length_filter (fun iso => p iso = true) (take (Z.to_nat k) isothp)).
  rewrite length_take in *. lia.
Qed.

Lemma gnum_incr_small (n : Z) : 0 <= n < 2 ^ 31 -> gnum_incr n = n + 1.
Proof. intros Hn. unfold gnum_incr. apply Z.mod_small. lia. Qed.

Lemma wall_loop_inv (tparop0 : list float) (s : wall_state) :
  cs_rad_transfer_wall_flux nvar ivart isothp tmin tmax tx rcodcl qincip textp
    tintp xlamp epap epsp hfconp flconp tempkp tparop0 = Done s ->
  wall_inv isothp tmin tmax tintp tparop0 (Z.max 0 n_b_faces) s.
Proof.
  unfold cs_rad_transfer_wall_flux. intros Hrun. bind_in Hrun.
  assert (Hfaces : n_b_faces <= INT_MAX).
  { match goal with
    | E : int_value (2 * n_b_faces) = Done _ |- _ =>
        unfold int_value in E;
        destruct (Z.leb_spec INT_MIN (2 * n_b_faces));
        destruct (Z.leb_spec (2 * n_b_faces) INT_MAX);
        try discriminate E
    end. unfold INT_MAX in *. lia. }
  assert (Hstart : forall s0 : wall_state,
            tparop s0 = tparop0 ->
            nmoins (counts s0) = 0 -> nplus (counts s0) = 0 ->
            nrelax (counts s0) = 0 -> n1min (counts s0) = 0 ->
            n1max (counts s0) = 0 ->
            wall_inv isothp tmin tmax tintp tparop0 0 s0).
  { intros s0 Ht H1 H2 H3 H4 H5. unfold wall_inv.
    assert (H0 : forall p, count_below p 0 isothp = 0).
    { intros p. unfold count_below. change (Z.to_nat 0) with O.
      now rewrite take_0, filter_nil. }
    rewrite Ht, H1, H2, H3, H4, H5, !H0.
    split; [reflexivity |]. split; [reflexivity |].
    split; [intros j Hj; lia | lia]. }
  destruct (Z.le_gt_cases n_b_faces 0) as [Hneg | Hpos].
  { rewrite for_range_empty in Hrun by lia. injection Hrun as <-.
    replace (Z.max 0 n_b_faces) with 0 by lia. now apply Hstart. }
  replace (Z.max 0 n_b_faces) with n_b_faces by lia.
  refine (for_range_Done_inv
            (fun k s => k <= n_b_faces ->
                        wall_inv isothp tmin tmax tintp tparop0 k s)
            _ 0 n_b_faces _ s _ Hrun _ _ _); [lia | | | lia].
  { intros _. now apply Hstart. }
  intros k t t' Hk Hinv Hface _.
  destruct Hinv as (Hlen & Hrest & Hdone & Hm & Hp & Hsum & Hrel & Hmin & Hmax);
    [lia |].
  apply wall_face_spec in Hface
    as (iso & _ & Hiso & Hlen' & Hframe & Hnot & Himp & Hclip & Hstep).
  pose proof (count_below_succ relaxed_wall k iso ltac:(lia) Hiso) as Hcr.
  pose proof (count_below_succ clipped_wall k iso ltac:(lia) Hiso) as Hcc.
  pose proof (count_below_bounds relaxed_wall k ltac:(lia)) as Hbr.
  pose proof (count_below_bounds clipped_wall k ltac:(lia)) as Hbc.
  unfold INT_MAX in Hfaces.
  unfold wall_inv. split; [congruence |]. split; [| split].
  - intros j Hj. rewrite Hframe by lia. apply Hrest. lia.
  - intros j Hj. unfold face_done.
    destruct (decide (j = Z.to_nat k)) as [-> | Hne].
    + exists iso. split; [exact Hiso |]. split; [| split; [exact Himp | exact Hclip]].
      intros Hw. rewrite (Hnot Hw). apply Hrest. lia.
    + rewrite Hframe by exact Hne. apply Hdone. lia.
  - destruct Hstep as (Hs1 & Hs2 & Hs3 & Hs4). rewrite Hcr, Hcc.
    destruct (relaxed_wall iso), (clipped_wall iso);
      repeat match goal with
             | Hd : _ \/ _ |- _ => destruct Hd
             | Hd : _ /\ _ |- _ => destruct Hd
             end;
      try discriminate;
      repeat match goal with
             | Hd : _ = gnum_incr _ |- _ =>
                 rewrite gnum_incr_small in Hd by lia
             end;
      lia.
Qed.

(** A read and a write inside their arrays. *)
Ltac rd_ok :=
  match goal with
  | |- context [rd ?l ?i] =>
      let x := fresh "x" in
      let Hx := fresh "Hx" in
      destruct (lookup_lt_is_Some_2 l (Z.to_nat i)) as [x Hx];
      [rewrite ?length_insert; lia |];
      rewrite (rd_Done l i x) by (lia || exact Hx);
      cbn [mbind outcome_bind]
  end.

Ltac wr_ok :=
  match goal with
  | |- context [wr ?l ?i ?x] =>
      rewrite (wr_Done l i x) by (rewrite ?length_insert; lia);
      cbn [mbind outcome_bind]
  end.

(** The body of the loop returns when the arrays have the sizes it
    relies on, and keeps the sizes of those it updates. *)
Lemma wall_face_returns (ircodcl nz k : Z) (s : wall_state) :
  0 <= k < n_b_faces ->
  0 <= ircodcl -> ircodcl + n_b_faces <= INT_MAX ->
  ircodcl + n_b_faces <= Z.of_nat (length rcodcl) ->
  n_b_faces <= Z.of_nat (length isothp) ->
  n_b_faces <= Z.of_nat (length b_face_class_id) ->
  n_b_faces <= Z.of_nat (length b_face_cells) ->
  n_b_faces <= Z.of_nat (length qincip) ->
  n_b_faces <= Z.of_nat (length textp) ->
  n_b_faces <= Z.of_nat (length tintp) ->
  n_b_faces <= Z.of_nat (length xlamp) ->
  n_b_faces <= Z.of_nat (length epap) ->
  n_b_faces <= Z.of_nat (length epsp) ->
  n_b_faces <= Z.of_nat (length hfconp) ->
  n_b_faces <= Z.of_nat (length flconp) ->
  (forall z, b_face_class_id !! Z.to_nat k = Some z -> 0 <= z < nz) ->
  (forall c, b_face_cells !! Z.to_nat k = Some c ->
             0 <= c < Z.of_nat (length tempkp)) ->
  n_b_faces <= Z.of_nat (length (tparop s)) ->
  Z.of_nat (length (indtp s)) = nz ->
  Z.of_nat (length (tzomax s)) = nz ->
  Z.of_nat (length (tzomin s)) = nz ->
  exists s',
    wall_face isothp tmin tmax tx rcodcl qincip textp tintp xlamp epap epsp
      hfconp flconp tempkp ircodcl k s = Done s' /\
    length (tparop s') = length (tparop s) /\
    length (indtp s') = length (indtp s) /\
    length (tzomax s') = length (tzomax s) /\
    length (tzomin s') = length (tzomin s).
Proof.
  intros Hk Hir0 Hir1 Hrc Hiso Hcls Hcel Hq Hte Hti Hxl Hep Hes Hhf Hfl
    Hzone Hcell Htp Hind Hzmax Hzmin.
  assert (Hint : int_value (k + ircodcl) = Done (k + ircodcl)).
  { unfold int_value, INT_MIN, INT_MAX in *.
    destruct (Z.leb_spec (-2147483648) (k + ircodcl)); [| lia].
    destruct (Z.leb_spec (k + ircodcl) 2147483647); [reflexivity | lia]. }
  assert (Hmm : forall (s1 : wall_state) (qc qr : float),
    length (tparop s1) = length (tparop s) ->
    length (indtp s1) = length (indtp s) ->
    tzomax s1 = tzomax s -> tzomin s1 = tzomin s ->
    forall iso z, 0 <= z < nz ->
    exists s',
      (if is_wall iso then max_min k z qc qr s1 else Done s1) = Done s' /\
      length (tparop s') = length (tparop s) /\
      length (indtp s') = length (indtp s) /\
      length (tzomax s') = length (tzomax s) /\
      length (tzomin s') = length (tzomin s)).
  { intros s1 qc qr H1 H2 H3 H4 iso z Hz. destruct (is_wall iso).
    - unfold max_min. rewrite H3, H4. rewrite <- H1 in Htp.
      repeat first [rd_ok | wr_ok].
      eexists. split; [reflexivity |]. cbn [tparop indtp tzomax tzomin].
      rewrite !length_insert. auto.
    - exists s1. rewrite H3, H4. auto. }
  unfold wall_face. rd_ok. rd_ok.
  match goal with
  | Hx : b_face_class_id !! Z.to_nat k = Some ?z |- _ =>
      pose proof (Hzone z Hx) as Hz
  end.
  unfold wall_branch.
  repeat match goal with
         | |- context [if (?a =? ?b)%Z then _ else _] => destruct (a =? b)%Z
         end;
    repeat first
      [ match goal with
        | Hx : b_face_cells !! Z.to_nat k = Some ?c |- _ =>
            lazymatch goal with
            | _ : 0 <= c < _ |- _ => fail
            | _ => pose proof (Hcell c Hx)
            end
        end
      | rd_ok | wr_ok
      | rewrite Hint; cbn [mbind outcome_bind]
      | match goal with
        | |- context [relaxation ?a ?b ?c ?d ?e ?f] =>
            destruct (relaxation a b c d e f) as [? ?]
        | |- context [clipping ?a ?b ?c ?d] =>
            destruct (clipping a b c d) as [? ?]
        end ];
    cbn [mbind outcome_bind]; cbv beta iota;
    (edestruct Hmm as (s' & -> & Hs');
     [| | | | | exists s'; split; [reflexivity | exact Hs']]);
    cbn [tparop indtp tzomax tzomin]; rewrite ?length_insert; auto.
Qed.

(** X24.  The function has a defined behaviour and goes through all the
    boundary faces when the arrays have the sizes it relies on: an offset
    in [rcodcl] that fits an [int], [n_b_faces] entries in each array
    indexed by a face and in [rcodcl] past the offset, a class among the
    zones for each face, and a cell with a temperature for each face.
    No test of the function checks any of this. *)
Theorem wall_flux_returns (tparop0 : list float) :
  wall_arrays_sized nvar ivart isothp rcodcl qincip textp tintp xlamp epap epsp
    hfconp flconp tempkp tparop0 ->
  exists s,
    cs_rad_transfer_wall_flux nvar ivart isothp tmin tmax tx rcodcl qincip textp
      tintp xlamp epap epsp hfconp flconp tempkp tparop0 = Done s.
Proof.
  intros (Hn & Hiv & Hnv & H2n & Hir & Hmax & Hiso & Hcls & Hcel & Hrc & Hq & Hte
          & Hti & Hxl & Hep & Hes & Hhf & Hfl & Htp & Hzone & Hcell).
  cbv zeta in Hir, Hrc.
  pose proof (Z.mul_nonneg_nonneg ivart n_b_faces Hiv Hn) as Ha.
  assert (Hb : 0 <= 2 * n_b_faces * nvar).
  { apply Z.mul_nonneg_nonneg; lia. }
  set (a := ivart * n_b_faces) in *. set (b := 2 * n_b_faces * nvar) in *.
  assert (Hval : forall z, 0 <= z <= INT_MAX -> int_value z = Done z).
  { intros z Hz. unfold int_value, INT_MIN, INT_MAX in *.
    destruct (Z.leb_spec (-2147483648) z); [| lia].
    destruct (Z.leb_spec z 2147483647); [reflexivity | lia]. }
  unfold cs_rad_transfer_wall_flux.
  rewrite (Hval (cs_boundary_zone_max_class_or_zone_id + 1)) by lia.
  cbn [mbind outcome_bind].
  destruct (Z.ltb_spec (cs_boundary_zone_max_class_or_zone_id + 1) 0); [lia |].
  cbn [mbind outcome_bind].
  fold a. rewrite (Hval a) by lia. cbn [mbind outcome_bind].
  rewrite (Hval (2 * n_b_faces)) by lia. cbn [mbind outcome_bind].
  fold b. rewrite (Hval b) by lia. cbn [mbind outcome_bind].
  rewrite (Hval (a + b)) by lia. cbn [mbind outcome_bind].
  destruct (for_range_inv
              (fun _ (s : wall_state) =>
                 length (tparop s) = length tparop0 /\
                 Z.of_nat (length (indtp s))
                 = cs_boundary_zone_max_class_or_zone_id + 1 /\
                 Z.of_nat (length (tzomax s))
                 = cs_boundary_zone_max_class_or_zone_id + 1 /\
                 Z.of_nat (length (tzomin s))
                 = cs_boundary_zone_max_class_or_zone_id + 1)
              (wall_face isothp tmin tmax tx rcodcl qincip textp tintp xlamp
                 epap epsp hfconp flconp tempkp (a + b)) 0 n_b_faces
              {| tparop := tparop0;
                 counts := {| n1min := 0; n1max := 0; nrelax := 0; nmoins := 0;
                              nplus := 0; rapmax := 0 |};
                 marks := {| iitpim := 0; iipgrn := 0; iipref := 0; iifgrn := 0;
                             iifref := 0 |};
                 extrema := {| tpmax := - cs_math_big_r; ifacmx := 0;
                               qcmax := - cs_math_big_r;
                               qrmax := - cs_math_big_r;
                               tpmin := cs_math_big_r; ifacmn := 0;
                               qcmin := cs_math_big_r; qrmin := cs_math_big_r |};
                 indtp := replicate
                            (Z.to_nat (cs_boundary_zone_max_class_or_zone_id + 1))
                            0;
                 tzomax := replicate
                             (Z.to_nat (cs_boundary_zone_max_class_or_zone_id + 1))
                             (- cs_math_big_r)%float;
                 tzomin := replicate
                             (Z.to_nat (cs_boundary_zone_max_class_or_zone_id + 1))
                             cs_math_big_r |})
    as (s & Hrun & _).
  - exact Hn.
  - cbn [tparop indtp tzomax tzomin]. rewrite !length_replicate.
    split; [reflexivity | lia].
  - intros k t Hk (Ht & Hi & Hzx & Hzn).
    destruct (wall_face_returns (a + b)
                (cs_boundary_zone_max_class_or_zone_id + 1) k t)
      as (t' & Hface & Ht' & Hi' & Hzx' & Hzn'); try lia.
    + intros z Hz. specialize (Hzone (Z.to_nat k) z ltac:(lia) Hz). lia.
    + intros c Hc. apply (Hcell (Z.to_nat k) c); [lia | exact Hc].
    + exists t'. split; [exact Hface |]. rewrite Ht', Hi', Hzx', Hzn'. auto.
  - exists s. exact Hrun.
Qed.

(** X21.  When the loop on the boundary faces is over, the wall
    temperature of every face that is a wall of one of the four kinds
    other than isothermal is neither below [*tmin] nor above [*tmax],
    provided [*tmax] is not below [*tmin]: whatever the flux balance and
    the relaxation gave has been clipped.  (A NaN, which no comparison
    catches, is the one value outside of the interval that this
    allows.) *)
Theorem wall_temperature_clipped (tparop0 : list float) (s : wall_state)
    (ifac iso : Z) :
  cs_rad_transfer_wall_flux nvar ivart isothp tmin tmax tx rcodcl qincip textp
    tintp xlamp epap epsp hfconp flconp tempkp tparop0 = Done s ->
  PrimFloat.ltb tmax tmin = false ->
  0 <= ifac < n_b_faces ->
  isothp !! Z.to_nat ifac = Some iso ->
  clipped_wall iso = true ->
  exists t, tparop s !! Z.to_nat ifac = Some t /\
            PrimFloat.ltb t tmin = false /\ PrimFloat.ltb tmax t = false.
Proof.
  intros Hrun Horder Hifac Hiso Hkind.
  apply wall_loop_inv in Hrun as (_ & _ & Hdone & _).
  destruct (Hdone (Z.to_nat ifac)) as (iso' & Hiso' & _ & _ & Hclip); [lia |].
  rewrite Hiso in Hiso'. injection Hiso' as <-. now apply Hclip.
Qed.

(** X22.  What the function leaves alone and what it copies: the array
    of the wall temperatures keeps its length; the temperature of a face
    that is not a wall of one of the five kinds, and whatever the array
    holds from [n_b_faces] on, is as it was; the temperature of an
    isothermal wall is its interior temperature [tintp], not clipped. *)
Theorem wall_temperature_frame (tparop0 : list float) (s : wall_state) :
  cs_rad_transfer_wall_flux nvar ivart isothp tmin tmax tx rcodcl qincip textp
    tintp xlamp epap epsp hfconp flconp tempkp tparop0 = Done s ->
  length (tparop s) = length tparop0 /\
  forall j : nat,
    (n_b_faces <= Z.of_nat j -> tparop s !! j = tparop0 !! j) /\
    (forall iso, Z.of_nat j < n_b_faces -> isothp !! j = Some iso ->
       (is_wall iso = false -> tparop s !! j = tparop0 !! j) /\
       (iso = itpimp -> is_Some (tintp !! j) /\ tparop s !! j = tintp !! j)).
Proof.
  intros Hrun. apply wall_loop_inv in Hrun as (Hlen & Hrest & Hdone & _).
  split; [exact Hlen |]. intros j. split.
  - intros Hj. apply Hrest. lia.
  - intros iso Hj Hiso.
    destruct (Hdone j) as (iso' & Hiso' & Hnot & Himp & _); [lia |].
    rewrite Hiso in Hiso'. injection Hiso' as <-. split; [exact Hnot |].
    intros ->. apply Himp. apply Z.eqb_refl.
Qed.

(** X23.  The counters of the log: every wall whose temperature moves
    by a relaxed variation (grey or black, reflecting, non-reflecting
    conduction flux) is counted exactly once, as decreasing or as
    increasing, so that [nmoins + nplus] is the number of these faces;
    [nrelax] is at most that number, and [n1min] and [n1max] are each at
    most the number of the walls whose temperature is clipped.  No
    counter wraps around. *)
Theorem wall_counters (tparop0 : list float) (s : wall_state) :
  cs_rad_transfer_wall_flux nvar ivart isothp tmin tmax tx rcodcl qincip textp
    tintp xlamp epap epsp hfconp flconp tempkp tparop0 = Done s ->
  nmoins (counts s) + nplus (counts s) = count_faces relaxed_wall isothp /\
  0 <= nmoins (counts s) /\ 0 <= nplus (counts s) /\
  0 <= nrelax (counts s) <= count_faces relaxed_wall isothp /\
  0 <= n1min (counts s) <= count_faces clipped_wall isothp /\
  0 <= n1max (counts s) <= count_faces clipped_wall isothp.
Proof.
  intros Hrun.
  apply wall_loop_inv in Hrun as (_ & _ & _ & Hm & Hp & Hsum & Hrel & Hmin & Hmax).
  assert (Hcount : forall p, count_below p (Z.max 0 n_b_faces) isothp
                             = count_faces p isothp).
  { intros p. unfold count_faces, count_below.
    now replace (Z.to_nat (Z.max 0 n_b_faces)) with (Z.to_nat n_b_faces) by lia. }
  rewrite !Hcount in *. tauto.
Qed.

End wall_flux_facts.

Lemma wall_temperature_clipped_witness :
  exists s t,
    Cases.wall_run = Done s /\
    tparop s !! 1%nat = Some t /\
    PrimFloat.ltb t 298 = false /\ PrimFloat.ltb 1000 t = false.
Proof.
  destruct Cases.wall_run as [s | | |] eqn:Hrun;
    try (vm_compute in Hrun; discriminate).
  destruct (@wall_temperature_clipped Cases.rad_env _ _ _ _ _ _ _ _ _ _ _ _ _ _
              _ _ _ s 1 21 Hrun) as (t & Ht);
    [reflexivity | cbn; lia | reflexivity | reflexivity |].
  exists s, t. split; [reflexivity | exact Ht].
Defined.

Lemma wall_temperature_frame_witness :
  exists s,
    Cases.wall_run = Done s /\
    length (tparop s) = 3%nat /\
    tparop s !! 2%nat = Some 300%float /\
    tparop s !! 0%nat = Some 350%float.
Proof.
  destruct Cases.wall_run as [s | | |] eqn:Hrun;
    try (vm_compute in Hrun; discriminate).
  destruct (@wall_temperature_frame Cases.rad_env _ _ _ _ _ _ _ _ _ _ _ _ _ _
              _ _ _ s Hrun) as (Hlen & Hframe).
  exists s. split; [reflexivity |]. split; [exact Hlen |]. split.
  - destruct (Hframe 2%nat) as (_ & Hface).
    destruct (Hface 7) as (Hnot & _); [cbn; lia | reflexivity |].
    now rewrite Hnot.
  - destruct (Hframe 0%nat) as (_ & Hface).
    destruct (Hface 1) as (_ & Himp); [cbn; lia | reflexivity |].
    destruct (Himp eq_refl) as (_ & ->). reflexivity.
Defined.

Lemma wall_counters_witness :
  exists s,
    Cases.wall_run = Done s /\
    nmoins (counts s) + nplus (counts s) = 1 /\
    0 <= nmoins (counts s) /\ 0 <= nplus (counts s) /\
    0 <= nrelax (counts s) <= 1 /\
    0 <= n1min (counts s) <= 1 /\
    0 <= n1max (counts s) <= 1.
Proof.
  destruct Cases.wall_run as [s | | |] eqn:Hrun;
    try (vm_compute in Hrun; discriminate).
  exists s. split; [reflexivity |].
  exact (@wall_counters Cases.rad_env _ _ _ _ _ _ _ _ _ _ _ _ _ _ _ _ _ s Hrun).
Defined.

Lemma wall_flux_returns_witness :
  exists s, Cases.wall_run = Done s.
Proof.
  apply (@wall_flux_returns Cases.rad_env).
  unfold wall_arrays_sized, INT_MAX. cbn.
  repeat (split; [lia |]). split.
  - intros j z Hj Hz.
    destruct j as [| [| [| j]]]; cbn in Hz; try lia; injection Hz as <-; lia.
  - intros j c Hj Hc.
    destruct j as [| [| [| j]]]; cbn in Hc; try lia; injection Hc as <-; lia.
Defined.

(* ================================================================== *)
(** ** The macros of [fvm_defs.h] on [double] values *)

Lemma SFcompare_antisym (x y : SpecFloat.spec_float) :
  SpecFloat.SFcompare y x = option_map CompOpp (SpecFloat.SFcompare x y).
Proof.
  destruct x as [s1 | s1 | | s1 m1 e1], y as [s2 | s2 | | s2 m2 e2]; cbn;
    try reflexivity;
    try (destruct s1; reflexivity); try (destruct s2; reflexivity);
    try (destruct s1, s2; reflexivity).
  assert (Hm : Pos.compare_cont Eq m2 m1 = CompOpp (Pos.compare_cont Eq m1 m2))
    by exact (eq_sym (Pos.compare_cont_antisym m1 m2 Eq)).
  destruct s1, s2; cbn; try reflexivity;
    rewrite (Z.compare_antisym e1 e2); destruct (e1 ?= e2)%Z; cbn;
    try reflexivity;
    rewrite Hm; now destruct (Pos.compare_cont Eq m1 m2).
Qed.

(** A value below another one is not above it. *)
Lemma ltb_asym (x y : float) :
  PrimFloat.ltb x y = true -> PrimFloat.ltb y x = false.
Proof.
  rewrite !FloatAxioms.ltb_spec. unfold SpecFloat.SFltb.
  rewrite (SFcompare_antisym (Prim2SF x) (Prim2SF y)).
  now destruct (SpecFloat.SFcompare (Prim2SF x) (Prim2SF y)) as [[| |] |].
Qed.

(** X25.  [FVM_MAX(a,b)] is below neither of its arguments and
    [FVM_MIN(a,b)] is above neither of them, for all values of type
    [double], the infinities and NaN included. *)
Theorem fvm_max_min_bounds (a b : float) :
  PrimFloat.ltb (FVM_MAX a b) a = false /\
  PrimFloat.ltb (FVM_MAX a b) b = false /\
  PrimFloat.ltb a (FVM_MIN a b) = false /\
  PrimFloat.ltb b (FVM_MIN a b) = false.
Proof.
  unfold FVM_MAX, FVM_MIN. destruct (PrimFloat.ltb a b) eqn:Hab.
  - rewrite (ltb_asym a b Hab).
    repeat split; auto using ltb_irrefl, ltb_asym.
  - destruct (PrimFloat.ltb b a) eqn:Hba; repeat split; auto using ltb_irrefl.
Qed.

(** X26.  The two macros give their first argument whenever one of the
    two is a NaN: a NaN in the second argument is dropped, a NaN in the
    first one is the result.  They do not commute. *)
Theorem fvm_max_min_nan (a b : float) :
  is_nan a = true \/ is_nan b = true ->
  FVM_MAX a b = a /\ FVM_MIN a b = a.
Proof.
  intros Hnan. unfold FVM_MAX, FVM_MIN.
  destruct Hnan as [Ha | Hb].
  - now rewrite (ltb_nan_l a b Ha), (ltb_nan_r b a Ha).
  - now rewrite (ltb_nan_r a b Hb), (ltb_nan_l b a Hb).
Qed.

Lemma fvm_max_min_nan_witness :
  (FVM_MAX 1 (0 / 0) = 1%float /\ FVM_MIN 1 (0 / 0) = 1%float) /\
  (FVM_MAX (0 / 0) 1 = (0 / 0)%float /\ FVM_MIN (0 / 0) 1 = (0 / 0)%float).
Proof.
  split.
  - apply (fvm_max_min_nan 1 (0 / 0)). right. reflexivity.
  - apply (fvm_max_min_nan (0 / 0) 1). left. reflexivity.
Defined.

(** X27.  [FVM_ABS(a)] is never below zero.  It is the absolute value of
    [a] for every [a] that is neither a NaN nor the negative zero.  A NaN
    and the negative zero are not below zero: the macro gives them back
    as they are, sign included, where the absolute value would clear the
    sign. *)
Theorem fvm_abs_spec (a : float) :
  PrimFloat.ltb (FVM_ABS a) 0 = false /\
  (is_nan a = false -> Prim2SF a <> SpecFloat.S754_zero true ->
   FVM_ABS a = PrimFloat.abs a) /\
  (is_nan a = true \/ Prim2SF a = SpecFloat.S754_zero true -> FVM_ABS a = a).
Proof.
  unfold FVM_ABS. split; [| split].
  - destruct (PrimFloat.ltb a 0) eqn:Hlt.
    + revert Hlt. rewrite !FloatAxioms.ltb_spec, FloatAxioms.opp_spec.
      change (Prim2SF 0) with (SpecFloat.S754_zero false).
      unfold SpecFloat.SFltb.
      destruct (Prim2SF a) as [s | s | | s m e]; cbn; try discriminate.
      * destruct s; [reflexivity | discriminate].
      * destruct s; [reflexivity | discriminate].
    + exact Hlt.
  - intros Hnan Hzero.
    assert (Hnn : Prim2SF a <> SpecFloat.S754_nan).
    { intros E. apply is_nan_spec in E. congruence. }
    rewrite FloatAxioms.ltb_spec. unfold SpecFloat.SFltb.
    change (Prim2SF 0) with (SpecFloat.S754_zero false).
    pose proof (FloatAxioms.abs_spec a) as Habs.
    pose proof (FloatAxioms.opp_spec a) as Hopp.
    destruct (Prim2SF a) as [s | s | | s m e] eqn:Ha; cbn in *.
    + destruct s; [congruence |].
      apply FloatAxioms.Prim2SF_inj. congruence.
    + destruct s; apply FloatAxioms.Prim2SF_inj; cbn in *; congruence.
    + congruence.
    + destruct s; apply FloatAxioms.Prim2SF_inj; cbn in *; congruence.
  - intros [Hnan | Hzero].
    + now rewrite (ltb_nan_l a 0 Hnan).
    + rewrite FloatAxioms.ltb_spec, Hzero. reflexivity.
Qed.

Lemma fvm_abs_spec_witness :
  (FVM_ABS (-2.5) = 2.5%float /\ FVM_ABS (0 / 0) = (0 / 0)%float) /\
  FVM_ABS (-0) = (-0)%float /\ PrimFloat.ltb (FVM_ABS (-0)) 0 = false.
Proof.
  destruct (fvm_abs_spec (-2.5)) as (_ & Habs & _).
  destruct (fvm_abs_spec (0 / 0)) as (_ & _ & Hnan).
  destruct (fvm_abs_spec (-0)) as (Hpos & _ & Hzero).
  split; [split |]; [| | split].
  - rewrite Habs; [reflexivity | reflexivity | vm_compute; discriminate].
  - apply Hnan. left. reflexivity.
  - apply Hzero. right. reflexivity.
  - exact Hpos.
Defined.

(* ================================================================== *)
(** ** Assembly of densities defined by value *)

(** The evaluators of densities by value, run one after the other. *)
Lemma run_constant_densities `{Env} (sts : list cs_source_term_t)
    (cm : cs_cell_mesh_t) (cs : list (option cs_source_term_cellwise_t))
    (cb : cs_cell_builder_t) (m : nat) :
  n_vc cm <= Z.of_nat (length (wvc cm)) ->
  forall (i0 : Z) (buf : list float),
    0 <= i0 ->
    (forall i, i0 <= i < i0 + Z.of_nat m ->
       cs !! Z.to_nat i = Some (Some cs_source_term_dcsd_by_value) /\
       exists st c, sts !! Z.to_nat i = Some st /\ def st = def_get c) ->
    0 <= n_vc cm <= Z.of_nat (length buf) ->
    exists buf',
      run_terms sts cm cs (seqZ i0 (Z.of_nat m)) (cb, buf) = Done (cb, buf') /\
      length buf' = length buf /\
      forall v : nat,
        buf' !! v =
          if decide (Z.of_nat v < n_vc cm)
          then x ← buf !! v; w ← wvc cm !! v;
               Some (add_values (take m (drop (Z.to_nat i0) sts)) w x)
          else buf !! v.
Proof.
  intros Hw. induction m as [| m IH]; intros i0 buf Hi0 Hterms Hbuf.
  - exists buf. split; [reflexivity |]. split; [reflexivity |]. intros v.
    destruct (decide (Z.of_nat v < n_vc cm)) as [Hv |]; [| reflexivity].
    destruct (lookup_lt_is_Some_2 (wvc cm) v) as [w Hwv]; [lia |].
    rewrite Hwv. now destruct (buf !! v).
  - rewrite seqZ_cons by lia.
    destruct (Hterms i0) as (Hh & st & c & Hst & Hdef); [lia |].
    destruct (dcsd_by_value_adds st c cm cb buf Hdef Hbuf Hw)
      as (buf1 & Hcall & Hlen1 & Hval1).
    assert (Hstep : forall ids,
              run_terms sts cm cs (i0 :: ids) (cb, buf)
              = run_terms sts cm cs ids (cb, buf1)).
    { intros ids. cbn [run_terms]. rewrite Hh, Hst. cbn [fst snd].
      rewrite Hcall. reflexivity. }
    rewrite Hstep.
    destruct (IH (i0 + 1) buf1) as (buf' & Hrun & Hlen & Hval).
    + lia.
    + intros i Hi. apply Hterms. lia.
    + rewrite Hlen1. exact Hbuf.
    + exists buf'. replace (Z.succ i0) with (i0 + 1) by lia.
      replace (Z.pred (Z.of_nat (S m))) with (Z.of_nat m) by lia.
      split; [exact Hrun |]. split; [congruence |]. intros v.
      rewrite Hval, Hval1.
      destruct (decide (Z.of_nat v < n_vc cm)) as [Hv |]; [| reflexivity].
      rewrite (drop_S sts st (Z.to_nat i0) Hst). cbn [take].
      replace (Z.to_nat (i0 + 1)) with (S (Z.to_nat i0)) by lia.
      destruct (buf !! v) as [x |]; [| reflexivity].
      destruct (wvc cm !! v) as [w |]; [| reflexivity].
      cbn. unfold add_values, term_value. cbn [fold_left]. now rewrite Hdef.
Qed.

(** X28.  Set-up and assembly of densities defined by value on the whole
    mesh, under the vertex-based scheme: the initialisation returns with
    no mask, and the assembly in a cell leaves, for each vertex of the
    cell, the products of the values of the terms by the weight
    [cm->wvc] of the vertex, added to zero one after the other in the
    order of the terms.  The volume of the cell is not a factor of the
    result.  The number of vertices of the cell is the [short int]
    [cm->n_vc]: it is at most 32767, so that the [short int] counter of
    the reset loop reaches the number of degrees of freedom. *)
Theorem constant_densities_assembly `{Env} (n : Z)
    (sts : list cs_source_term_t)
    (cs0 : list (option cs_source_term_cellwise_t)) (sf0 : Z)
    (cm : cs_cell_mesh_t) (flag_sys : Z) (cb : cs_cell_builder_t)
    (csys : cs_cell_sys_t) :
  registry_sized n sts cs0 ->
  (forall i st, term_at n sts i st -> constant_density st) ->
  n_dofs csys = n_vc cm ->
  0 <= n_vc cm <= Z.of_nat (length (source csys)) ->
  n_vc cm <= 32767 ->
  n_vc cm <= Z.of_nat (length (wvc cm)) ->
  flag_on flag_sys CS_FLAG_SYS_SOURCETERM = true ->
  exists cs sf src,
    cs_source_term_init CS_SPACE_SCHEME_CDOVB n sts cs0 sf0 = Done (cs, sf, None) /\
    cs_source_term_compute_cellwise n sts cm flag_sys None cs cb csys
    = Done (cb, {| n_dofs := n_dofs csys; source := src |}) /\
    length src = length (source csys) /\
    forall (v : nat) (w : float),
      Z.of_nat v < n_vc cm -> wvc cm !! v = Some w ->
      src !! v = Some (add_values (take (Z.to_nat n) sts) w 0).
Proof.
  intros (Hn & Hsts & Hcs & Hshort) Hterms Hdofs Hvc Hvshort Hw Hflag.
  assert (Heval : forall i st, term_at n sts i st ->
            support_declared st /\
            term_evaluator CS_SPACE_SCHEME_CDOVB st
            = Some cs_source_term_dcsd_by_value).
  { intros i st Hi. destruct (Hterms i st Hi) as (Hdual & _ & Hdt & _).
    split; [now left |].
    unfold term_evaluator, support_of, evaluator_of. now rewrite Hdual, Hdt. }
  assert (Hinit : exists cs sf,
            cs_source_term_init CS_SPACE_SCHEME_CDOVB n sts cs0 sf0
            = Done (cs, sf, None) /\
            forall i st, term_at n sts i st ->
              cs !! Z.to_nat i = Some (Some cs_source_term_dcsd_by_value)).
  { unfold cs_source_term_init.
    destruct (Z.ltb_spec CS_N_MAX_SOURCE_TERMS n) as [| _]; [lia |].
    rewrite null_handles_run by (exact Hshort || now right).
    cbn [mbind outcome_bind].
    destruct (Z.eqb_spec n 0) as [Hn0 | Hn0].
    { eexists _, _. split; [reflexivity |]. intros i st [Hi _]. lia. }
    destruct (init_loop_total CS_SPACE_SCHEME_CDOVB n sts
                (nulled CS_N_MAX_SOURCE_TERMS cs0) sf0)
      as (cs & sf & nm & Hloop).
    - lia.
    - rewrite nulled_length by now right. lia.
    - intros i st Hi. destruct (Heval i st Hi) as [Hs He].
      split; [exact Hs | rewrite He; eauto].
    - rewrite Hloop. cbn [mbind outcome_bind]. cbv beta iota.
      destruct (init_loop_Done CS_SPACE_SCHEME_CDOVB n sts _ cs sf0 sf nm
                  ltac:(lia) Hloop) as (_ & Hh & Hnm).
      destruct nm.
      + destruct (proj1 Hnm eq_refl) as (i & st & Hi & Hf).
        destruct (Hterms i st Hi) as (_ & Hfull & _). congruence.
      + exists cs, sf. split; [reflexivity |]. intros i st Hi.
        destruct (Hh i st Hi) as (h & He & Hc).
        destruct (Heval i st Hi) as [_ He']. congruence. }
  destruct Hinit as (cs & sf & Hinit & Hhandles).
  destruct (run_constant_densities sts cm cs cb (Z.to_nat n) Hw 0
              (zeroed (n_dofs csys) (source csys))) as (src & Hrun & Hlen & Hval).
  { lia. }
  { intros i Hi.
    destruct (lookup_lt_is_Some_2 sts (Z.to_nat i)) as [st Hst]; [lia |].
    assert (Hat : term_at n sts i st) by (split; [lia | exact Hst]).
    split; [now apply (Hhandles i st) |].
    destruct (Hterms i st Hat) as (_ & _ & _ & c & Hc). now exists st, c. }
  { unfold zeroed. rewrite length_app, length_replicate, length_drop. lia. }
  exists cs, sf, src. split; [exact Hinit |]. split; [| split].
  - unfold cs_source_term_compute_cellwise.
    rewrite reset_short by lia. cbn [mbind outcome_bind]. rewrite Hflag.
    rewrite for_short_range by lia. unfold for_range.
    rewrite for_loop_run_terms by lia. rewrite Z.sub_0_r, Hrun. reflexivity.
  - rewrite Hlen. unfold zeroed.
    rewrite length_app, length_replicate, length_drop. lia.
  - intros v w Hv Hwv. rewrite Hval.
    destruct (decide (Z.of_nat v < n_vc cm)); [| lia].
    unfold zeroed. rewrite lookup_app_l by (rewrite length_replicate; lia).
    rewrite lookup_replicate_2 by lia. rewrite Hwv. reflexivity.
Qed.

Lemma constant_densities_assembly_witness :
  exists cs sf src,
    @cs_source_term_init Example.env CS_SPACE_SCHEME_CDOVB 2 Cases.two_constants
      Example.no_handles 8 = Done (cs, sf, None) /\
    @cs_source_term_compute_cellwise Example.env 2 Cases.two_constants
      Example.cell 8 None cs Example.builder Example.csys
    = Done (Example.builder, {| n_dofs := 4; source := src |}) /\
    length src = 4%nat /\
    forall (v : nat) (w : float),
      Z.of_nat v < 4 -> wvc Example.cell !! v = Some w ->
      src !! v = Some (0 + 2 * w + 0.5 * w)%float.
Proof.
  apply (@constant_densities_assembly Example.env 2 Cases.two_constants
           Example.no_handles 8 Example.cell 8 Example.builder Example.csys).
  - repeat split; cbn; lia.
  - intros i st [Hi Hst].
    assert (Hc : i = 0 \/ i = 1) by lia.
    destruct Hc as [-> | ->]; cbn in Hst; injection Hst as <-;
      (split; [reflexivity |]); (split; [reflexivity |]);
      (split; [reflexivity |]); eexists; reflexivity.
  - reflexivity.
  - cbn. lia.
  - cbn. lia.
  - cbn. lia.
  - reflexivity.
Defined.

(* ================================================================== *)
(** ** A potential defined by value *)

(** The loop that gathers [n] entries of a buffer. *)
Lemma gather_loop {A : Type} (buf : list A) (off n : Z) :
  0 <= off -> 0 <= n -> off + n <= Z.of_nat (length buf) ->
  for_range 0 n (fun i acc => x ← rd buf (off + i); Done (acc ++ [x])) []
  = Done (take (Z.to_nat n) (drop (Z.to_nat off) buf)).
Proof.
  intros Hoff Hn Hlen.
  destruct (for_range_inv
              (fun i acc => acc = take (Z.to_nat i) (drop (Z.to_nat off) buf))
              (fun i acc => x ← rd buf (off + i); Done (acc ++ [x]))
              0 n []) as (acc & Hloop & ->); [exact Hn | reflexivity | |].
  - intros i t Hi ->.
    destruct (lookup_lt_is_Some_2 buf (Z.to_nat (off + i))) as [x Hx]; [lia |].
    rewrite (rd_Done buf (off + i) x) by (lia || exact Hx).
    cbn [mbind outcome_bind]. eexists. split; [reflexivity |].
    replace (Z.to_nat (i + 1)) with (S (Z.to_nat i)) by lia.
    symmetry. apply take_S_r. rewrite lookup_drop. rewrite <- Hx. f_equal. lia.
  - exact Hloop.
Qed.

(** The loop that stores [n] entries in a buffer. *)
Lemma scatter_loop {A : Type} (prod buf : list A) (off n : Z) :
  0 <= off -> 0 <= n -> off + n <= Z.of_nat (length buf) ->
  n <= Z.of_nat (length prod) ->
  exists buf',
    for_range 0 n (fun i buf => x ← rd prod i; wr buf (off + i) x) buf
    = Done buf' /\
    length buf' = length buf /\
    forall j : nat,
      buf' !! j =
        if decide (off <= Z.of_nat j < off + n)
        then prod !! (j - Z.to_nat off)%nat
        else buf !! j.
Proof.
  intros Hoff Hn Hlen Hprod.
  destruct (for_range_inv
              (fun i t =>
                 length t = length buf /\
                 forall j : nat,
                   t !! j = if decide (off <= Z.of_nat j < off + i)
                            then prod !! (j - Z.to_nat off)%nat
                            else buf !! j)
              (fun i buf => x ← rd prod i; wr buf (off + i) x)
              0 n buf) as (buf' & Hloop & Hl & Hv); [exact Hn | | |].
  - split; [reflexivity |]. intros j.
    destruct (decide (off <= Z.of_nat j < off + 0)); [lia | reflexivity].
  - intros i t Hi [Hl Hv].
    destruct (lookup_lt_is_Some_2 prod (Z.to_nat i)) as [x Hx]; [lia |].
    rewrite (rd_Done prod i x) by (lia || exact Hx). cbn [mbind outcome_bind].
    rewrite wr_Done by lia. eexists. split; [reflexivity |].
    split; [now rewrite length_insert |]. intros j.
    destruct (decide (j = Z.to_nat (off + i))) as [-> | Hne].
    + rewrite list_lookup_insert_eq by lia.
      destruct (decide (off <= Z.of_nat (Z.to_nat (off + i)) < off + (i + 1)));
        [| lia].
      rewrite <- Hx. f_equal. lia.
    + rewrite list_lookup_insert_ne by congruence. rewrite Hv.
      destruct (decide (off <= Z.of_nat j < off + i)),
        (decide (off <= Z.of_nat j < off + (i + 1))); try reflexivity; lia.
  - exists buf'. auto.
Qed.

(** The loop that adds [n] entries of a buffer to the values. *)
Lemma accumulate_loop (sv values : list float) (off n : Z) :
  0 <= off -> 0 <= n -> off + n <= Z.of_nat (length sv) ->
  n <= Z.of_nat (length values) ->
  exists values',
    for_range 0 n
      (fun v values => h ← rd sv (off + v); upd values v (fun x => (x + h)%float))
      values = Done values' /\
    length values' = length values /\
    forall v : nat,
      values' !! v =
        if decide (Z.of_nat v < n)
        then x ← values !! v; h ← sv !! (Z.to_nat off + v)%nat; Some (x + h)%float
        else values !! v.
Proof.
  intros Hoff Hn Hsv Hval.
  destruct (for_range_inv
              (fun i t =>
                 length t = length values /\
                 forall v : nat,
                   t !! v =
                     if decide (Z.of_nat v < i)
                     then x ← values !! v; h ← sv !! (Z.to_nat off + v)%nat;
                          Some (x + h)%float
                     else values !! v)
              (fun v values =>
                 h ← rd sv (off + v); upd values v (fun x => (x + h)%float))
              0 n values) as (values' & Hloop & Hl & Hv); [exact Hn | | |].
  - split; [reflexivity |]. intros v.
    destruct (decide (Z.of_nat v < 0)); [lia | reflexivity].
  - intros i t Hi [Hl Hv].
    destruct (lookup_lt_is_Some_2 sv (Z.to_nat (off + i))) as [h Hh]; [lia |].
    destruct (lookup_lt_is_Some_2 values (Z.to_nat i)) as [x Hx]; [lia |].
    assert (Hti : t !! Z.to_nat i = Some x).
    { rewrite Hv. destruct (decide (Z.of_nat (Z.to_nat i) < i)); [lia | exact Hx]. }
    rewrite (rd_Done sv (off + i) h) by (lia || exact Hh).
    cbn [mbind outcome_bind].
    rewrite (upd_Done t i (fun x => (x + h)%float) x) by (lia || exact Hti).
    eexists. split; [reflexivity |]. split; [now rewrite length_insert |].
    intros v. destruct (decide (v = Z.to_nat i)) as [-> | Hne].
    + rewrite list_lookup_insert_eq by lia.
      destruct (decide (Z.of_nat (Z.to_nat i) < i + 1)); [| lia].
      rewrite Hx. cbn.
      replace (Z.to_nat off + Z.to_nat i)%nat with (Z.to_nat (off + i)) by lia.
      now rewrite Hh.
    + rewrite list_lookup_insert_ne by congruence. rewrite Hv.
      destruct (decide (Z.of_nat v < i)), (decide (Z.of_nat v < i + 1));
        try reflexivity; lia.
  - exists values'. auto.
Qed.

(** X29.  The evaluator of a potential defined by value, with a local
    Hodge operator on the vertices of the cell: it adds to the value of
    each vertex of the cell the entry of the product of the operator by
    the vector whose entries are all the value of the term; the values
    beyond the vertices of the cell, the operator and the vectors of the
    builder are as they were. *)
Theorem pvsp_by_value_adds `{Env} (st : cs_source_term_t) (c : float)
    (cm : cs_cell_mesh_t) (cb : cs_cell_builder_t) (values : list float)
    (hdg : cs_locmat_t) :
  def st = def_get c ->
  cb_hdg cb = Some hdg ->
  n_ent hdg = n_vc cm ->
  0 <= n_vc cm ->
  2 * n_vc cm <= Z.of_nat (length (cb_values cb)) ->
  n_vc cm <= Z.of_nat (length values) ->
  n_vc cm <= Z.of_nat (length (cs_locmat_matvec hdg
                                 (replicate (Z.to_nat (n_vc cm)) c))) ->
  exists cb' values',
    cs_source_term_pvsp_by_value (Some st) cm cb values = Done (cb', values') /\
    cb_hdg cb' = cb_hdg cb /\ cb_vectors cb' = cb_vectors cb /\
    length values' = length values /\
    forall v : nat,
      values' !! v =
        if decide (Z.of_nat v < n_vc cm)
        then x ← values !! v;
             h ← cs_locmat_matvec hdg (replicate (Z.to_nat (n_vc cm)) c) !! v;
             Some (x + h)%float
        else values !! v.
Proof.
  intros Hdef Hh Hent Hn Hsv Hval Hprod.
  unfold cs_source_term_pvsp_by_value, get_val, assert_.
  rewrite Hh, Hdef. cbn [is_some]. rewrite orb_true_r.
  cbn [mbind outcome_bind].
  rewrite for_range_fill by lia. cbn [mbind outcome_bind].
  unfold locmat_matvec. cbn [deref mbind outcome_bind]. rewrite Hent.
  replace ((0 <? n_vc cm)
           && negb ((0 + n_vc cm <=? n_vc cm) || (n_vc cm + n_vc cm <=? 0)))
    with false
    by (destruct (Z.leb_spec (0 + n_vc cm) (n_vc cm)); [| lia];
        now rewrite andb_false_r).
  set (sv0 := replicate (Z.to_nat (n_vc cm)) c
              ++ drop (Z.to_nat (n_vc cm)) (cb_values cb)).
  assert (Hsv0 : length sv0 = length (cb_values cb)).
  { unfold sv0. rewrite length_app, length_replicate, length_drop. lia. }
  rewrite gather_loop by (rewrite ?Hsv0; lia). cbn [mbind outcome_bind].
  assert (Hvec : take (Z.to_nat (n_vc cm)) (drop (Z.to_nat 0) sv0)
                 = replicate (Z.to_nat (n_vc cm)) c).
  { change (Z.to_nat 0) with O. rewrite drop_0. unfold sv0.
    rewrite take_app_length' by now rewrite length_replicate. reflexivity. }
  rewrite Hvec.
  destruct (scatter_loop
              (cs_locmat_matvec hdg (replicate (Z.to_nat (n_vc cm)) c))
              sv0 (n_vc cm) (n_vc cm)) as (sv & Hscatter & Hlsv & Hvsv);
    [lia | lia | rewrite Hsv0; lia | exact Hprod |].
  rewrite Hscatter. cbn [mbind outcome_bind].
  destruct (accumulate_loop sv values (n_vc cm) (n_vc cm))
    as (values' & Hacc & Hlv & Hvv); [lia | lia | rewrite Hlsv, Hsv0; lia | lia |].
  rewrite Hacc. cbn [mbind outcome_bind].
  eexists _, values'. split; [reflexivity |]. cbn [cb_hdg cb_vectors].
  split; [now rewrite ?Hh |]. split; [reflexivity |]. split; [exact Hlv |].
  intros v. rewrite Hvv.
  destruct (decide (Z.of_nat v < n_vc cm)) as [Hv |]; [| reflexivity].
  rewrite Hvsv.
  destruct (decide (n_vc cm <= Z.of_nat (Z.to_nat (n_vc cm) + v)
                    < n_vc cm + n_vc cm)); [| lia].
  now replace (Z.to_nat (n_vc cm) + v - Z.to_nat (n_vc cm))%nat with v by lia.
Qed.

Lemma pvsp_by_value_adds_witness :
  exists cb' values',
    @cs_source_term_pvsp_by_value Example.env (Some Example.potential_one)
      Example.cell Example.builder [9; 9; 9; 9; 9]%float = Done (cb', values') /\
    cb_hdg cb' = cb_hdg Example.builder /\
    cb_vectors cb' = cb_vectors Example.builder /\
    length values' = 5%nat /\
    forall v : nat,
      values' !! v =
        if decide (Z.of_nat v < 4)
        then x ← [9; 9; 9; 9; 9]%float !! v;
             h ← [1; 1; 1; 1]%float !! v;
             Some (x + h)%float
        else [9; 9; 9; 9; 9]%float !! v.
Proof.
  apply (@pvsp_by_value_adds Example.env Example.potential_one 1 Example.cell
           Example.builder [9; 9; 9; 9; 9]%float
           {| n_ent := 4;
              val := [1; 0; 0; 0;  0; 1; 0; 0;  0; 0; 1; 0;  0; 0; 0; 1]%float |});
    try reflexivity; cbn; lia.
Defined.

(* ================================================================== *)
(** ** What the evaluators of a density never do *)


